(** * nginx 1.2.6 memory pool, array and list: a shallow embedding

    The development follows [src/core/ngx_palloc.c], [src/core/ngx_array.c],
    [src/core/ngx_list.c] and [src/os/unix/ngx_alloc.c].

    Representation choices.
    - Addresses, [size_t] and [ngx_uint_t] values are integers of [Z]; a cast
      to [size_t] is written [size_t x] and reduces modulo the word size.
    - A singly linked chain ([d.next], [large->next], [cleanup->next],
      [part->next]) is the list of its nodes in chain order; a pointer
      into a chain ([pool->current], [list->last]) is an index.
    - The raw allocator (malloc, posix_memalign, free) is an interface with
      a freshness law; calls to it and to cleanup handlers are recorded in
      a trace, in the order they happen. *)

From stdpp Require Import prelude.
From Stdlib Require Import ZArith Lia.

Local Open Scope Z_scope.

(** ** Platform constants

    The headers [ngx_config.h], [ngx_core.h] and [ngx_palloc.h] are not part
    of the sources at hand; the constants and structure sizes they fix are
    taken as parameters. *)

Class Platform := {
  word_bits : Z;                    (* width of size_t, uintptr_t, ngx_uint_t *)
  NGX_ALIGNMENT : Z;                (* sizeof(unsigned long) *)
  NGX_POOL_ALIGNMENT : Z;
  NGX_MAX_ALLOC_FROM_POOL : Z;      (* ngx_pagesize - 1 *)
  sizeof_ngx_pool_t : Z;
  sizeof_ngx_pool_data_t : Z;
  sizeof_ngx_pool_large_t : Z;
  sizeof_ngx_pool_cleanup_t : Z;
  sizeof_ngx_array_t : Z;
  sizeof_ngx_list_t : Z;
  sizeof_ngx_list_part_t : Z
}.

Class PlatformOk `{Platform} : Prop := {
  word_bits_min : 16 <= word_bits;
  alignment_pos : 0 < NGX_ALIGNMENT;
  alignment_pool : (NGX_ALIGNMENT | NGX_POOL_ALIGNMENT);
  pool_alignment_pos : 0 < NGX_POOL_ALIGNMENT;
  max_alloc_range : 0 < NGX_MAX_ALLOC_FROM_POOL < 2 ^ word_bits - 1;
  sizeof_data_pos : 0 < sizeof_ngx_pool_data_t;
  sizeof_data_le : sizeof_ngx_pool_data_t <= sizeof_ngx_pool_t;
  sizeof_data_aligned : (NGX_ALIGNMENT | sizeof_ngx_pool_data_t);
  sizeof_pool_aligned : (NGX_ALIGNMENT | sizeof_ngx_pool_t);
  sizeof_large_pos : 0 < sizeof_ngx_pool_large_t;
  sizeof_large_max : sizeof_ngx_pool_large_t <= NGX_MAX_ALLOC_FROM_POOL;
  sizeof_cleanup_pos : 0 < sizeof_ngx_pool_cleanup_t
}.

(** The LP64 layout (Linux on x86-64, 4096-byte pages). *)
Definition lp64 : Platform := {|
  word_bits := 64;
  NGX_ALIGNMENT := 8;
  NGX_POOL_ALIGNMENT := 16;
  NGX_MAX_ALLOC_FROM_POOL := 4095;
  sizeof_ngx_pool_t := 80;
  sizeof_ngx_pool_data_t := 32;
  sizeof_ngx_pool_large_t := 16;
  sizeof_ngx_pool_cleanup_t := 24;
  sizeof_ngx_array_t := 40;
  sizeof_ngx_list_t := 56;
  sizeof_ngx_list_part_t := 24
|}.

(** ** The raw allocator

    [malloc] and [posix_memalign] return the address of the chunk, or [0]
    (NULL) when they fail; [chunks] lists the chunks currently allocated as
    (address, size) pairs. *)

Definition region : Type := (Z * Z)%type.

Definition region_disjoint (r1 r2 : region) : Prop :=
  r1.1 + r1.2 <= r2.1 ∨ r2.1 + r2.2 <= r1.1.

Definition region_within (r1 r2 : region) : Prop :=
  r2.1 <= r1.1 ∧ r1.1 + r1.2 <= r2.1 + r2.2.

Class RawAllocator := {
  heap : Type;
  malloc : Z → heap → Z * heap;
  posix_memalign : Z → Z → heap → Z * heap;
  free : Z → heap → heap;
  chunks : heap → list region
}.

Class RawAllocatorOk `{RawAllocator} : Prop := {
  malloc_fresh : ∀ n h p h',
    malloc n h = (p, h') → p ≠ 0 →
    chunks h' = (p, n) :: chunks h ∧ Forall (region_disjoint (p, n)) (chunks h);
  malloc_null : ∀ n h h', malloc n h = (0, h') → chunks h' = chunks h;
  posix_memalign_fresh : ∀ a n h p h',
    posix_memalign a n h = (p, h') → p ≠ 0 →
    chunks h' = (p, n) :: chunks h ∧ Forall (region_disjoint (p, n)) (chunks h)
    ∧ (a | p);
  posix_memalign_null : ∀ a n h h',
    posix_memalign a n h = (0, h') → chunks h' = chunks h
}.

(** ** Data model *)

(** [ngx_pool_data_t]: [d_self] is the address of the block the header sits
    in, [d.next] is the successor in the list of blocks. *)
Record ngx_pool_data_t := mk_data {
  d_self : Z;
  d_last : Z;
  d_end : Z;
  d_failed : Z
}.

Record ngx_pool_large_t := mk_large {
  l_self : Z;          (* where the record lives, in pool memory *)
  l_alloc : Z          (* 0 when the slot is empty *)
}.

(** [ngx_pool_cleanup_t]: [c_self] is the address of the record, in pool
    memory; [next] is the successor in the list [p_cleanup]. The list
    stands for the chain in memory as long as its records lie at distinct
    addresses that have not been handed out again. [ngx_reset_pool] hands
    the memory of the records out again and leaves [pool->cleanup]
    pointing to them: a registration after that gets the address of a
    record of the chain, and what is then in memory (a record whose
    [next] leads back to itself) is not a list. *)
Record ngx_pool_cleanup_t := mk_cleanup {
  c_self : Z;
  c_handler : Z;       (* function pointer, 0 when not set *)
  c_data : Z
}.

Record ngx_pool_t := mk_pool {
  p_d : list ngx_pool_data_t;        (* the pool itself, then d.next, ... *)
  p_max : Z;
  p_current : nat;
  p_large : list ngx_pool_large_t;
  p_cleanup : list ngx_pool_cleanup_t
}.

Inductive event :=
  | EvMalloc (size p : Z)
  | EvMemalign (alignment size p : Z)
  | EvFree (p : Z)
  | EvHandler (handler data : Z).

(** Modelled from the spec: the result codes of [ngx_pfree], success and
    "not found"; their definitions in [ngx_core.h] are not part of the
    sources. *)
Inductive ngx_int_t := NGX_OK | NGX_DECLINED.

Definition memory : Type := Z → Byte.byte.

Definition set_last (v : Z) (b : ngx_pool_data_t) : ngx_pool_data_t :=
  mk_data (d_self b) v (d_end b) (d_failed b).

Definition set_failed (v : Z) (b : ngx_pool_data_t) : ngx_pool_data_t :=
  mk_data (d_self b) (d_last b) (d_end b) v.

Definition set_alloc (v : Z) (l : ngx_pool_large_t) : ngx_pool_large_t :=
  mk_large (l_self l) v.

Definition set_d (bs : list ngx_pool_data_t) (p : ngx_pool_t) : ngx_pool_t :=
  mk_pool bs (p_max p) (p_current p) (p_large p) (p_cleanup p).

Definition set_current (c : nat) (p : ngx_pool_t) : ngx_pool_t :=
  mk_pool (p_d p) (p_max p) c (p_large p) (p_cleanup p).

Definition set_large (ls : list ngx_pool_large_t) (p : ngx_pool_t) : ngx_pool_t :=
  mk_pool (p_d p) (p_max p) (p_current p) ls (p_cleanup p).

Definition set_cleanup (cs : list ngx_pool_cleanup_t) (p : ngx_pool_t) : ngx_pool_t :=
  mk_pool (p_d p) (p_max p) (p_current p) (p_large p) cs.

Definition block_region (b : ngx_pool_data_t) : region :=
  (d_self b, d_end b - d_self b).

Section Pool.
Context `{Platform} `{RawAllocator}.

(** The cast [(size_t) x]. *)
Definition size_t (x : Z) : Z := x mod 2 ^ word_bits.

(** Modelled from the spec: the macro [ngx_align_ptr] of [ngx_config.h],
    which is not part of the sources; it rounds an address up to the next
    multiple of the alignment. *)
Definition ngx_align_ptr (p a : Z) : Z := (p + (a - 1)) / a * a.

(** ** Program state and the monad the operations run in

    A computation takes the state and returns a value and the new state,
    or [None] when the recursion budget of [ngx_palloc] is exhausted.

    The state holds the pool, the heap of the raw allocator, the bytes of
    memory and the trace of the calls made. The fields of the pool, of its
    block headers and of the records of its chains are kept in [st_pool],
    not as bytes: [st_mem] stands for the bytes of the regions handed out
    to the callers, the only ones [ngx_memzero] and [ngx_memcpy] are
    applied to, and says nothing about the bytes of headers and records. *)

Record state := mk_state {
  st_pool : ngx_pool_t;
  st_heap : heap;
  st_mem : memory;
  st_trace : list event
}.

Definition M (A : Type) : Type := state → option (A * state).

#[global] Instance M_ret : MRet M := λ A a s, Some (a, s).
#[global] Instance M_bind : MBind M := λ A B k m s,
  match m s with
  | Some (a, s') => k a s'
  | None => None
  end.

Definition get_pool : M ngx_pool_t := λ s, Some (st_pool s, s).

Definition put_pool (p : ngx_pool_t) : M unit := λ s,
  Some ((), mk_state p (st_heap s) (st_mem s) (st_trace s)).

Definition emit (e : event) : M unit := λ s,
  Some ((), mk_state (st_pool s) (st_heap s) (st_mem s) (st_trace s ++ [e])).

(** ** ngx_alloc.c *)

Definition ngx_alloc (size : Z) : M Z := λ s,
  let '(p, h) := malloc size (st_heap s) in
  Some (p, mk_state (st_pool s) h (st_mem s) (st_trace s ++ [EvMalloc size p])).

Definition ngx_memalign (alignment size : Z) : M Z := λ s,
  let '(p, h) := posix_memalign alignment size (st_heap s) in
  Some (p, mk_state (st_pool s) h (st_mem s)
              (st_trace s ++ [EvMemalign alignment size p])).

(** Modelled from the spec: [ngx_free], a macro of [ngx_alloc.h] that is not
    part of the sources, hands the pointer to the raw allocator's [free]. *)
Definition ngx_free (p : Z) : M unit := λ s,
  Some ((), mk_state (st_pool s) (free p (st_heap s)) (st_mem s)
              (st_trace s ++ [EvFree p])).

(** ** ngx_palloc.c *)

(** [ngx_create_pool] on the heap [h] with memory [m]: the state holding
    the new pool, or [None] for NULL. *)
Definition ngx_create_pool (size : Z) (h : heap) (m : memory) : option state :=
  let '(p, h') := posix_memalign NGX_POOL_ALIGNMENT size h in
  if p =? 0 then None
  else
    let d := mk_data p (p + sizeof_ngx_pool_t) (p + size) 0 in
    let size' := size_t (size - sizeof_ngx_pool_t) in
    let max := if size' <? NGX_MAX_ALLOC_FROM_POOL then size'
               else NGX_MAX_ALLOC_FROM_POOL in
    Some (mk_state (mk_pool [d] max 0%nat [] []) h' m
            [EvMemalign NGX_POOL_ALIGNMENT size p]).

(** The search loop shared by [ngx_palloc] ([aligned = true]) and
    [ngx_pnalloc] ([aligned = false]), run on the chain from
    [pool->current]: the first block with room serves the request. *)
Fixpoint pool_scan (aligned : bool) (size : Z) (bs : list ngx_pool_data_t)
    : option (Z * list ngx_pool_data_t) :=
  match bs with
  | [] => None
  | p :: rest =>
      let m := if aligned then ngx_align_ptr (d_last p) NGX_ALIGNMENT
               else d_last p in
      if size <=? size_t (d_end p - m) then
        Some (m, set_last (m + size) p :: rest)
      else
        match pool_scan aligned size rest with
        | Some (m', rest') => Some (m', p :: rest')
        | None => None
        end
  end.

(** The loop of [ngx_palloc_block]: [i] is the index of the head of [bs]
    in the chain, [current] the candidate. The body runs for the blocks
    that have a successor. *)
Fixpoint failed_walk (i : nat) (bs : list ngx_pool_data_t) (current : option nat)
    : list ngx_pool_data_t * option nat :=
  match bs with
  | p :: (_ :: _) as rest =>
      let current' := if 4 <? d_failed p then Some (S i) else current in
      let '(rest', c) := failed_walk (S i) rest current' in
      (set_failed (size_t (d_failed p + 1)) p :: rest', c)
  | _ => (bs, current)
  end.

Definition pool_psize (pool : ngx_pool_t) : Z :=
  match p_d pool with
  | d :: _ => size_t (d_end d - d_self d)
  | [] => 0
  end.

Definition ngx_palloc_block (size : Z) : M Z :=
  pool ← get_pool;
  let psize := pool_psize pool in
  m ← ngx_memalign NGX_POOL_ALIGNMENT psize;
  if m =? 0 then mret 0
  else
    let m' := ngx_align_ptr (m + sizeof_ngx_pool_data_t) NGX_ALIGNMENT in
    let new := mk_data m (m' + size) (m + psize) 0 in
    let '(walked, current) :=
      failed_walk (p_current pool) (drop (p_current pool) (p_d pool))
        (Some (p_current pool)) in
    let new_index := length (p_d pool) in
    put_pool (set_current (default new_index current)
               (set_d (take (p_current pool) (p_d pool) ++ walked ++ [new]) pool));;
    mret m'.

(** The part of [ngx_palloc] / [ngx_pnalloc] taken when [size <= pool->max]. *)
Definition pool_small (aligned : bool) (size : Z) : M Z :=
  pool ← get_pool;
  match pool_scan aligned size (drop (p_current pool) (p_d pool)) with
  | Some (m, bs) =>
      put_pool (set_d (take (p_current pool) (p_d pool) ++ bs) pool);;
      mret m
  | None => ngx_palloc_block size
  end.

(** The loop of [ngx_palloc_large] looking for an empty slot; [n] counts
    the records seen. *)
Fixpoint large_scan (p : Z) (n : Z) (ls : list ngx_pool_large_t)
    : option (list ngx_pool_large_t) :=
  match ls with
  | [] => None
  | large :: rest =>
      if l_alloc large =? 0 then Some (set_alloc p large :: rest)
      else if 3 <? n then None
      else cons large <$> large_scan p (n + 1) rest
  end.

(** [ngx_palloc_large]; [palloc] is the recursive call to [ngx_palloc]. *)
Definition ngx_palloc_large (palloc : Z → M Z) (size : Z) : M Z :=
  p ← ngx_alloc size;
  if p =? 0 then mret 0
  else
    pool ← get_pool;
    match large_scan p 0 (p_large pool) with
    | Some ls => put_pool (set_large ls pool);; mret p
    | None =>
        large ← palloc sizeof_ngx_pool_large_t;
        if large =? 0 then ngx_free p;; mret 0
        else
          pool ← get_pool;
          put_pool (set_large (mk_large large p :: p_large pool) pool);;
          mret p
    end.

Fixpoint ngx_palloc (fuel : nat) (size : Z) : M Z := λ s,
  if size <=? p_max (st_pool s) then pool_small true size s
  else
    match fuel with
    | O => None
    | S fuel' => ngx_palloc_large (ngx_palloc fuel') size s
    end.

Definition ngx_pnalloc (fuel : nat) (size : Z) : M Z := λ s,
  if size <=? p_max (st_pool s) then pool_small false size s
  else
    match fuel with
    | O => None
    | S fuel' => ngx_palloc_large (ngx_palloc fuel') size s
    end.

(** [ngx_pfree]: the loop over the large chain; the first record whose
    [alloc] is [p] is emptied. *)
Fixpoint pfree_scan (p : Z) (ls : list ngx_pool_large_t)
    : option (list ngx_pool_large_t) :=
  match ls with
  | [] => None
  | l :: rest =>
      if p =? l_alloc l then Some (set_alloc 0 l :: rest)
      else cons l <$> pfree_scan p rest
  end.

Definition ngx_pfree (p : Z) : M ngx_int_t :=
  pool ← get_pool;
  match pfree_scan p (p_large pool) with
  | Some ls =>
      ngx_free p;;
      pool ← get_pool;
      put_pool (set_large ls pool);;
      mret NGX_OK
  | None => mret NGX_DECLINED
  end.

Fixpoint run_cleanups (cs : list ngx_pool_cleanup_t) : M unit :=
  match cs with
  | [] => mret ()
  | c :: rest =>
      (if c_handler c =? 0 then mret ()
       else emit (EvHandler (c_handler c) (c_data c)));;
      run_cleanups rest
  end.

Fixpoint free_larges (ls : list ngx_pool_large_t) : M unit :=
  match ls with
  | [] => mret ()
  | l :: rest =>
      (if l_alloc l =? 0 then mret () else ngx_free (l_alloc l));;
      free_larges rest
  end.

Fixpoint free_blocks (bs : list ngx_pool_data_t) : M unit :=
  match bs with
  | [] => mret ()
  | p :: rest => ngx_free (d_self p);; free_blocks rest
  end.

(** [ngx_destroy_pool] (without the [NGX_DEBUG] logging loop). *)
Definition ngx_destroy_pool : M unit :=
  pool ← get_pool;
  run_cleanups (p_cleanup pool);;
  free_larges (p_large pool);;
  free_blocks (p_d pool).

Definition ngx_reset_pool : M unit :=
  pool ← get_pool;
  free_larges (p_large pool);;
  pool ← get_pool;
  put_pool
    (set_d (map (λ p, set_last (d_self p + sizeof_ngx_pool_t) p) (p_d pool))
       (set_large [] pool)).

(** [ngx_pool_cleanup_add]: the store [c->next = p->cleanup] is the cons
    onto the list, for a record [c] at an address that no record of the
    chain has. *)
Definition ngx_pool_cleanup_add (fuel : nat) (size : Z) : M Z :=
  c ← ngx_palloc fuel sizeof_ngx_pool_cleanup_t;
  if c =? 0 then mret 0
  else
    data ← (if size =? 0 then mret 0 else ngx_palloc fuel size);
    if negb (size =? 0) && (data =? 0) then mret 0
    else
      pool ← get_pool;
      put_pool (set_cleanup (mk_cleanup c 0 data :: p_cleanup pool) pool);;
      mret c.

(** The caller's stores [c->handler = handler; c->data = data] through the
    pointer [c] that [ngx_pool_cleanup_add] returned. *)
Fixpoint cleanup_store (c handler data : Z) (cs : list ngx_pool_cleanup_t)
    : list ngx_pool_cleanup_t :=
  match cs with
  | [] => []
  | r :: rest =>
      if c_self r =? c then mk_cleanup c handler data :: rest
      else r :: cleanup_store c handler data rest
  end.

Definition cleanup_set (c handler data : Z) : M unit :=
  pool ← get_pool;
  put_pool (set_cleanup (cleanup_store c handler data (p_cleanup pool)) pool).

(** ** ngx_array.c *)

Record ngx_array_t := mk_array {
  a_elts : Z;
  a_nelts : Z;
  a_size : Z;
  a_nalloc : Z
}.

Definition ngx_memcpy (dst src n : Z) : M unit := λ s,
  Some ((), mk_state (st_pool s) (st_heap s)
              (λ x, if (dst <=? x) && (x <? dst + n)
                    then st_mem s (src + (x - dst)) else st_mem s x)
              (st_trace s)).

Definition ngx_array_create (fuel : nat) (n size : Z) : M (option ngx_array_t) :=
  a ← ngx_palloc fuel sizeof_ngx_array_t;
  if a =? 0 then mret None
  else
    elts ← ngx_palloc fuel (size_t (n * size));
    if elts =? 0 then mret None
    else mret (Some (mk_array elts 0 size n)).

(** The tail of [ngx_array_push]: the address of slot [nelts], then
    [nelts++]. *)
Definition array_take_slot (a : ngx_array_t) : Z * ngx_array_t :=
  (a_elts a + size_t (a_size a * a_nelts a),
   mk_array (a_elts a) (size_t (a_nelts a + 1)) (a_size a) (a_nalloc a)).

(** [ngx_array_push]; [p->d] is the header of the pool itself, the first
    block of the chain. A NULL result leaves the array as it was. *)
Definition ngx_array_push (fuel : nat) (a : ngx_array_t) : M (Z * ngx_array_t) :=
  if a_nelts a =? a_nalloc a then
    let size := size_t (a_size a * a_nalloc a) in
    p ← get_pool;
    match p_d p with
    | [] => mret (0, a)
    | d :: rest =>
        if (a_elts a + size =? d_last d) && (d_last d + a_size a <=? d_end d)
        then
          put_pool (set_d (set_last (d_last d + a_size a) d :: rest) p);;
          mret (array_take_slot
                  (mk_array (a_elts a) (a_nelts a) (a_size a)
                     (size_t (a_nalloc a + 1))))
        else
          new ← ngx_palloc fuel (size_t (2 * size));
          if new =? 0 then mret (0, a)
          else
            ngx_memcpy new (a_elts a) size;;
            mret (array_take_slot
                    (mk_array new (a_nelts a) (a_size a)
                       (size_t (a_nalloc a * 2))))
    end
  else mret (array_take_slot a).

(** ** ngx_list.c *)

Record ngx_list_part_t := mk_part {
  part_elts : Z;
  part_nelts : Z
}.

(** [l_parts] is the chain from [list->part]; [l_last] is the index of the
    part [list->last] points to. *)
Record ngx_list_t := mk_list {
  l_parts : list ngx_list_part_t;
  l_last : nat;
  l_size : Z;
  l_nalloc : Z
}.

Definition ngx_list_create (fuel : nat) (n size : Z) : M (option ngx_list_t) :=
  list ← ngx_palloc fuel sizeof_ngx_list_t;
  if list =? 0 then mret None
  else
    elts ← ngx_palloc fuel (size_t (n * size));
    if elts =? 0 then mret None
    else mret (Some (mk_list [mk_part elts 0] 0%nat size n)).

(** [ngx_list_push]. A new part is linked behind [l->last], which drops
    whatever followed it, and becomes [l->last]. A NULL result leaves the
    list as it was. *)
Definition ngx_list_push (fuel : nat) (l : ngx_list_t) : M (Z * ngx_list_t) :=
  match l_parts l !! l_last l with
  | None => mret (0, l)
  | Some last =>
      if part_nelts last =? l_nalloc l then
        part ← ngx_palloc fuel sizeof_ngx_list_part_t;
        if part =? 0 then mret (0, l)
        else
          elts ← ngx_palloc fuel (size_t (l_nalloc l * l_size l));
          if elts =? 0 then mret (0, l)
          else
            mret (elts + size_t (l_size l * 0),
                  mk_list (take (S (l_last l)) (l_parts l)
                             ++ [mk_part elts (size_t (0 + 1))])
                    (S (l_last l)) (l_size l) (l_nalloc l))
      else
        mret (part_elts last + size_t (l_size l * part_nelts last),
              mk_list (<[l_last l := mk_part (part_elts last)
                                       (size_t (part_nelts last + 1))]>
                         (l_parts l))
                (l_last l) (l_size l) (l_nalloc l))
  end.

(** ** Further functions of ngx_palloc.c, ngx_alloc.c and ngx_array.[ch] *)

Definition get_mem : M memory := λ s, Some (st_mem s, s).

(** Modelled from the spec: [ngx_memzero], a macro of [ngx_string.h] that
    is not part of the sources; it zero-fills the [n] bytes from [p]. *)
Definition ngx_memzero (p n : Z) : M unit := λ s,
  Some ((), mk_state (st_pool s) (st_heap s)
              (λ x, if (p <=? x) && (x <? p + n) then Byte.x00 else st_mem s x)
              (st_trace s)).

(** [ngx_calloc] of ngx_alloc.c. *)
Definition ngx_calloc (size : Z) : M Z :=
  p ← ngx_alloc size;
  (if p =? 0 then mret () else ngx_memzero p size);;
  mret p.

Definition ngx_pcalloc (fuel : nat) (size : Z) : M Z :=
  p ← ngx_palloc fuel size;
  (if p =? 0 then mret () else ngx_memzero p size);;
  mret p.

Definition ngx_pmemalign (fuel : nat) (size alignment : Z) : M Z :=
  p ← ngx_memalign alignment size;
  if p =? 0 then mret 0
  else
    large ← ngx_palloc fuel sizeof_ngx_pool_large_t;
    if large =? 0 then ngx_free p;; mret 0
    else
      pool ← get_pool;
      put_pool (set_large (mk_large large p :: p_large pool) pool);;
      mret p.

(** The loop of [ngx_pool_run_cleanup_file]: the first record whose handler
    is [ngx_pool_cleanup_file] and whose data holds the descriptor [fd]; it
    is returned with the chain in which its handler is cleared. *)
Fixpoint cleanup_file_scan (file_handler : Z) (fd_of : Z → Z) (fd : Z)
    (cs : list ngx_pool_cleanup_t)
    : option (ngx_pool_cleanup_t * list ngx_pool_cleanup_t) :=
  match cs with
  | [] => None
  | c :: rest =>
      if (c_handler c =? file_handler) && (fd_of (c_data c) =? fd) then
        Some (c, mk_cleanup (c_self c) 0 (c_data c) :: rest)
      else
        match cleanup_file_scan file_handler fd_of fd rest with
        | Some (c', rest') => Some (c', c :: rest')
        | None => None
        end
  end.

(** [ngx_pool_run_cleanup_file]. The address [file_handler] of the function
    [ngx_pool_cleanup_file] and the read [read_fd] of the field [fd] of an
    [ngx_pool_cleanup_file_t] in memory are parameters: the structure is
    declared in [ngx_palloc.h], which is not part of the sources. *)
Definition ngx_pool_run_cleanup_file (file_handler : Z)
    (read_fd : memory → Z → Z) (fd : Z) : M unit :=
  p ← get_pool;
  mem ← get_mem;
  match cleanup_file_scan file_handler (read_fd mem) fd (p_cleanup p) with
  | Some (c, cs) =>
      emit (EvHandler (c_handler c) (c_data c));;
      p ← get_pool;
      put_pool (set_cleanup cs p)
  | None => mret ()
  end.

(** [NGX_ERROR], with the value the comment of [ngx_array_init] gives; its
    [NGX_OK] is 0. *)
Definition NGX_ERROR : Z := -1.

(** [ngx_array_init] of ngx_array.h: the caller's array is filled in, then
    the buffer is taken from the pool; the result code comes first. *)
Definition ngx_array_init (fuel : nat) (n size : Z) : M (Z * ngx_array_t) :=
  elts ← ngx_palloc fuel (size_t (n * size));
  if elts =? 0 then mret (NGX_ERROR, mk_array 0 0 size n)
  else mret (0, mk_array elts 0 size n).

(** [ngx_array_destroy]; [a] is the address of the array header and [arr]
    its contents. *)
Definition ngx_array_destroy (a : Z) (arr : ngx_array_t) : M unit :=
  p ← get_pool;
  match p_d p with
  | [] => mret ()
  | d :: rest =>
      let d1 :=
        if a_elts arr + size_t (a_size arr * a_nalloc arr) =? d_last d
        then set_last (d_last d - size_t (a_size arr * a_nalloc arr)) d
        else d in
      let d2 :=
        if a + sizeof_ngx_array_t =? d_last d1 then set_last a d1 else d1 in
      put_pool (set_d (d2 :: rest) p)
  end.

(** The tail of [ngx_array_push_n]: the address of slot [nelts], then
    [nelts += n]. *)
Definition array_take_slots (n : Z) (a : ngx_array_t) : Z * ngx_array_t :=
  (a_elts a + size_t (a_size a * a_nelts a),
   mk_array (a_elts a) (size_t (a_nelts a + n)) (a_size a) (a_nalloc a)).

Definition ngx_array_push_n (fuel : nat) (a : ngx_array_t) (n : Z)
    : M (Z * ngx_array_t) :=
  let size := size_t (n * a_size a) in
  if a_nalloc a <? size_t (a_nelts a + n) then
    p ← get_pool;
    match p_d p with
    | [] => mret (0, a)
    | d :: rest =>
        if (a_elts a + size_t (a_size a * a_nalloc a) =? d_last d)
           && (d_last d + size <=? d_end d)
        then
          put_pool (set_d (set_last (d_last d + size) d :: rest) p);;
          mret (array_take_slots n
                  (mk_array (a_elts a) (a_nelts a) (a_size a)
                     (size_t (a_nalloc a + n))))
        else
          let nalloc :=
            size_t (2 * (if a_nalloc a <=? n then n else a_nalloc a)) in
          new ← ngx_palloc fuel (size_t (nalloc * a_size a));
          if new =? 0 then mret (0, a)
          else
            ngx_memcpy new (a_elts a) (size_t (a_nelts a * a_size a));;
            mret (array_take_slots n (mk_array new (a_nelts a) (a_size a) nalloc))
    end
  else mret (array_take_slots n a).

End Pool.

(** ** A concrete raw allocator

    Chunks are carved out above every chunk handed out so far, up to a fixed
    limit; beyond the limit an allocation fails. *)

Record sbrk_heap := mk_sbrk {
  sb_limit : Z;
  sb_chunks : list region
}.

Definition sb_top (cs : list region) : Z :=
  foldr (λ c t, Z.max (c.1 + c.2) t) 16 cs.

Definition sbrk_alloc (a n : Z) (h : sbrk_heap) : Z * sbrk_heap :=
  let p := (sb_top (sb_chunks h) + (a - 1)) / a * a in
  if (0 <? a) && (0 <=? n) && (p + n <=? sb_limit h)
  then (p, mk_sbrk (sb_limit h) ((p, n) :: sb_chunks h))
  else (0, h).

Definition sbrk_free (p : Z) (h : sbrk_heap) : sbrk_heap :=
  mk_sbrk (sb_limit h) (filter (λ c, c.1 ≠ p) (sb_chunks h)).

Definition sbrk : RawAllocator := {|
  heap := sbrk_heap;
  malloc := sbrk_alloc 16;
  posix_memalign := sbrk_alloc;
  free := sbrk_free;
  chunks := sb_chunks
|}.

(** * Auxiliary definitions used in the statements *)

Section Specs.
Context `{Platform} `{RawAllocator}.

(** The buffers of the large chain that are not empty, in chain order. *)
Definition live_allocs (ls : list ngx_pool_large_t) : list Z :=
  filter (λ p, p ≠ 0) (l_alloc <$> ls).

(** One handler call for every record of the chain that has a handler, in
    chain order. *)
Definition handler_events (cs : list ngx_pool_cleanup_t) : list event :=
  (λ c, EvHandler (c_handler c) (c_data c)) <$> filter (λ c, c_handler c ≠ 0) cs.

Definition free_all (ps : list Z) (h : heap) : heap :=
  foldl (λ h p, free p h) h ps.

Definition is_handler_event (e : event) : Prop :=
  match e with EvHandler _ _ => True | _ => False end.

Definition is_malloc_event (e : event) : Prop :=
  match e with EvMalloc _ _ => True | _ => False end.

(** What an allocation from the pool leaves alone: the cleanup chain, [max],
    the memory contents; it calls no handler. *)
Definition alloc_frame (s s' : state) : Prop :=
  p_cleanup (st_pool s') = p_cleanup (st_pool s)
  ∧ p_max (st_pool s') = p_max (st_pool s)
  ∧ st_mem s' = st_mem s
  ∧ ∃ evs, st_trace s' = st_trace s ++ evs ∧ Forall (λ e, ¬ is_handler_event e) evs.

(** Registering a cleanup the way callers do: [ngx_pool_cleanup_add(p, 0)],
    then the stores of the handler and its data. *)
Definition register (fuel : nat) (r : Z * Z) : M Z :=
  c ← ngx_pool_cleanup_add fuel 0;
  if c =? 0 then mret 0
  else cleanup_set c r.1 r.2;; mret c.

Fixpoint register_all (fuel : nat) (rs : list (Z * Z)) : M (list Z) :=
  match rs with
  | [] => mret []
  | r :: rs' =>
      c ← register fuel r;
      cs ← register_all fuel rs';
      mret (c :: cs)
  end.

(** [k] calls of [ngx_list_push] in a row, with the pointers they return. *)
Fixpoint list_pushes (fuel : nat) (k : nat) (l : ngx_list_t)
    : M (list Z * ngx_list_t) :=
  match k with
  | O => mret ([], l)
  | S k' =>
      '(e, l1) ← ngx_list_push fuel l;
      '(es, l2) ← list_pushes fuel k' l1;
      mret (e :: es, l2)
  end.

(** [list->last] points to the tail of the chain, and every part before it
    holds [nalloc] elements. *)
Definition list_wf (l : ngx_list_t) : Prop :=
  S (l_last l) = length (l_parts l)
  ∧ Forall (λ p, part_nelts p = l_nalloc l) (take (l_last l) (l_parts l)).

(** The element counts of the parts, in traversal order. *)
Definition list_counts (l : ngx_list_t) : list Z := part_nelts <$> l_parts l.

(** A failed search counted against block [b]. *)
Definition count_failure (b : ngx_pool_data_t) : ngx_pool_data_t :=
  set_failed (size_t (d_failed b + 1)) b.

(** The rule for [pool->current] after block growth in the words of the
    specification: the skip-to candidate if the walk set one, else the new
    block (which gets index [length (p_d pool)]). *)
Definition spec_current_after_growth (pool : ngx_pool_t) : nat :=
  match (failed_walk (p_current pool) (drop (p_current pool) (p_d pool)) None).2 with
  | Some c => c
  | None => length (p_d pool)
  end.

(** The index of the first record of a large chain whose slot is empty. *)
Fixpoint first_empty (ls : list ngx_pool_large_t) : option nat :=
  match ls with
  | [] => None
  | l :: rest => if l_alloc l =? 0 then Some 0%nat else S <$> first_empty rest
  end.

(** Registration of the buffer [p] in the words of the specification: the
    first empty record among the first 4 is reused, otherwise a new record
    (living at [record]) goes to the head of the chain. *)
Definition spec_large_register (p record : Z) (ls : list ngx_pool_large_t)
    : list ngx_pool_large_t :=
  match first_empty (take 4 ls) with
  | Some i => alter (set_alloc p) i ls
  | None => mk_large record p :: ls
  end.

(** *** Allocation sequences and the regions they return *)

Inductive request :=
  | Palloc (size : Z)
  | Pnalloc (size : Z).

Definition request_size (r : request) : Z :=
  match r with Palloc n | Pnalloc n => n end.

Definition serve (fuel : nat) (r : request) : M Z :=
  match r with
  | Palloc n => ngx_palloc fuel n
  | Pnalloc n => ngx_pnalloc fuel n
  end.

Fixpoint serve_all (fuel : nat) (rs : list request) : M (list Z) :=
  match rs with
  | [] => mret []
  | r :: rs' =>
      p ← serve fuel r;
      ps ← serve_all fuel rs';
      mret (p :: ps)
  end.

Fixpoint pairwise_disjoint (rs : list region) : Prop :=
  match rs with
  | [] => True
  | r :: rest => Forall (region_disjoint r) rest ∧ pairwise_disjoint rest
  end.

(** The region lies within the [start, end) of a block of the chain. *)
Definition in_block (s : state) (r : region) : Prop :=
  ∃ b, b ∈ p_d (st_pool s) ∧ region_within r (block_region b).

(** The region lies in a block, below its cursor. *)
Definition below_cursor (s : state) (r : region) : Prop :=
  ∃ b, b ∈ p_d (st_pool s) ∧ d_self b <= r.1 ∧ r.1 + r.2 <= d_last b.

(** The region is a chunk of the raw allocator and overlaps no block. *)
Definition in_raw (s : state) (r : region) : Prop :=
  r ∈ chunks (st_heap s)
  ∧ Forall (λ b, region_disjoint r (block_region b)) (p_d (st_pool s)).

(** *** The pool invariant

    Every block is a chunk of [psize] bytes from the raw allocator, whose
    start and end are aligned and whose cursor lies inside it; the blocks do not
    overlap; [max] leaves room for the pool header in a block and is enough
    for a record of the large chain. *)
Definition block_ok (psize : Z) (h : heap) (b : ngx_pool_data_t) : Prop :=
  d_self b <= d_last b ∧ d_last b <= d_end b
  ∧ d_end b = d_self b + psize
  ∧ (NGX_ALIGNMENT | d_self b)
  ∧ (NGX_ALIGNMENT | d_end b)
  ∧ block_region b ∈ chunks h.

(** What the invariant and the regions see of a block. *)
Definition extent (b : ngx_pool_data_t) : Z * Z * Z :=
  (d_self b, d_last b, d_end b).

Record pool_inv (s : state) : Prop := {
  inv_psize : 0 <= pool_psize (st_pool s) < 2 ^ word_bits;
  inv_max : sizeof_ngx_pool_large_t <= p_max (st_pool s)
            ∧ p_max (st_pool s) + sizeof_ngx_pool_t <= pool_psize (st_pool s);
  inv_nonempty : p_d (st_pool s) ≠ [];
  inv_blocks : Forall (block_ok (pool_psize (st_pool s)) (st_heap s))
                 (p_d (st_pool s));
  inv_disjoint : pairwise_disjoint (block_region <$> p_d (st_pool s))
}.



(** The part of the invariant that allocation itself rests on: the same
    without the demand that [max] covers a record of the large chain. *)
Record pool_layout (s : state) : Prop := {
  lay_psize : 0 <= pool_psize (st_pool s) < 2 ^ word_bits;
  lay_max : p_max (st_pool s) + sizeof_ngx_pool_t <= pool_psize (st_pool s);
  lay_nonempty : p_d (st_pool s) ≠ [];
  lay_blocks : Forall (block_ok (pool_psize (st_pool s)) (st_heap s))
                 (p_d (st_pool s));
  lay_disjoint : pairwise_disjoint (block_region <$> p_d (st_pool s))
}.

Definition frame_lay (s s' : state) : Prop :=
  pool_layout s' ∧ p_max (st_pool s') = p_max (st_pool s)
  ∧ (∀ r0, below_cursor s r0 → below_cursor s' r0)
  ∧ (∀ r0, in_raw s r0 → in_raw s' r0).

Definition step_lay (s s' : state) (r : region) (small : bool) : Prop :=
  frame_lay s s'
  ∧ (if small then below_cursor s' r else in_raw s' r)
  ∧ (∀ r0, below_cursor s r0 → region_disjoint r0 r)
  ∧ (∀ r0, in_raw s r0 → region_disjoint r0 r).

(** *** Definitions for the further properties *)

(** What an allocation may do to a block: the block stays where it is and
    its cursor does not move back. *)
Definition block_kept (b b' : ngx_pool_data_t) : Prop :=
  d_self b' = d_self b ∧ d_end b' = d_end b ∧ d_last b <= d_last b'.

(** The test of the search loop: the block has room for [size] bytes at its
    cursor, rounded up for [ngx_palloc]. *)
Definition has_room (aligned : bool) (size : Z) (b : ngx_pool_data_t) : Prop :=
  size <= size_t (d_end b - (if aligned
                             then ngx_align_ptr (d_last b) NGX_ALIGNMENT
                             else d_last b)).

Definition request_aligned (r : request) : bool :=
  match r with Palloc _ => true | Pnalloc _ => false end.


(** The account of the raw allocator: what a trace obtained from it and
    gave back to it (NULL left out: a failed call gives nothing, and
    [free(NULL)] does nothing), and what a pool holds. *)
Definition raw_result (e : event) : option Z :=
  match e with
  | EvMalloc _ p | EvMemalign _ _ p => Some p
  | _ => None
  end.

Definition raw_freed (e : event) : option Z :=
  match e with EvFree p => Some p | _ => None end.

Definition non_null (ps : list Z) : list Z := filter (λ p, p ≠ 0) ps.

Definition obtained (tr : list event) : list Z := non_null (omap raw_result tr).

Definition released (tr : list event) : list Z := non_null (omap raw_freed tr).

Definition held (pool : ngx_pool_t) : list Z :=
  non_null (d_self <$> p_d pool) ++ live_allocs (p_large pool).

Definition keeps_account (s s' : state) : Prop :=
  ∃ evs, st_trace s' = st_trace s ++ evs
         ∧ obtained evs ++ held (st_pool s) ≡ₚ released evs ++ held (st_pool s').

(** The operations a user of a pool has, and a run of them. *)
Inductive pool_op :=
  | OpAlloc (r : request)
  | OpCalloc (size : Z)
  | OpMemalign (size alignment : Z)
  | OpFree (p : Z)
  | OpCleanupAdd (size : Z)
  | OpReset.

Definition run_op (fuel : nat) (o : pool_op) : M unit :=
  match o with
  | OpAlloc r => serve fuel r;; mret ()
  | OpCalloc size => ngx_pcalloc fuel size;; mret ()
  | OpMemalign size alignment => ngx_pmemalign fuel size alignment;; mret ()
  | OpFree p => ngx_pfree p;; mret ()
  | OpCleanupAdd size => ngx_pool_cleanup_add fuel size;; mret ()
  | OpReset => ngx_reset_pool
  end.

Fixpoint run_ops (fuel : nat) (os : list pool_op) : M unit :=
  match os with
  | [] => mret ()
  | o :: os' => run_op fuel o;; run_ops fuel os'
  end.


(** The number of elements of a list. *)
Definition list_total (l : ngx_list_t) : Z := foldr Z.add 0 (list_counts l).


(** What the pool needs of [free], and of the addresses [posix_memalign]
    gives: a chunk stays allocated until its own address is freed, and no
    address is negative. *)
Class RawFreeOk : Prop := {
  free_keeps : ∀ p h c, c ∈ chunks h → c.1 ≠ p → c ∈ chunks (free p h);
  posix_memalign_nonneg : ∀ a n h p h', posix_memalign a n h = (p, h') → 0 <= p
}.


(** The sizes an operation is called with. *)
Definition op_ok (o : pool_op) : Prop :=
  match o with
  | OpAlloc r => 0 <= request_size r
  | OpCalloc size | OpCleanupAdd size => 0 <= size
  | OpMemalign size _ => 0 < size
  | OpFree _ | OpReset => True
  end.

End Specs.

(** * Concrete runs

    The LP64 layout with the [sbrk] allocator, a heap of one megabyte and a
    memory of zero bytes. *)

Section Runs.
#[local] Existing Instance lp64.
#[local] Existing Instance sbrk.

Definition ex_mem : memory := λ _, Byte.x00.

Definition ex_heap : sbrk_heap := mk_sbrk 1048576 [].

Definition ex_none : state := mk_state (mk_pool [] 0 0%nat [] []) ex_heap ex_mem [].

(** The state a computation ends in ([ex_none] when it does not). *)
Definition ex_state {A} (r : option (A * state)) : state :=
  match r with Some (_, s) => s | None => ex_none end.

(** A fresh pool of [size] bytes. *)
Definition ex_pool (size : Z) : state :=
  default ex_none (ngx_create_pool size ex_heap ex_mem).

(** The first block filled to its end, then a request that needs a second
    block, then a reset. *)
Definition ex_full : state := ex_state (ngx_pnalloc 1 944 (ex_pool 1024)).

Definition ex_two_blocks : state := ex_state (ngx_palloc 1 8 ex_full).

Definition ex_reset : state := ex_state (ngx_reset_pool ex_two_blocks).

(** Five large allocations; then the oldest, which the first [malloc]
    returned at 1040, is freed: the fifth record of the chain is empty. *)
Definition ex_five_large : state :=
  ex_state (serve_all 1 (replicate 5 (Palloc 5000)) (ex_pool 1024)).

Definition ex_fifth_empty : state := ex_state (ngx_pfree 1040 ex_five_large).

(** Two cleanups registered in a fresh pool. *)
Definition ex_regs : list (Z * Z) := [(7, 100); (9, 200)].

Definition ex_registered : state := ex_state (register_all 1 ex_regs (ex_pool 1024)).

(** An array of capacity 2 with 4-byte elements, and three pushes. *)
Definition ex_array : ngx_array_t := mk_array 136 0 4 2.

Definition ex_array_state : state := ex_state (ngx_array_create 1 2 4 (ex_pool 1024)).

(** A list with parts of capacity 2 and 8-byte elements, and five pushes. *)
Definition ex_list : ngx_list_t := mk_list [mk_part 152 0] 0%nat 8 2.

Definition ex_list_state : state := ex_state (ngx_list_create 1 2 8 (ex_pool 1024)).

Definition ex_list_pushed : option (list Z * ngx_list_t * state) :=
  list_pushes 1 5 ex_list ex_list_state.

(** Two small requests and a large one. *)
Definition ex_requests : list request := [Palloc 100; Pnalloc 30; Palloc 5000].


(** *** Further runs *)

(** A pool whose cursor is not aligned: three bytes were taken with
    [ngx_pnalloc]. *)
Definition ex_odd : state := ex_state (ngx_pnalloc 1 3 (ex_pool 1024)).

(** A pool of 1024 bytes, its block full, on a raw allocator that ends at
    [limit]. *)
Definition ex_tight (limit : Z) : state :=
  ex_state (ngx_pnalloc 1 944
              (default ex_none (ngx_create_pool 1024 (mk_sbrk limit []) ex_mem))).

(** One large allocation, which [malloc] puts at 1040, and its release. *)
Definition ex_one_large : state := ex_state (ngx_palloc 1 5000 (ex_pool 1024)).

Definition ex_one_freed : state := ex_state (ngx_pfree 1040 ex_one_large).




(** A pool of 88 bytes, whose [max] of 8 is below the size of a record of
    the large chain, on a raw allocator that ends at 1200; a pool made
    with 40 bytes, less than its header. *)
Definition ex_tiny : state :=
  default ex_none (ngx_create_pool 88 (mk_sbrk 1200 []) ex_mem).

Definition ex_below_header : state :=
  default ex_none (ngx_create_pool 40 ex_heap ex_mem).

(** The descriptor of a file cleanup, read from its data: here the data is
    the descriptor. *)
Definition ex_fd : memory → Z → Z := λ _ d, d.

(** An empty array of capacity 0. *)
Definition ex_array0 : ngx_array_t := mk_array 96 0 4 0.

(** Eight requests of 944 bytes, each filling a block of its own. *)
Definition ex_eight_blocks : state :=
  ex_state (serve_all 1 (replicate 8 (Pnalloc 944)) (ex_pool 1024)).

(** The pool after the header of an array was allocated in it. *)
Definition ex_header : state := ex_state (ngx_palloc 1 40 (ex_pool 1024)).

(** The pool of 1024 bytes after the three requests, and the pool of 88
    bytes after two requests of 8 bytes. *)
Definition ex_served : state :=
  ex_state (serve_all 1 ex_requests (ex_pool 1024)).

Definition ex_tiny_served : state :=
  ex_state (serve_all 0 [Palloc 8; Pnalloc 8] ex_tiny).

(** A pool of 1024 bytes in a memory whose bytes are all 0xff, after the
    three requests. *)
Definition ex_dirty : memory := λ _, Byte.xff.

Definition ex_dirty_pool : state :=
  default ex_none (ngx_create_pool 1024 ex_heap ex_dirty).

Definition ex_dirty_served : state :=
  ex_state (serve_all 1 ex_requests ex_dirty_pool).

(** The pool after the three requests and two registrations. *)
Definition ex_served_registered : state :=
  ex_state (register_all 1 ex_regs ex_served).

(** A cleanup registered in a new pool, and the pool reset after that. *)
Definition ex_one_registered : state :=
  ex_state (register 1 (7, 100) (ex_pool 1024)).

Definition ex_registered_reset : state :=
  ex_state (ngx_reset_pool ex_one_registered).

(** A life of a pool in which no cleanup is registered before a reset. *)
Definition ex_ops_pre : list pool_op :=
  [OpAlloc (Palloc 100); OpAlloc (Palloc 5000); OpReset; OpCalloc 6000].

Definition ex_ops_post : list pool_op :=
  [OpMemalign 300 64; OpFree 1040; OpCleanupAdd 16; OpAlloc (Pnalloc 2000);
   OpFree 0; OpAlloc (Palloc 5000)].

Definition ex_accounted : state :=
  ex_state (run_ops 1 (ex_ops_pre ++ ex_ops_post) (ex_pool 1024)).

End Runs.

(** * Properties *)

Section Properties.
Context `{Platform} `{RawAllocator}.

Ltac msimpl :=
  repeat (progress (simpl; unfold mbind, M_bind, mret, M_ret, get_pool, put_pool,
                    emit, ngx_free, ngx_alloc, ngx_memalign; simpl)).

(** ** Teardown and reset *)

Lemma free_larges_run ls s :
  free_larges ls s =
  Some ((), mk_state (st_pool s) (free_all (live_allocs ls) (st_heap s))
              (st_mem s) (st_trace s ++ (EvFree <$> live_allocs ls))).
Proof.
  revert s. induction ls as [|l ls IH]; intros s.
  - destruct s; msimpl. by rewrite app_nil_r.
  - unfold live_allocs. rewrite fmap_cons, filter_cons. simpl.
    unfold mbind, M_bind. destruct (Z.eqb_spec (l_alloc l) 0) as [E|E].
    + rewrite decide_False by tauto. msimpl. apply IH.
    + rewrite decide_True by done. msimpl. rewrite IH. simpl.
      by rewrite <- app_assoc.
Qed.

Lemma run_cleanups_run cs s :
  run_cleanups cs s =
  Some ((), mk_state (st_pool s) (st_heap s) (st_mem s)
              (st_trace s ++ handler_events cs)).
Proof.
  revert s. induction cs as [|c cs IH]; intros s.
  - destruct s; msimpl. by rewrite app_nil_r.
  - unfold handler_events. rewrite filter_cons. simpl.
    unfold mbind, M_bind. destruct (Z.eqb_spec (c_handler c) 0) as [E|E].
    + rewrite decide_False by tauto. msimpl. apply IH.
    + rewrite decide_True by done. msimpl. rewrite IH. simpl.
      by rewrite <- app_assoc.
Qed.

Lemma free_blocks_run bs s :
  free_blocks bs s =
  Some ((), mk_state (st_pool s) (free_all (d_self <$> bs) (st_heap s))
              (st_mem s) (st_trace s ++ (EvFree <$> (d_self <$> bs)))).
Proof.
  revert s. induction bs as [|b bs IH]; intros s.
  - destruct s; msimpl. by rewrite app_nil_r.
  - msimpl. rewrite IH. simpl. by rewrite <- app_assoc.
Qed.

Lemma ngx_destroy_pool_run s :
  ngx_destroy_pool s =
  Some ((), mk_state (st_pool s)
              (free_all (d_self <$> p_d (st_pool s))
                 (free_all (live_allocs (p_large (st_pool s))) (st_heap s)))
              (st_mem s)
              (st_trace s ++ handler_events (p_cleanup (st_pool s))
                 ++ (EvFree <$> (live_allocs (p_large (st_pool s))
                                 ++ (d_self <$> p_d (st_pool s)))))).
Proof.
  unfold ngx_destroy_pool. msimpl.
  rewrite run_cleanups_run. simpl. rewrite free_larges_run. simpl.
  rewrite free_blocks_run. simpl. by rewrite fmap_app, <- !app_assoc.
Qed.

Lemma ngx_reset_pool_run s :
  ngx_reset_pool s =
  Some ((), mk_state
              (set_d (map (λ p, set_last (d_self p + sizeof_ngx_pool_t) p)
                        (p_d (st_pool s)))
                 (set_large [] (st_pool s)))
              (free_all (live_allocs (p_large (st_pool s))) (st_heap s))
              (st_mem s)
              (st_trace s ++ (EvFree <$> live_allocs (p_large (st_pool s))))).
Proof. unfold ngx_reset_pool. msimpl. by rewrite free_larges_run. Qed.

Lemma pfree_scan_none p ls :
  Forall (λ l, l_alloc l ≠ p) ls → pfree_scan p ls = None.
Proof.
  induction 1 as [|l ls Hl _ IH]; simpl; [done|].
  destruct (Z.eqb_spec p (l_alloc l)); [congruence|]. by rewrite IH.
Qed.

(** C8. [ngx_pfree] on a pointer that is the [alloc] of no record of the
    large chain returns [NGX_DECLINED] and changes nothing: the large chain,
    the cleanup chain and every block's cursor are as before. *)
Theorem pfree_unknown_declined (s : state) (p : Z) :
  (∀ l, l ∈ p_large (st_pool s) → l_alloc l ≠ p) →
  ngx_pfree p s = Some (NGX_DECLINED, s).
Proof.
  intros Hp. unfold ngx_pfree. msimpl.
  rewrite pfree_scan_none; [done|]. by apply Forall_forall.
Qed.

(** C5. After [ngx_reset_pool], [ngx_pfree] returns [NGX_DECLINED] for every
    pointer, so for every large pointer handed out before the reset; the
    reset calls [free] only, never a cleanup handler, and leaves the cleanup
    chain as it was. *)
Theorem reset_forgets_large_keeps_cleanup (s : state) (p : Z) :
  ∃ s1 evs,
    ngx_reset_pool s = Some ((), s1)
    ∧ ngx_pfree p s1 = Some (NGX_DECLINED, s1)
    ∧ st_trace s1 = st_trace s ++ evs
    ∧ Forall (λ e, ¬ is_handler_event e) evs
    ∧ p_cleanup (st_pool s1) = p_cleanup (st_pool s).
Proof.
  eexists _, _. split; [apply ngx_reset_pool_run|].
  split; [|split; [reflexivity|split; [|done]]].
  - unfold ngx_pfree. msimpl. done.
  - apply Forall_fmap, Forall_forall. by intros x _ [].
Qed.

(** ** Allocation leaves the cleanup chain alone *)

Lemma alloc_frame_refl s : alloc_frame s s.
Proof.
  repeat split. exists []. by rewrite app_nil_r.
Qed.

Lemma alloc_frame_trans s1 s2 s3 :
  alloc_frame s1 s2 → alloc_frame s2 s3 → alloc_frame s1 s3.
Proof.
  intros (C1 & M1 & Me1 & e1 & T1 & F1) (C2 & M2 & Me2 & e2 & T2 & F2).
  repeat split; try congruence.
  exists (e1 ++ e2). rewrite T2, T1, app_assoc. split; [done|].
  by apply Forall_app.
Qed.

Lemma alloc_frame_step s pool h evs :
  p_cleanup pool = p_cleanup (st_pool s) →
  p_max pool = p_max (st_pool s) →
  Forall (λ e, ¬ is_handler_event e) evs →
  alloc_frame s (mk_state pool h (st_mem s) (st_trace s ++ evs)).
Proof. intros. repeat split; eauto. Qed.

Lemma ngx_palloc_block_frame size s p s' :
  ngx_palloc_block size s = Some (p, s') → alloc_frame s s'.
Proof.
  unfold ngx_palloc_block. msimpl.
  destruct (posix_memalign _ _ _) as [m h].
  destruct (m =? 0); msimpl.
  - intros [= <- <-]. apply alloc_frame_step; auto.
  - destruct (failed_walk _ _ _) as [walked current]. msimpl.
    intros [= <- <-]. apply alloc_frame_step; auto.
Qed.

Lemma pool_small_frame aligned size s p s' :
  pool_small aligned size s = Some (p, s') → alloc_frame s s'.
Proof.
  unfold pool_small. msimpl.
  destruct (pool_scan _ _ _) as [[m bs]|]; msimpl.
  - intros [= <- <-]. destruct s as [pool h m' t]; simpl.
    replace t with (t ++ []) at 2 by apply app_nil_r.
    by apply (alloc_frame_step (mk_state pool h m' t)).
  - apply ngx_palloc_block_frame.
Qed.

Lemma ngx_palloc_large_frame (palloc : Z → M Z) size s p s' :
  (∀ sz s p s', palloc sz s = Some (p, s') → alloc_frame s s') →
  ngx_palloc_large palloc size s = Some (p, s') → alloc_frame s s'.
Proof.
  intros Hrec. unfold ngx_palloc_large. msimpl.
  destruct (malloc _ _) as [q h].
  destruct (q =? 0); msimpl.
  - intros [= <- <-]. apply alloc_frame_step; auto.
  - destruct (large_scan _ _ _) as [ls|]; msimpl.
    + intros [= <- <-]. apply alloc_frame_step; auto.
    + destruct (palloc _ _) as [[large s1]|] eqn:E; [|done].
      apply Hrec in E.
      assert (alloc_frame s (mk_state (st_pool s) h (st_mem s)
                (st_trace s ++ [EvMalloc size q]))) as F0
        by (apply alloc_frame_step; auto).
      pose proof (alloc_frame_trans _ _ _ F0 E) as F1.
      destruct (large =? 0); msimpl; intros [= <- <-];
        (eapply alloc_frame_trans; [exact F1|]);
        destruct s1 as [pool1 h1 m1 t1]; simpl.
      * apply (alloc_frame_step (mk_state pool1 h1 m1 t1)); auto.
      * replace t1 with (t1 ++ []) at 2 by apply app_nil_r.
        apply (alloc_frame_step (mk_state pool1 h1 m1 t1)); auto.
Qed.

Lemma ngx_palloc_frame fuel size s p s' :
  ngx_palloc fuel size s = Some (p, s') → alloc_frame s s'.
Proof.
  revert size s p s'. induction fuel as [|fuel IH]; intros size s p s'; simpl.
  - destruct (size <=? _); [apply pool_small_frame|done].
  - destruct (size <=? _); [apply pool_small_frame|].
    apply ngx_palloc_large_frame, IH.
Qed.

(** ** Cleanup registration and teardown order *)

Lemma ngx_pool_cleanup_add_head fuel size s c s' :
  ngx_pool_cleanup_add fuel size s = Some (c, s') → c ≠ 0 →
  ∃ data, p_cleanup (st_pool s') = mk_cleanup c 0 data :: p_cleanup (st_pool s).
Proof.
  unfold ngx_pool_cleanup_add. unfold mbind at 1, M_bind at 1.
  destruct (ngx_palloc fuel _ s) as [[c0 s0]|] eqn:E0; [|done].
  apply ngx_palloc_frame in E0 as (C0 & _).
  destruct (Z.eqb_spec c0 0) as [->|N0]; [by intros [= <- <-]|].
  unfold mbind at 1, M_bind at 1.
  destruct (Z.eqb_spec size 0) as [->|Ns]; msimpl.
  - intros [= <- <-] _. exists 0. simpl. by rewrite C0.
  - destruct (ngx_palloc fuel size s0) as [[d1 s1]|] eqn:E1; [|done].
    apply ngx_palloc_frame in E1 as (C1 & _).
    destruct (d1 =? 0); msimpl; intros [= <- <-]; [done|].
    intros _. exists d1. simpl. by rewrite C1, C0.
Qed.

Lemma register_head fuel r s c s' :
  register fuel r s = Some (c, s') → c ≠ 0 →
  p_cleanup (st_pool s') = mk_cleanup c r.1 r.2 :: p_cleanup (st_pool s).
Proof.
  unfold register. unfold mbind at 1, M_bind at 1.
  destruct (ngx_pool_cleanup_add fuel 0 s) as [[c0 s0]|] eqn:E0; [|done].
  destruct (Z.eqb_spec c0 0) as [->|N0]; [by intros [= <- <-]|].
  apply ngx_pool_cleanup_add_head in E0 as [data E0]; [|done].
  unfold cleanup_set. msimpl. intros [= <- <-] _. simpl.
  rewrite E0. simpl. by rewrite Z.eqb_refl.
Qed.

Lemma register_all_chain fuel regs s cs s' :
  register_all fuel regs s = Some (cs, s') →
  Forall (λ c, c ≠ 0) cs →
  length cs = length regs
  ∧ p_cleanup (st_pool s') =
      reverse (zip_with (λ c r, mk_cleanup c r.1 r.2) cs regs)
        ++ p_cleanup (st_pool s).
Proof.
  revert s cs s'. induction regs as [|r regs IH]; intros s cs s'; simpl.
  - intros [= <- <-] _. done.
  - unfold mbind at 1, M_bind at 1.
    destruct (register fuel r s) as [[c s0]|] eqn:E0; [|done].
    unfold mbind at 1, M_bind at 1.
    destruct (register_all fuel regs s0) as [[cs0 s1]|] eqn:E1; [|done].
    intros [= <- <-] Hcs. apply Forall_cons in Hcs as [Hc Hcs].
    apply IH in E1 as [Hlen E1]; [|done].
    apply register_head in E0; [|done].
    split; [simpl; by rewrite Hlen|].
    rewrite E1, E0. simpl. rewrite reverse_cons, <- app_assoc. done.
Qed.

Lemma handler_events_app cs1 cs2 :
  handler_events (cs1 ++ cs2) = handler_events cs1 ++ handler_events cs2.
Proof. unfold handler_events. by rewrite filter_app, fmap_app. Qed.

Lemma handler_events_registered cs regs :
  length cs = length regs →
  Forall (λ r : Z * Z, r.1 ≠ 0) regs →
  handler_events (zip_with (λ c r, mk_cleanup c r.1 r.2) cs regs)
  = (λ r, EvHandler r.1 r.2) <$> regs.
Proof.
  revert cs. induction regs as [|r regs IH]; intros [|c cs]; simpl; try done.
  intros [= Hlen] Hr. apply Forall_cons in Hr as [Hr Hrs].
  unfold handler_events in *. rewrite filter_cons. simpl.
  rewrite decide_True by done. simpl. f_equal. by apply IH.
Qed.

Lemma handler_events_reverse cs :
  handler_events (reverse cs) = reverse (handler_events cs).
Proof.
  induction cs as [|c cs IH]; [done|].
  rewrite reverse_cons, handler_events_app, IH.
  change (c :: cs) with ([c] ++ cs).
  rewrite handler_events_app, reverse_app. f_equal.
  unfold handler_events. rewrite filter_cons.
  by destruct (decide (c_handler c ≠ 0)).
Qed.

(** The handlers of a run of registrations, as [ngx_destroy_pool] calls
    them: in the reverse of their registration order, followed by those of
    the records that were in the chain before, and then the frees. *)
Lemma register_all_destroy_trace (fuel : nat) (regs : list (Z * Z))
    (s s1 : state) (cs : list Z) :
  register_all fuel regs s = Some (cs, s1) →
  Forall (λ c, c ≠ 0) cs →
  Forall (λ r : Z * Z, r.1 ≠ 0) regs →
  ∃ s2,
    ngx_destroy_pool s1 = Some ((), s2)
    ∧ st_trace s2 =
        st_trace s1
          ++ ((λ r, EvHandler r.1 r.2) <$> reverse regs)
          ++ handler_events (p_cleanup (st_pool s))
          ++ (EvFree <$> (live_allocs (p_large (st_pool s1))
                          ++ (d_self <$> p_d (st_pool s1)))).
Proof.
  intros Hrun Hcs Hregs.
  apply register_all_chain in Hrun as [Hlen Hchain]; [|done].
  eexists. split; [apply ngx_destroy_pool_run|]. simpl.
  rewrite Hchain, handler_events_app, handler_events_reverse.
  rewrite handler_events_registered by done.
  by rewrite fmap_reverse, <- app_assoc.
Qed.

(** ** Lists *)

Lemma size_t_small `{!PlatformOk} x : 0 <= x < 2 ^ 16 → size_t x = x.
Proof.
  intros Hx. unfold size_t. apply Z.mod_small.
  pose proof word_bits_min.
  assert (2 ^ 16 <= 2 ^ word_bits) by (apply Z.pow_le_mono_r; lia). lia.
Qed.

Lemma ngx_list_create_wf fuel n size s l s' :
  ngx_list_create fuel n size s = Some (Some l, s') →
  list_wf l ∧ list_counts l = [0] ∧ l_nalloc l = n ∧ l_size l = size.
Proof.
  unfold ngx_list_create. unfold mbind at 1, M_bind at 1.
  destruct (ngx_palloc fuel _ s) as [[a s0]|]; [|done].
  destruct (a =? 0); [done|]. unfold mbind at 1, M_bind at 1.
  destruct (ngx_palloc fuel _ s0) as [[e s1]|]; [|done].
  destruct (e =? 0); [done|]. intros [= <- <-].
  repeat split; simpl; auto.
Qed.

(** One call of [ngx_list_push]: either it returns NULL and the list is as
    before, or the tail part was full and a part holding one element is
    linked behind it, or the tail part gets one more element. *)
Lemma ngx_list_push_cases fuel l s e l' s' :
  list_wf l →
  ngx_list_push fuel l s = Some (e, l', s') →
  (e = 0 ∧ l' = l)
  ∨ ∃ front last,
      l_parts l = front ++ [last] ∧ l_last l = length front
      ∧ ((part_nelts last = l_nalloc l
          ∧ ∃ elts, l' = mk_list (l_parts l ++ [mk_part elts (size_t (0 + 1))])
                           (S (l_last l)) (l_size l) (l_nalloc l))
         ∨ (part_nelts last ≠ l_nalloc l
            ∧ l' = mk_list (front ++ [mk_part (part_elts last)
                                        (size_t (part_nelts last + 1))])
                     (l_last l) (l_size l) (l_nalloc l))).
Proof.
  intros [Hlast Hfull]. unfold ngx_list_push.
  destruct (l_parts l !! l_last l) as [last|] eqn:Elast.
  2: { apply lookup_ge_None in Elast. lia. }
  assert (l_parts l = take (l_last l) (l_parts l) ++ [last]) as Hsplit.
  { rewrite <- (take_drop (l_last l) (l_parts l)) at 1. f_equal.
    rewrite (drop_S _ last) by done. rewrite drop_ge by lia. done. }
  assert (l_last l = length (take (l_last l) (l_parts l))) as Hlen.
  { rewrite length_take. lia. }
  destruct (Z.eqb_spec (part_nelts last) (l_nalloc l)) as [Heq|Hne].
  - unfold mbind at 1, M_bind at 1.
    destruct (ngx_palloc fuel _ s) as [[part s0]|]; [|done].
    destruct (part =? 0); [intros [= <- <- <-]; by left|].
    unfold mbind at 1, M_bind at 1.
    destruct (ngx_palloc fuel _ s0) as [[elts s1]|]; [|done].
    destruct (elts =? 0); [intros [= <- <- <-]; by left|].
    intros [= <- <- <-]. right. eexists _, last. split; [exact Hsplit|].
    split; [exact Hlen|]. left. split; [done|]. exists elts.
    rewrite Hlast, firstn_all. done.
  - intros [= <- <- <-]. right. eexists _, last. split; [exact Hsplit|].
    split; [exact Hlen|]. right. split; [done|]. f_equal.
    rewrite Hsplit at 1. rewrite Hlen at 1.
    rewrite insert_app_r_alt by lia. rewrite Nat.sub_diag. done.
Qed.

Lemma ngx_list_push_wf fuel l s e l' s' :
  list_wf l →
  ngx_list_push fuel l s = Some (e, l', s') →
  list_wf l' ∧ l_nalloc l' = l_nalloc l.
Proof.
  intros Hwf Hpush. pose proof Hwf as [Hlast Hfull].
  destruct (ngx_list_push_cases _ _ _ _ _ _ Hwf Hpush)
    as [[_ ->]|(front & last & Hsplit & Hlen & [[Heq [elts ->]]|[Hne ->]])];
    [done| |]; (split; [|done]); split; simpl.
  - rewrite length_app. simpl. lia.
  - rewrite Hlast, take_app_length. rewrite Hsplit in *.
    rewrite Hlen, take_app_length in Hfull.
    apply Forall_app. split; [done|]. by apply Forall_singleton.
  - rewrite Hsplit, !length_app in *. simpl in *. lia.
  - rewrite Hsplit, Hlen, take_app_length in Hfull.
    by rewrite Hlen, take_app_length.
Qed.

Lemma list_pushes_S fuel k l s es l' s' :
  list_pushes fuel (S k) l s = Some (es, l', s') →
  ∃ e l1 s1 es1,
    ngx_list_push fuel l s = Some (e, l1, s1)
    ∧ list_pushes fuel k l1 s1 = Some (es1, l', s')
    ∧ es = e :: es1.
Proof.
  simpl. unfold mbind at 1, M_bind at 1.
  destruct (ngx_list_push fuel l s) as [[[e l1] s1]|]; [|done].
  unfold mbind at 1, M_bind at 1.
  destruct (list_pushes fuel k l1 s1) as [[[es2 l2] s2]|] eqn:E; [|done].
  intros [= <- <- <-]. by eexists _, _, _, _.
Qed.

Lemma list_pushes_wf fuel k l s es l' s' :
  list_wf l →
  list_pushes fuel k l s = Some (es, l', s') →
  list_wf l' ∧ l_nalloc l' = l_nalloc l.
Proof.
  revert l s es l' s'. induction k as [|k IH]; intros l s es l' s' Hwf; simpl.
  - by intros [= <- <- <-].
  - unfold mbind at 1, M_bind at 1.
    destruct (ngx_list_push fuel l s) as [[[e l1] s1]|] eqn:E1; [|done].
    unfold mbind at 1, M_bind at 1.
    destruct (list_pushes fuel k l1 s1) as [[[es2 l2] s2]|] eqn:E2; [|done].
    intros [= <- <- <-].
    apply ngx_list_push_wf in E1 as [Hwf1 Hn1]; [|done].
    apply IH in E2 as [Hwf2 Hn2]; [|done]. split; [done|congruence].
Qed.

(** A push that does not return NULL, on a list whose tail part holds [c]
    elements. *)
Lemma ngx_list_push_counts fuel l s e l' s' front c :
  list_wf l →
  ngx_list_push fuel l s = Some (e, l', s') →
  e ≠ 0 →
  list_counts l = front ++ [c] →
  list_counts l' =
    if decide (c = l_nalloc l) then front ++ [c; size_t (0 + 1)]
    else front ++ [size_t (c + 1)].
Proof.
  intros Hwf Hpush He Hc.
  destruct (ngx_list_push_cases _ _ _ _ _ _ Hwf Hpush)
    as [[-> _]|(fr & last & Hsplit & Hlen & Hcase)]; [done|].
  unfold list_counts in *. rewrite Hsplit, fmap_app in Hc. simpl in Hc.
  apply app_inj_tail in Hc as [Hfr Hl].
  destruct Hcase as [[Heq [elts ->]]|[Hne ->]]; simpl.
  - rewrite decide_True by congruence.
    rewrite Hsplit, !fmap_app, <- app_assoc. simpl. by rewrite Hfr, Hl.
  - rewrite decide_False by congruence.
    rewrite fmap_app. simpl. by rewrite Hfr, Hl.
Qed.

(** C10. After [ngx_list_create] and any number of [ngx_list_push] calls,
    every part but the last holds exactly [nalloc] elements. With [nalloc]
    2, five calls that all return an element give three parts holding 2, 2
    and 1 elements, in traversal order. *)
Theorem list_parts_full_but_last `{!PlatformOk} (fuel : nat) (n size : Z)
    (k : nat) (s s0 s' : state) (l l' : ngx_list_t) (es : list Z) :
  ngx_list_create fuel n size s = Some (Some l, s0) →
  list_pushes fuel k l s0 = Some (es, l', s') →
  Forall (λ p, part_nelts p = n) (take (length (l_parts l') - 1) (l_parts l'))
  ∧ (n = 2 → k = 5%nat → Forall (λ e, e ≠ 0) es →
     list_counts l' = [2; 2; 1] ∧ foldr Z.add 0 (list_counts l') = 5).
Proof.
  intros Hcreate Hpush.
  apply ngx_list_create_wf in Hcreate as (Hwf & Hc0 & Hn & _).
  split.
  - apply list_pushes_wf in Hpush as [[Hlast Hfull] Hn']; [|done].
    rewrite <- Hlast. simpl. rewrite Nat.sub_0_r.
    rewrite Hn', Hn in Hfull. exact Hfull.
  - intros -> -> Hes.
    apply list_pushes_S in Hpush as (e1 & l1 & s1 & es1 & E & Hpush & ->).
    apply list_pushes_S in Hpush as (e2 & l2 & s2 & es2 & E0 & Hpush & ->).
    apply list_pushes_S in Hpush as (e3 & l3 & s3 & es3 & E1 & Hpush & ->).
    apply list_pushes_S in Hpush as (e4 & l4 & s4 & es4 & E2 & Hpush & ->).
    apply list_pushes_S in Hpush as (e5 & l5 & s5 & es5 & E3 & Hpush & ->).
    injection Hpush as <- <- <-.
    repeat match goal with
    | H : Forall _ (_ :: _) |- _ => apply Forall_cons in H as [? H]
    end.
    assert (size_t (0 + 1) = 1) as S1 by (by apply size_t_small).
    assert (size_t (1 + 1) = 2) as S2 by (by apply size_t_small).
    pose proof (ngx_list_push_wf _ _ _ _ _ _ Hwf E) as [Hwf1 Hn1].
    pose proof (ngx_list_push_wf _ _ _ _ _ _ Hwf1 E0) as [Hwf2 Hn2].
    pose proof (ngx_list_push_wf _ _ _ _ _ _ Hwf2 E1) as [Hwf3 Hn3].
    pose proof (ngx_list_push_wf _ _ _ _ _ _ Hwf3 E2) as [Hwf4 Hn4].
    pose proof (ngx_list_push_counts _ _ _ _ _ _ [] 0 Hwf E) as C1.
    rewrite Hn, decide_False, S1 in C1 by lia.
    specialize (C1 ltac:(done) Hc0). simpl in C1.
    pose proof (ngx_list_push_counts _ _ _ _ _ _ [] 1 Hwf1 E0) as C2.
    rewrite Hn1, Hn, decide_False, S2 in C2 by lia.
    specialize (C2 ltac:(done) C1). simpl in C2.
    pose proof (ngx_list_push_counts _ _ _ _ _ _ [] 2 Hwf2 E1) as C3.
    rewrite Hn2, Hn1, Hn, decide_True, S1 in C3 by lia.
    specialize (C3 ltac:(done) C2). simpl in C3.
    pose proof (ngx_list_push_counts _ _ _ _ _ _ [2] 1 Hwf3 E2) as C4.
    rewrite Hn3, Hn2, Hn1, Hn, decide_False, S2 in C4 by lia.
    specialize (C4 ltac:(done) C3). simpl in C4.
    pose proof (ngx_list_push_counts _ _ _ _ _ _ [2] 2 Hwf4 E3) as C5.
    rewrite Hn4, Hn3, Hn2, Hn1, Hn, decide_True, S1 in C5 by lia.
    specialize (C5 ltac:(done) C4). simpl in C5.
    rewrite C5. done.
Qed.

(** ** The chain search advances a cursor and never calls malloc *)

Lemma pool_scan_cursor aligned size bs m bs' :
  pool_scan aligned size bs = Some (m, bs') →
  ∃ b, b ∈ bs' ∧ d_last b = m + size.
Proof.
  revert m bs'. induction bs as [|p rest IH]; intros m bs'; simpl; [done|].
  destruct (size <=? _).
  - intros [= <- <-]. eexists. split; [apply list_elem_of_here|done].
  - destruct (pool_scan aligned size rest) as [[m' rest']|]; [|done].
    intros [= <- <-]. destruct (IH _ _ eq_refl) as (b & Hb & Hl).
    exists b. split; [by apply list_elem_of_further|done].
Qed.

Lemma pool_small_bump aligned size s p s' :
  pool_small aligned size s = Some (p, s') →
  p_large (st_pool s') = p_large (st_pool s)
  ∧ (∃ evs, st_trace s' = st_trace s ++ evs
            ∧ Forall (λ e, ¬ is_malloc_event e) evs)
  ∧ (p ≠ 0 → ∃ b, b ∈ p_d (st_pool s') ∧ d_last b = p + size).
Proof.
  unfold pool_small. msimpl.
  destruct (pool_scan _ _ _) as [[m bs]|] eqn:E; msimpl.
  - intros [= <- <-]. simpl. split; [done|]. split.
    + exists []. by rewrite app_nil_r.
    + intros _. apply pool_scan_cursor in E as (b & Hb & Hl).
      exists b. split; [|done]. apply elem_of_app. by right.
  - unfold ngx_palloc_block. msimpl.
    destruct (posix_memalign _ _ _) as [m h].
    destruct (Z.eqb_spec m 0) as [->|Hm]; msimpl.
    + intros [= <- <-]. simpl. split; [done|]. split; [|done].
      eexists. split; [done|]. apply Forall_singleton. simpl. tauto.
    + destruct (failed_walk _ _ _) as [walked current]. msimpl.
      intros [= <- <-]. simpl. split; [done|]. split.
      * eexists. split; [done|]. apply Forall_singleton. simpl. tauto.
      * intros _. eexists. split.
        -- rewrite !elem_of_app. right. right. apply list_elem_of_here.
        -- reflexivity.
Qed.

Lemma ngx_palloc_small fuel size s :
  size <= p_max (st_pool s) →
  ngx_palloc fuel size s = pool_small true size s.
Proof.
  intros Hle. destruct fuel; simpl;
    (destruct (Z.leb_spec size (p_max (st_pool s))); [done|lia]).
Qed.

(** ** Arrays *)



(** ** Block growth and the search start *)

Lemma failed_walk_blocks i bs cand :
  (failed_walk i bs cand).1
  = (count_failure <$> take (length bs - 1) bs) ++ drop (length bs - 1) bs.
Proof.
  revert i cand. induction bs as [|p [|q rest] IH]; intros i cand; try done.
  specialize (IH (S i) (if 4 <? d_failed p then Some (S i) else cand)).
  change (failed_walk i (p :: q :: rest) cand) with
    (let '(rest', c) := failed_walk (S i) (q :: rest)
                          (if 4 <? d_failed p then Some (S i) else cand) in
     (count_failure p :: rest', c)).
  destruct (failed_walk (S i) (q :: rest) _) as [rest' c]. simpl in *.
  rewrite IH. by rewrite Nat.sub_0_r.
Qed.

Lemma failed_walk_candidate i bs cand :
  let c := (failed_walk i bs cand).2 in
  (∃ j b, (S j < length bs)%nat ∧ bs !! j = Some b ∧ 4 < d_failed b
          ∧ c = Some (S (i + j))
          ∧ ∀ j' b', (j < j')%nat → (S j' < length bs)%nat →
                     bs !! j' = Some b' → d_failed b' <= 4)
  ∨ ((∀ j b, (S j < length bs)%nat → bs !! j = Some b → d_failed b <= 4)
     ∧ c = cand).
Proof.
  revert i cand. induction bs as [|p [|q rest] IH]; intros i cand.
  - right. split; [|done]. intros j b Hj. simpl in Hj. lia.
  - right. split; [|done]. intros j b Hj. simpl in Hj. lia.
  - specialize (IH (S i) (if 4 <? d_failed p then Some (S i) else cand)).
    change (failed_walk i (p :: q :: rest) cand) with
      (let '(rest', c) := failed_walk (S i) (q :: rest)
                            (if 4 <? d_failed p then Some (S i) else cand) in
       (count_failure p :: rest', c)).
    destruct (failed_walk (S i) (q :: rest) _) as [rest' c]. simpl in IH. simpl.
    destruct IH as [(j & b & Hj & Hb & Hf & -> & Hlater)|[Hnone ->]].
    + left. exists (S j), b. split_and!; [lia|done|done|f_equal; lia|].
      intros [|j'] b' ? ? Hb'; [lia|]. apply (Hlater j' b'); [lia|lia|done].
    + destruct (Z.ltb_spec 4 (d_failed p)) as [Hp|Hp].
      * left. exists 0%nat, p. split_and!; [lia|done|done|f_equal; lia|].
        intros [|j'] b' ? ? Hb'; [lia|]. apply (Hnone j' b'); [lia|done].
      * right. split; [|done]. intros [|j] b ? Hb.
        -- injection Hb as <-. done.
        -- apply (Hnone j b); [lia|done].
Qed.

(** C7, as the code has it. When [ngx_palloc_block] gets its block, it
    walks the chain from [pool->current] and counts a failure against every
    block that has a successor (the tail of the old chain is not counted);
    the new block is linked behind the tail. The candidate for
    [pool->current] starts as the old [pool->current] and moves to the
    successor of every walked block whose counter was above 4 before the
    increment. So [pool->current] becomes the successor of the last such
    block, and stays as it was when there is none; the new block is never
    chosen. *)
Theorem palloc_block_moves_current (size : Z) (s : state) (m : Z) (h' : heap) :
  posix_memalign NGX_POOL_ALIGNMENT (pool_psize (st_pool s)) (st_heap s) = (m, h') →
  m ≠ 0 →
  (p_current (st_pool s) < length (p_d (st_pool s)))%nat →
  let bs := p_d (st_pool s) in
  let cur := p_current (st_pool s) in
  ∃ p s' new,
    ngx_palloc_block size s = Some (p, s')
    ∧ d_self new = m ∧ d_failed new = 0
    ∧ length (p_d (st_pool s')) = S (length bs)
    ∧ p_d (st_pool s') !! length bs = Some new
    ∧ (∀ j b, bs !! j = Some b →
         p_d (st_pool s') !! j =
           Some (if decide (cur ≤ j ∧ S j < length bs)%nat
                 then count_failure b else b))
    ∧ ((∃ j b, (cur ≤ j)%nat ∧ (S j < length bs)%nat ∧ bs !! j = Some b
               ∧ 4 < d_failed b
               ∧ p_current (st_pool s') = S j
               ∧ ∀ j' b', (j < j')%nat → (S j' < length bs)%nat →
                          bs !! j' = Some b' → d_failed b' <= 4)
       ∨ ((∀ j b, (cur ≤ j)%nat → (S j < length bs)%nat → bs !! j = Some b →
                  d_failed b <= 4)
          ∧ p_current (st_pool s') = cur))
    ∧ (p_current (st_pool s') < length bs)%nat.
Proof.
  intros Hm Hm0 Hcur bs cur.
  unfold ngx_palloc_block. msimpl. rewrite Hm.
  destruct (Z.eqb_spec m 0) as [|_]; [done|].
  pose proof (failed_walk_blocks cur (drop cur bs) (Some cur)) as Hw.
  pose proof (failed_walk_candidate cur (drop cur bs) (Some cur)) as Hc.
  fold bs cur. destruct (failed_walk cur (drop cur bs) (Some cur)) as [walked c].
  simpl in Hw, Hc. msimpl.
  set (new := mk_data m _ _ 0).
  assert (length (drop cur bs) = (length bs - cur)%nat) as Hld by apply length_drop.
  assert (length walked = (length bs - cur)%nat) as Hlw.
  { rewrite Hw, length_app, length_fmap, length_take, !length_drop. lia. }
  assert (length (take cur bs ++ walked) = length bs) as Hlen.
  { rewrite length_app, length_take, Hlw. lia. }
  eexists _, _, new. split; [reflexivity|]. simpl.
  split_and!; try done.
  - rewrite app_assoc, length_app, Hlen. simpl. lia.
  - rewrite app_assoc, lookup_app_r by lia. by rewrite Hlen, Nat.sub_diag.
  - intros j b Hb. pose proof (lookup_lt_Some _ _ _ Hb) as Hj.
    rewrite app_assoc, lookup_app_l by lia.
    destruct (decide (j < cur)%nat) as [Hlt|Hge].
    + rewrite lookup_app_l by (rewrite length_take; lia).
      rewrite lookup_take_lt by done. rewrite decide_False by lia. done.
    + rewrite lookup_app_r by (rewrite length_take; lia).
      rewrite length_take, Nat.min_l by lia. rewrite Hw, Hld.
      destruct (decide (S j < length bs)%nat) as [Hs|Hs].
      * rewrite decide_True by lia.
        rewrite lookup_app_l by (rewrite length_fmap, length_take, Hld; lia).
        rewrite list_lookup_fmap, lookup_take_lt by lia.
        rewrite lookup_drop. replace (cur + (j - cur))%nat with j by lia.
        by rewrite Hb.
      * rewrite decide_False by lia.
        rewrite lookup_app_r by (rewrite length_fmap, length_take, Hld; lia).
        rewrite length_fmap, length_take, Hld, !lookup_drop.
        replace (cur + _)%nat with j by lia. done.
  - destruct Hc as [(j & b & Hj & Hb & Hf & -> & Hlater)|[Hnone ->]]; simpl.
    + left. exists (cur + j)%nat, b. rewrite lookup_drop in Hb.
      split_and!; try done; [lia|lia|].
      intros j' b' ? ? Hb'. apply (Hlater (j' - cur)%nat b'); [lia|lia|].
      rewrite lookup_drop. by replace (cur + (j' - cur))%nat with j' by lia.
    + right. split; [|done]. intros j b ? ? Hb.
      apply (Hnone (j - cur)%nat b); [lia|].
      rewrite lookup_drop. by replace (cur + (j - cur))%nat with j by lia.
  - destruct Hc as [(j & b & Hj & Hb & Hf & -> & Hlater)|[Hnone ->]]; simpl.
    + rewrite Hld in Hj. lia.
    + exact Hcur.
Qed.

(** ** Registration of large allocations *)

Lemma first_empty_Some ls i :
  first_empty ls = Some i ↔
  (∃ l, ls !! i = Some l ∧ l_alloc l = 0)
  ∧ ∀ j l', (j < i)%nat → ls !! j = Some l' → l_alloc l' ≠ 0.
Proof.
  revert i. induction ls as [|l rest IH]; intros i; simpl.
  - split; [done|]. by intros [(l & Hl & _) _].
  - destruct (Z.eqb_spec (l_alloc l) 0) as [E|E].
    + split.
      * intros [= <-]. split; [by exists l|]. intros j l' Hj. lia.
      * intros [_ Hbefore]. destruct i as [|i]; [done|].
        by destruct (Hbefore 0%nat l ltac:(lia) eq_refl).
    + split.
      * destruct (first_empty rest) as [i'|]; [|done].
        intros [= <-]. destruct (IH i') as [[Hi Hbefore] _]; [done|].
        split; [done|].
        intros [|j] l' Hj Hl; [by injection Hl as <-|].
        apply (Hbefore j l'); [lia|done].
      * intros [(l0 & Hl0 & Hz) Hbefore]. destruct i as [|i].
        { injection Hl0 as <-. done. }
        assert (first_empty rest = Some i) as ->; [|done].
        apply IH. split; [by exists l0|].
        intros j l' Hj Hl. apply (Hbefore (S j) l'); [lia|done].
Qed.

Lemma first_empty_None ls :
  first_empty ls = None ↔ ∀ j l, ls !! j = Some l → l_alloc l ≠ 0.
Proof.
  induction ls as [|l rest IH]; simpl.
  - split; [by intros _ j l|done].
  - destruct (Z.eqb_spec (l_alloc l) 0) as [E|E].
    + split; [done|]. intros Hall. by destruct (Hall 0%nat l eq_refl).
    + split.
      * destruct (first_empty rest) as [i|]; [done|].
        intros _ [|j] l' Hl; [by injection Hl as <-|].
        destruct IH as [IH _]. by apply (IH eq_refl j l').
      * intros Hall. assert (first_empty rest = None) as ->; [|done].
        apply IH. intros j l' Hl. by apply (Hall (S j) l').
Qed.

(** The scan of [ngx_palloc_large] looks at [k] records when it starts with
    [n = 5 - k]: the test [n++ > 3] ends it after the fifth. *)
Lemma large_scan_first_empty p (k : nat) ls :
  (1 ≤ k ≤ 5)%nat →
  large_scan p (5 - Z.of_nat k) ls
  = (λ i, alter (set_alloc p) i ls) <$> first_empty (take k ls).
Proof.
  revert k. induction ls as [|l rest IH]; intros k Hk.
  - by rewrite take_nil.
  - destruct k as [|k]; [lia|]. simpl.
    destruct (Z.eqb_spec (l_alloc l) 0) as [E|E]; [done|].
    destruct (Z.ltb_spec 3 (5 - Z.of_nat (S k))) as [Hbreak|Hgo].
    + assert (k = 0%nat) as -> by lia. by rewrite take_0.
    + replace (5 - Z.of_nat (S k) + 1) with (5 - Z.of_nat k) by lia.
      rewrite IH by lia. by destruct (first_empty (take k rest)).
Qed.

Lemma ngx_palloc_large_run (palloc : Z → M Z) size s q h' :
  malloc size (st_heap s) = (q, h') →
  q ≠ 0 →
  ngx_palloc_large palloc size s =
  let ls := p_large (st_pool s) in
  let s0 := mk_state (st_pool s) h' (st_mem s) (st_trace s ++ [EvMalloc size q]) in
  match first_empty (take 5 ls) with
  | Some i =>
      Some (q, mk_state (set_large (alter (set_alloc q) i ls) (st_pool s))
                 h' (st_mem s) (st_trace s ++ [EvMalloc size q]))
  | None =>
      match palloc sizeof_ngx_pool_large_t s0 with
      | Some (r, s1) =>
          if r =? 0
          then Some (0, mk_state (st_pool s1) (free q (st_heap s1)) (st_mem s1)
                          (st_trace s1 ++ [EvFree q]))
          else Some (q, mk_state
                          (set_large (mk_large r q :: p_large (st_pool s1))
                             (st_pool s1))
                          (st_heap s1) (st_mem s1) (st_trace s1))
      | None => None
      end
  end.
Proof.
  intros Hq Hq0. unfold ngx_palloc_large.
  unfold mbind at 1, M_bind at 1, ngx_alloc at 1. rewrite Hq.
  destruct (Z.eqb_spec q 0) as [|_]; [done|].
  unfold mbind at 1, M_bind at 1, get_pool at 1. simpl.
  pose proof (large_scan_first_empty q 5 (p_large (st_pool s)) ltac:(lia)) as Hscan.
  change (5 - Z.of_nat 5) with 0 in Hscan. rewrite Hscan. clear Hscan.
  destruct (first_empty _) as [i|]; simpl; [done|].
  unfold mbind at 1, M_bind at 1.
  destruct (palloc _ _) as [[r s1]|]; [|done].
  by destruct (r =? 0).
Qed.

Lemma pool_small_total aligned size s : is_Some (pool_small aligned size s).
Proof.
  unfold pool_small. msimpl.
  destruct (pool_scan _ _ _) as [[? ?]|]; [done|].
  unfold ngx_palloc_block. msimpl.
  destruct (posix_memalign _ _ _) as [m h1].
  destruct (m =? 0); msimpl; [done|].
  by destruct (failed_walk _ _ _).
Qed.

(** X26. How [ngx_palloc_large] registers the buffer [q] it got from
    [malloc], in a pool whose [max] covers a record of the large chain. It
    looks at the records of the large chain from the head, five of them at
    most. The first one among these five whose slot is empty takes [q], and
    nothing else changes. When none of the first five is empty, a record is
    taken from the block chain: when that gives the address [r], the record
    at [r] holding [q] is linked at the head; when it gives NULL, [q] is
    handed back to [free] and NULL is returned with the large chain as it
    was. *)
Theorem palloc_large_registers (fuel : nat) (size : Z) (s : state) (q : Z) (h' : heap) :
  malloc size (st_heap s) = (q, h') →
  q ≠ 0 →
  sizeof_ngx_pool_large_t <= p_max (st_pool s) →
  let ls := p_large (st_pool s) in
  let s0 := mk_state (st_pool s) h' (st_mem s) (st_trace s ++ [EvMalloc size q]) in
  (∀ i l, (i < 5)%nat → ls !! i = Some l → l_alloc l = 0 →
     (∀ j l', (j < i)%nat → ls !! j = Some l' → l_alloc l' ≠ 0) →
     ngx_palloc_large (ngx_palloc fuel) size s
     = Some (q, mk_state (set_large (<[i := set_alloc q l]> ls) (st_pool s))
                  h' (st_mem s) (st_trace s ++ [EvMalloc size q])))
  ∧ ((∀ j l, (j < 5)%nat → ls !! j = Some l → l_alloc l ≠ 0) →
     ∃ r s1,
       pool_small true sizeof_ngx_pool_large_t s0 = Some (r, s1)
       ∧ p_large (st_pool s1) = ls
       ∧ (r ≠ 0 →
          ngx_palloc_large (ngx_palloc fuel) size s
          = Some (q, mk_state (set_large (mk_large r q :: ls) (st_pool s1))
                       (st_heap s1) (st_mem s1) (st_trace s1)))
       ∧ (r = 0 →
          ngx_palloc_large (ngx_palloc fuel) size s
          = Some (0, mk_state (st_pool s1) (free q (st_heap s1)) (st_mem s1)
                       (st_trace s1 ++ [EvFree q])))).
Proof.
  intros Hq Hq0 Hmax ls s0.
  rewrite (ngx_palloc_large_run _ _ _ _ _ Hq Hq0). simpl. fold ls s0.
  split.
  - intros i l Hi Hl Hz Hbefore.
    assert (first_empty (take 5 ls) = Some i) as ->.
    { apply first_empty_Some. split.
      - exists l. by rewrite lookup_take_lt.
      - intros j l' Hj Hl'. rewrite lookup_take_lt in Hl' by lia. eauto. }
    do 3 f_equal. unfold set_large. f_equal.
    apply list_eq. intros j. rewrite list_lookup_alter.
    destruct (decide (i = j)) as [<-|Hne].
    + rewrite list_lookup_insert_eq by (by eapply lookup_lt_Some).
      by rewrite Hl.
    + by rewrite list_lookup_insert_ne.
  - intros Hnone.
    assert (first_empty (take 5 ls) = None) as ->.
    { apply first_empty_None. intros j l Hl.
      pose proof (lookup_lt_Some _ _ _ Hl) as Hj. rewrite length_take in Hj.
      rewrite lookup_take_lt in Hl by lia. apply (Hnone j l); [lia|done]. }
    rewrite ngx_palloc_small by done.
    destruct (pool_small_total true sizeof_ngx_pool_large_t s0) as [[r s1] Er].
    rewrite Er. exists r, s1. split; [done|].
    pose proof (pool_small_bump _ _ _ _ _ Er) as (Hl & _). simpl in Hl.
    split; [exact Hl|]. split.
    + intros Hr. destruct (Z.eqb_spec r 0) as [|_]; [done|].
      by rewrite Hl.
    + intros ->. reflexivity.
Qed.

Lemma alter_set_alloc_elem q i ls :
  (i < length ls)%nat → ∃ l, l ∈ alter (set_alloc q) i ls ∧ l_alloc l = q.
Proof.
  intros Hi. destruct (lookup_lt_is_Some_2 ls i Hi) as [l Hl].
  exists (set_alloc q l). split; [|done].
  apply list_elem_of_lookup. exists i. rewrite list_lookup_alter.
  by rewrite decide_True, Hl.
Qed.

(** ** Allocation sequences: the regions returned do not overlap *)

Lemma ngx_align_ptr_bounds p a :
  0 < a → p <= ngx_align_ptr p a < p + a ∧ (a | ngx_align_ptr p a).
Proof.
  intros Ha. unfold ngx_align_ptr.
  pose proof (Z.div_mod (p + (a - 1)) a ltac:(lia)) as Hdm.
  pose proof (Z.mod_pos_bound (p + (a - 1)) a Ha) as Hr.
  split; [nia|]. by exists ((p + (a - 1)) / a).
Qed.

Lemma ngx_align_ptr_aligned p a : 0 < a → (a | p) → ngx_align_ptr p a = p.
Proof.
  intros Ha [k ->]. unfold ngx_align_ptr.
  replace (k * a + (a - 1)) with ((a - 1) + k * a) by lia.
  rewrite Z.div_add by lia. rewrite Z.div_small by lia. lia.
Qed.

Lemma ngx_align_ptr_below p a e :
  0 < a → (a | e) → p <= e → ngx_align_ptr p a <= e.
Proof.
  intros Ha [k ->] Hp.
  destruct (ngx_align_ptr_bounds p a Ha) as [[_ Hb] [q Hq]]. rewrite Hq in *.
  assert (q < k + 1) by (apply (Z.mul_lt_mono_pos_r a); lia).
  apply Z.mul_le_mono_nonneg_r; lia.
Qed.

Lemma region_disjoint_sym r1 r2 : region_disjoint r1 r2 → region_disjoint r2 r1.
Proof. unfold region_disjoint. tauto. Qed.

Lemma region_disjoint_within r r1 r2 :
  region_disjoint r1 r2 → region_within r r1 → region_disjoint r r2.
Proof. unfold region_disjoint, region_within. lia. Qed.

Lemma pairwise_disjoint_app rs1 rs2 :
  pairwise_disjoint (rs1 ++ rs2) ↔
  pairwise_disjoint rs1 ∧ pairwise_disjoint rs2
  ∧ ∀ x y, x ∈ rs1 → y ∈ rs2 → region_disjoint x y.
Proof.
  induction rs1 as [|r rs1 IH]; simpl.
  - split; [|tauto]. intros ?. split_and!; try done. intros x y Hx. by apply elem_of_nil in Hx.
  - rewrite IH, Forall_app, !Forall_forall. split.
    + intros [[H1 H2] (H3 & H4 & H5)]. split_and!; try done.
      intros x y Hx Hy. apply elem_of_cons in Hx as [->|Hx]; eauto.
    + intros ([H1 H2] & H3 & H4). split_and!; try done.
      * intros y Hy. apply H4; [apply list_elem_of_here|done].
      * intros x y Hx Hy. apply H4; [by apply list_elem_of_further|done].
Qed.

Lemma extent_region b : block_region b = ((extent b).1.1, (extent b).2 - (extent b).1.1).
Proof. done. Qed.

Lemma extent_regions (bs bs' : list ngx_pool_data_t) :
  extent <$> bs = extent <$> bs' → block_region <$> bs = block_region <$> bs'.
Proof.
  intros He.
  assert (∀ l : list ngx_pool_data_t,
            block_region <$> l
            = (λ e : Z * Z * Z, (e.1.1, e.2 - e.1.1)) <$> (extent <$> l)) as Hr.
  { intros l. rewrite <- list_fmap_compose. done. }
  by rewrite !Hr, He.
Qed.

Lemma extent_elem_of (bs bs' : list ngx_pool_data_t) b :
  extent <$> bs = extent <$> bs' → b ∈ bs →
  ∃ b', b' ∈ bs' ∧ extent b' = extent b.
Proof.
  intros He Hb. apply (list_elem_of_fmap_2 extent) in Hb. rewrite He in Hb.
  apply list_elem_of_fmap in Hb as (b' & Hb' & Hin). by exists b'.
Qed.

Lemma block_ok_extent psize h b b' :
  extent b' = extent b → block_ok psize h b → block_ok psize h b'.
Proof.
  unfold block_ok, extent, block_region. intros [= -> -> ->]. tauto.
Qed.

Lemma failed_walk_extents cur bs c :
  extent <$> (take cur bs ++ (failed_walk cur (drop cur bs) c).1) = extent <$> bs.
Proof.
  rewrite failed_walk_blocks, !fmap_app, <- list_fmap_compose.
  change (extent ∘ count_failure) with extent.
  rewrite <- !fmap_app, !take_drop. done.
Qed.
Lemma pool_scan_split `{!PlatformOk} aligned size psize h bs m bs' :
  Forall (block_ok psize h) bs → 0 <= psize < 2 ^ word_bits → 0 <= size →
  pool_scan aligned size bs = Some (m, bs') →
  ∃ F b B, bs = F ++ b :: B ∧ bs' = F ++ set_last (m + size) b :: B
           ∧ d_last b <= m ∧ m + size <= d_end b.
Proof.
  intros Hok Hps Hsize. revert m bs'.
  induction Hok as [|p rest Hp Hrest IH]; intros m bs'; simpl; [done|].
  destruct Hp as (Hsl & Hle & Hend & Hself & Haligned & _).
  set (m0 := if aligned then ngx_align_ptr (d_last p) NGX_ALIGNMENT else d_last p).
  assert (d_last p <= m0 <= d_end p) as Hm0.
  { unfold m0. destruct aligned; [|lia]. split.
    - apply ngx_align_ptr_bounds, alignment_pos.
    - apply ngx_align_ptr_below; [apply alignment_pos|done|done]. }
  assert (size_t (d_end p - m0) = d_end p - m0) as ->.
  { unfold size_t. apply Z.mod_small. lia. }
  destruct (Z.leb_spec size (d_end p - m0)) as [Hfit|Hnofit].
  - intros [= <- <-]. exists [], p, rest. split_and!; try done; lia.
  - destruct (pool_scan aligned size rest) as [[m' rest']|]; [|done].
    intros [= <- <-].
    destruct (IH _ _ eq_refl) as (F & b & B & -> & -> & Hb1 & Hb2).
    exists (p :: F), b, B. done.
Qed.

Lemma pool_psize_head pool pool' F b b' B B' :
  p_d pool = F ++ b :: B → p_d pool' = F ++ b' :: B' →
  d_self b' = d_self b → d_end b' = d_end b →
  pool_psize pool' = pool_psize pool.
Proof.
  unfold pool_psize. intros -> -> Hs He. destruct F; simpl; [|done].
  by rewrite Hs, He.
Qed.

Lemma cursor_advance_lay s s' F b B m size :
  pool_layout s →
  p_d (st_pool s) = F ++ b :: B →
  p_d (st_pool s') = F ++ set_last (m + size) b :: B →
  p_max (st_pool s') = p_max (st_pool s) →
  st_heap s' = st_heap s →
  d_last b <= m → 0 <= size → m + size <= d_end b →
  step_lay s s' (m, size) true.
Proof.
  intros [Hps Hmax Hne Hok Hdis] Hbs Hbs' Hmax' Hheap Hm Hsize Hend.
  assert (pool_psize (st_pool s') = pool_psize (st_pool s)) as Hps'
    by (by eapply pool_psize_head).
  rewrite Hbs in Hok, Hdis.
  apply Forall_app in Hok as [HokF HokbB].
  apply Forall_cons in HokbB as [Hokb HokB].
  rewrite fmap_app, fmap_cons in Hdis.
  apply pairwise_disjoint_app in Hdis as (HdF & [HdbB HdB] & HdFB).
  rewrite Forall_forall in HdbB.
  assert (block_ok (pool_psize (st_pool s)) (st_heap s) (set_last (m + size) b))
    as Hokb'.
  { destruct Hokb as (? & ? & ? & ? & ? & ?). unfold block_ok. simpl.
    split_and!; try done; lia. }
  assert (∀ b0 r0, b0 ∈ p_d (st_pool s) →
            d_self b0 <= r0.1 → r0.1 + r0.2 <= d_last b0 →
            region_disjoint r0 (m, size)
            ∧ ∃ b1, b1 ∈ p_d (st_pool s') ∧ d_self b1 <= r0.1
                    ∧ r0.1 + r0.2 <= d_last b1) as Hold.
  { intros b0 r0 Hb0 H1 H2. rewrite Hbs in Hb0. rewrite Hbs'.
    destruct Hokb as (? & ? & ? & _).
    apply elem_of_app in Hb0 as [Hb0|Hb0];
      [|apply elem_of_cons in Hb0 as [->|Hb0]].
    - split.
      + assert (region_disjoint (block_region b0) (block_region b)) as Hd.
        { apply HdFB; [by apply list_elem_of_fmap_2|apply list_elem_of_here]. }
        rewrite Forall_forall in HokF. destruct (HokF _ Hb0) as (? & ? & _).
        revert Hd. unfold region_disjoint, block_region. simpl. lia.
      + exists b0. split; [|done]. apply elem_of_app. by left.
    - split.
      + unfold region_disjoint. simpl. lia.
      + exists (set_last (m + size) b). split; [|simpl; lia].
        apply elem_of_app. right. apply list_elem_of_here.
    - split.
      + assert (region_disjoint (block_region b) (block_region b0)) as Hd.
        { apply HdbB. by apply list_elem_of_fmap_2. }
        rewrite Forall_forall in HokB. destruct (HokB _ Hb0) as (? & ? & _).
        revert Hd. unfold region_disjoint, block_region. simpl. lia.
      + exists b0. split; [|done]. apply elem_of_app. right.
        by apply list_elem_of_further. }
  split; [split_and!|split_and!].
  - constructor.
    + by rewrite Hps'.
    + by rewrite Hps', Hmax'.
    + rewrite Hbs'. by destruct F.
    + rewrite Hbs', Hps', Hheap. apply Forall_app. split; [done|].
      by apply Forall_cons.
    + rewrite Hbs', fmap_app, fmap_cons.
      change (block_region (set_last (m + size) b)) with (block_region b).
      apply pairwise_disjoint_app. split_and!; try done.
      split; [by apply Forall_forall|done].
  - done.
  - intros r0 (b0 & Hb0 & H1 & H2). by apply (Hold b0 r0).
  - intros r0 [Hin Hall]. split; [by rewrite Hheap|].
    rewrite Hbs'. rewrite Hbs in Hall.
    apply Forall_app in Hall as [HallF HallbB].
    apply Forall_cons in HallbB as [Hallb HallB].
    apply Forall_app. split; [done|]. by apply Forall_cons.
  - exists (set_last (m + size) b). rewrite Hbs'. split.
    + apply elem_of_app. right. apply list_elem_of_here.
    + destruct Hokb as (? & ? & _). simpl. lia.
  - intros r0 (b0 & Hb0 & H1 & H2). by apply (Hold b0 r0).
  - intros r0 [Hin Hall]. rewrite Hbs in Hall.
    apply Forall_app in Hall as [_ HallbB].
    apply Forall_cons in HallbB as [Hallb _].
    destruct Hokb as (? & ? & _).
    revert Hallb. unfold region_disjoint, block_region. simpl. lia.
Qed.
Lemma frame_lay_trans s1 s2 s3 : frame_lay s1 s2 → frame_lay s2 s3 → frame_lay s1 s3.
Proof.
  intros (_ & M1 & B1 & R1) (I2 & M2 & B2 & R2).
  split_and!; [done|congruence|eauto|eauto].
Qed.

Lemma step_lay_frame s s1 s2 r small :
  step_lay s s1 r small → frame_lay s1 s2 → step_lay s s2 r small.
Proof.
  intros (F1 & Hr & D1 & D2) F2. split_and!; try done.
  - by eapply frame_lay_trans.
  - destruct F2 as (_ & _ & B2 & R2). destruct small; eauto.
Qed.

(** A state with the same blocks, the same [max] and the same chunks. *)
Lemma same_layout_frame s s' :
  pool_layout s →
  p_d (st_pool s') = p_d (st_pool s) →
  p_max (st_pool s') = p_max (st_pool s) →
  chunks (st_heap s') = chunks (st_heap s) →
  frame_lay s s'.
Proof.
  intros [Hps Hmax Hne Hok Hdis] Hd Hm Hc.
  assert (pool_psize (st_pool s') = pool_psize (st_pool s)) as Hps'
    by (unfold pool_psize; by rewrite Hd).
  split_and!; [|done| |].
  - constructor; rewrite ?Hps', ?Hd, ?Hm; try done.
    eapply Forall_impl; [exact Hok|]. unfold block_ok. intros b. by rewrite Hc.
  - intros r0. unfold below_cursor. by rewrite Hd.
  - intros r0. unfold in_raw. by rewrite Hd, Hc.
Qed.

(** A fresh chunk from the raw allocator. *)
Lemma raw_chunk_lay s s0 q size :
  pool_layout s →
  p_d (st_pool s0) = p_d (st_pool s) →
  p_max (st_pool s0) = p_max (st_pool s) →
  chunks (st_heap s0) = (q, size) :: chunks (st_heap s) →
  Forall (region_disjoint (q, size)) (chunks (st_heap s)) →
  step_lay s s0 (q, size) false.
Proof.
  intros [Hps Hmax Hne Hok Hdis] Hd Hm Hc Hfresh.
  assert (pool_psize (st_pool s0) = pool_psize (st_pool s)) as Hps'
    by (unfold pool_psize; by rewrite Hd).
  rewrite Forall_forall in Hfresh. rewrite Forall_forall in Hok.
  unfold step_lay, frame_lay. split_and!.
  - constructor; rewrite ?Hps', ?Hd, ?Hm; try done.
    apply Forall_forall. intros b Hb. destruct (Hok b Hb) as (?&?&?&?&?&?).
    unfold block_ok. rewrite Hc. split_and!; try done.
    by apply list_elem_of_further.
  - done.
  - intros r0. unfold below_cursor. by rewrite Hd.
  - intros r0 [Hin Hall]. split; [|by rewrite Hd].
    rewrite Hc. by apply list_elem_of_further.
  - split; [rewrite Hc; apply list_elem_of_here|].
    rewrite Hd. apply Forall_forall. intros b Hb.
    destruct (Hok b Hb) as (_&_&_&_&_&Hin). by apply Hfresh.
  - intros r0 (b & Hb & H1 & H2).
    destruct (Hok b Hb) as (?&?&?&?&?&Hin).
    pose proof (Hfresh _ Hin) as Hd0. revert Hd0.
    unfold region_disjoint, block_region. simpl. lia.
  - intros r0 [Hin _]. apply region_disjoint_sym. by apply Hfresh.
Qed.

Lemma pool_psize_extents (bs bs' extra : list ngx_pool_data_t) pool pool' :
  p_d pool = bs → p_d pool' = bs' ++ extra → bs ≠ [] →
  extent <$> bs' = extent <$> bs →
  pool_psize pool' = pool_psize pool.
Proof.
  unfold pool_psize. intros -> -> Hne He.
  destruct bs as [|b bs]; [done|]. destruct bs' as [|b' bs']; [done|].
  rewrite !fmap_cons in He. unfold extent in He. simpl.
  by injection He as -> _ -> _.
Qed.

Lemma ngx_palloc_block_lay `{!PlatformOk} `{!RawAllocatorOk} size s p s' :
  pool_layout s →
  0 <= size <= p_max (st_pool s) →
  ngx_palloc_block size s = Some (p, s') →
  p ≠ 0 →
  step_lay s s' (p, size) true.
Proof.
  intros Hinv Hsize. pose proof Hinv as [Hps Hmax Hne Hok Hdis].
  unfold ngx_palloc_block. msimpl.
  destruct (posix_memalign _ _ _) as [m h'] eqn:Em.
  destruct (Z.eqb_spec m 0) as [->|Hm]; msimpl; [by intros [= <- <-]|].
  pose proof (failed_walk_extents (p_current (st_pool s)) (p_d (st_pool s))
                (Some (p_current (st_pool s)))) as Hext.
  destruct (failed_walk _ _ _) as [walked current]. simpl in Hext. msimpl.
  intros [= <- <-] _.
  apply posix_memalign_fresh in Em as (Hc & Hfresh & Hal); [|done].
  rewrite Forall_forall in Hfresh. rewrite Forall_forall in Hok.
  set (psize := pool_psize (st_pool s)) in *.
  set (bs := p_d (st_pool s)) in *.
  set (bs' := take (p_current (st_pool s)) bs ++ walked) in *.
  assert ((NGX_ALIGNMENT | m)) as Hm8
    by (etrans; [apply alignment_pool|done]).
  assert (ngx_align_ptr (m + sizeof_ngx_pool_data_t) NGX_ALIGNMENT
          = m + sizeof_ngx_pool_data_t) as ->.
  { apply ngx_align_ptr_aligned; [apply alignment_pos|].
    apply Z.divide_add_r; [done|apply sizeof_data_aligned]. }
  set (new := mk_data m (m + sizeof_ngx_pool_data_t + size) (m + psize) 0).
  set (s' := mk_state _ _ _ _).
  assert (p_d (st_pool s') = bs' ++ [new]) as Hd'
    by (simpl; by rewrite app_assoc).
  assert (pool_psize (st_pool s') = psize) as Hps'.
  { by apply (pool_psize_extents bs bs' [new]). }
  assert ((NGX_ALIGNMENT | psize)) as Hps8.
  { destruct bs as [|b0 bs0] eqn:Ebs; [done|].
    destruct (Hok b0 ltac:(apply list_elem_of_here)) as (_&_&He&Hs8&He8&_).
    replace psize with (d_end b0 - d_self b0) by lia.
    by apply Z.divide_sub_r. }
  assert (block_region new = (m, psize)) as Hnew.
  { unfold block_region, new. simpl. f_equal. lia. }
  pose proof sizeof_data_pos. pose proof sizeof_data_le.
  assert (∀ b', b' ∈ bs' → ∃ b, b ∈ bs ∧ extent b' = extent b) as Hback.
  { intros b' Hb'. destruct (extent_elem_of bs' bs b') as (b & ? & ?); eauto. }
  assert (∀ b, b ∈ bs → ∃ b', b' ∈ bs' ∧ extent b' = extent b) as Hforth.
  { intros b Hb. by apply (extent_elem_of bs bs'). }
  assert (∀ b, b ∈ bs → region_disjoint (m, psize) (block_region b)) as Hnb.
  { intros b Hb. destruct (Hok b Hb) as (_&_&_&_&_&Hin). by apply Hfresh. }
  split; [split_and!|split_and!].
  - constructor; rewrite ?Hps', ?Hd'; simpl; try done.
    + by destruct bs'.
    + apply Forall_app. split.
      * apply Forall_forall. intros b' Hb'.
        destruct (Hback b' Hb') as (b & Hb & He).
        apply (block_ok_extent _ _ b); [done|].
        destruct (Hok b Hb) as (?&?&?&?&?&?).
        unfold block_ok. rewrite Hc. split_and!; try done.
        by apply list_elem_of_further.
      * apply Forall_singleton. unfold block_ok. rewrite Hnew, Hc. simpl.
        split_and!; try lia; try done.
        -- by apply Z.divide_add_r.
        -- apply list_elem_of_here.
    + rewrite fmap_app. apply pairwise_disjoint_app. split_and!.
      * by rewrite (extent_regions bs' bs).
      * simpl. by split.
      * intros x y Hx Hy. rewrite (extent_regions bs' bs) in Hx by done.
        apply list_elem_of_fmap in Hx as (b & -> & Hb).
        apply list_elem_of_singleton in Hy as ->. rewrite Hnew.
        apply region_disjoint_sym. by apply Hnb.
  - done.
  - intros r0 (b & Hb & Hr1 & Hr2). destruct (Hforth b Hb) as (b' & Hb' & He).
    exists b'. rewrite Hd'. split; [apply elem_of_app; by left|].
    revert He. unfold extent. by intros [= -> -> _].
  - intros r0 [Hin Hall]. split.
    + simpl. rewrite Hc. by apply list_elem_of_further.
    + rewrite Hd'. apply Forall_app. split.
      * apply Forall_forall. intros b' Hb'.
        destruct (Hback b' Hb') as (b & Hb & He).
        rewrite Forall_forall in Hall. pose proof (Hall b Hb) as Hd0.
        revert He Hd0. unfold extent, block_region. by intros [= -> _ ->].
      * apply Forall_singleton. rewrite Hnew.
        apply region_disjoint_sym. by apply Hfresh.
  - exists new. rewrite Hd'. split.
    + apply elem_of_app. right. apply list_elem_of_here.
    + simpl. lia.
  - intros r0 (b & Hb & Hr1 & Hr2). destruct (Hok b Hb) as (?&?&?&?&?&?).
    pose proof (Hnb b Hb) as Hd0. revert Hd0.
    unfold region_disjoint, block_region. simpl. lia.
  - intros r0 [Hin _]. pose proof (Hfresh _ Hin) as Hd0. revert Hd0.
    unfold region_disjoint. simpl. lia.
Qed.
Lemma pool_small_lay `{!PlatformOk} `{!RawAllocatorOk} aligned size s p s' :
  pool_layout s →
  0 <= size <= p_max (st_pool s) →
  pool_small aligned size s = Some (p, s') →
  p ≠ 0 →
  step_lay s s' (p, size) true.
Proof.
  intros Hinv Hsize. unfold pool_small. msimpl.
  destruct (pool_scan _ _ _) as [[m bs']|] eqn:Escan; msimpl.
  - intros [= <- <-] _.
    apply (pool_scan_split _ _ (pool_psize (st_pool s)) (st_heap s)) in Escan
      as (F & b & B & Hdrop & -> & Hm & Hend);
      [|apply Forall_drop, Hinv|apply Hinv|lia].
    eapply (cursor_advance_lay _ _ (take (p_current (st_pool s)) (p_d (st_pool s)) ++ F) b B);
      simpl; try done; try lia.
    + by rewrite <- app_assoc, <- Hdrop, take_drop.
    + by rewrite <- app_assoc.
  - by apply ngx_palloc_block_lay.
Qed.

Lemma ngx_palloc_large_null (palloc : Z → M Z) size s h' :
  malloc size (st_heap s) = (0, h') →
  ngx_palloc_large palloc size s
  = Some (0, mk_state (st_pool s) h' (st_mem s) (st_trace s ++ [EvMalloc size 0])).
Proof. intros Hq. unfold ngx_palloc_large. msimpl. by rewrite Hq. Qed.

(** ** The threshold between the block chain and the large path *)

(** A pool whose [max] is below the size of a large record, with no empty
    slot at hand, serves no request above [max]. *)
Lemma ngx_palloc_tiny_null (fuel : nat) (size : Z) (s : state) (p : Z) (s' : state) :
  p_max (st_pool s) < sizeof_ngx_pool_large_t →
  p_max (st_pool s) < size →
  first_empty (take 5 (p_large (st_pool s))) = None →
  ngx_palloc fuel size s = Some (p, s') →
  p = 0 ∧ st_pool s' = st_pool s.
Proof.
  revert size s p s'. induction fuel as [|fuel IH];
    intros size s p s' Htiny Hsize Hnone; simpl;
    (destruct (Z.leb_spec size (p_max (st_pool s))); [lia|]); [done|].
  destruct (malloc size (st_heap s)) as [q h'] eqn:Eq.
  destruct (decide (q = 0)) as [->|Hq].
  { rewrite (ngx_palloc_large_null _ _ _ _ Eq). by intros [= <- <-]. }
  rewrite (ngx_palloc_large_run _ _ _ _ _ Eq Hq). simpl. rewrite Hnone.
  destruct (ngx_palloc fuel _ _) as [[r s1]|] eqn:Er; [|done].
  apply IH in Er as [-> Hpool]; [|done..]. simpl in Hpool.
  by intros [= <- <-].
Qed.

(** C3, as the code has it. A pool made by [ngx_create_pool(size)] has
    [max] equal to the smaller of [size - sizeof(ngx_pool_t)], computed in
    [size_t], and [NGX_MAX_ALLOC_FROM_POOL]. In the new pool a request of
    exactly [max] bytes is served by the bump path: it gets the cursor of
    the first block, which moves on by [max]; the raw allocator is not
    called. When [max] covers a record of the large chain, a request of
    [max + 1] bytes is served by the large path: [malloc(max + 1)] is
    called and its result returned; when that is not NULL, a record for it
    is taken from the first block and becomes the large chain. In every
    later state of the pool ([max] never changes) the two requests take the
    same two paths: [max] bytes come from a block, without a call of
    malloc; [max + 1] bytes start with [malloc(max + 1)], and the pointer
    returned, if not NULL, is the one malloc gave, held by a record of the
    large chain. *)
Theorem palloc_threshold `{!PlatformOk} `{!RawAllocatorOk} `{!RawFreeOk}
    (size : Z) (h : heap) (m : memory) (s : state) :
  ngx_create_pool size h m = Some s →
  let max := p_max (st_pool s) in
  ∃ p,
    0 < p
    ∧ p_d (st_pool s) = [mk_data p (p + sizeof_ngx_pool_t) (p + size) 0]
    ∧ max = Z.min (size_t (size - sizeof_ngx_pool_t)) NGX_MAX_ALLOC_FROM_POOL
    ∧ (sizeof_ngx_pool_t <= size < 2 ^ word_bits →
       max = Z.min (size - sizeof_ngx_pool_t) NGX_MAX_ALLOC_FROM_POOL
       ∧ region_within (p + sizeof_ngx_pool_t, max) (p, size))
    ∧ (∀ fuel,
         ngx_palloc fuel max s
         = Some (p + sizeof_ngx_pool_t,
                 mk_state
                   (set_d [mk_data p (p + sizeof_ngx_pool_t + max) (p + size) 0]
                      (st_pool s))
                   (st_heap s) (st_mem s) (st_trace s)))
    ∧ (sizeof_ngx_pool_large_t <= max →
       ∀ fuel q h',
         malloc (max + 1) (st_heap s) = (q, h') →
         ngx_palloc (S fuel) (max + 1) s
         = Some (q,
                 mk_state
                   (if decide (q = 0) then st_pool s
                    else set_large [mk_large (p + sizeof_ngx_pool_t) q]
                           (set_d [mk_data p
                                     (p + sizeof_ngx_pool_t
                                      + sizeof_ngx_pool_large_t)
                                     (p + size) 0] (st_pool s)))
                   h' (st_mem s) (st_trace s ++ [EvMalloc (max + 1) q])))
    ∧ ∀ fuel s1,
        p_max (st_pool s1) = max →
        (∃ r s2,
           ngx_palloc fuel max s1 = Some (r, s2)
           ∧ p_large (st_pool s2) = p_large (st_pool s1)
           ∧ (∃ evs, st_trace s2 = st_trace s1 ++ evs
                     ∧ Forall (λ e, ¬ is_malloc_event e) evs)
           ∧ (r ≠ 0 → ∃ b, b ∈ p_d (st_pool s2) ∧ d_last b = r + max))
        ∧ (sizeof_ngx_pool_large_t <= max →
           ∃ r s2 q evs,
             ngx_palloc (S fuel) (max + 1) s1 = Some (r, s2)
             ∧ st_trace s2 = st_trace s1 ++ EvMalloc (max + 1) q :: evs
             ∧ (r = 0 ∨ r = q)
             ∧ (r ≠ 0 → ∃ l, l ∈ p_large (st_pool s2) ∧ l_alloc l = r)).
Proof.
  unfold ngx_create_pool.
  destruct (posix_memalign _ _ _) as [p h1] eqn:Ep.
  destruct (Z.eqb_spec p 0) as [|Hp]; [done|]. intros [= <-]. simpl.
  pose proof (posix_memalign_nonneg _ _ _ _ _ Ep) as Hp0.
  apply posix_memalign_fresh in Ep as (_ & _ & Hal); [|done].
  pose proof alignment_pos. pose proof max_alloc_range.
  pose proof sizeof_data_pos. pose proof sizeof_data_le.
  pose proof sizeof_large_pos.
  set (size' := size_t (size - sizeof_ngx_pool_t)).
  set (max := if size' <? NGX_MAX_ALLOC_FROM_POOL then size'
              else NGX_MAX_ALLOC_FROM_POOL).
  assert (max = Z.min size' NGX_MAX_ALLOC_FROM_POOL) as Emax
    by (unfold max; destruct (Z.ltb_spec size' NGX_MAX_ALLOC_FROM_POOL); lia).
  assert (ngx_align_ptr (p + sizeof_ngx_pool_t) NGX_ALIGNMENT
          = p + sizeof_ngx_pool_t) as Eal.
  { apply ngx_align_ptr_aligned; [done|]. apply Z.divide_add_r.
    - etrans; [apply alignment_pool|done].
    - apply sizeof_pool_aligned. }
  assert (p + size - (p + sizeof_ngx_pool_t) = size - sizeof_ngx_pool_t) as Esub
    by lia.
  exists p. split; [lia|]. split; [done|]. split; [done|]. split.
  { intros Hsize.
    assert (size' = size - sizeof_ngx_pool_t) as E'
      by (unfold size', size_t; apply Z.mod_small; lia).
    split; [lia|]. unfold region_within. simpl. lia. }
  split.
  { intros fuel. rewrite ngx_palloc_small by (simpl; lia).
    unfold pool_small. msimpl. rewrite Eal, Esub. fold size'.
    destruct (Z.leb_spec max size'); [|lia]. reflexivity. }
  split.
  { intros Hlarge fuel q h' Eq. cbn [ngx_palloc st_pool p_max].
    destruct (Z.leb_spec (max + 1) max) as [|_]; [lia|].
    destruct (decide (q = 0)) as [->|Hq].
    { by rewrite (ngx_palloc_large_null _ _ (mk_state _ h1 _ _) _ Eq). }
    rewrite (ngx_palloc_large_run _ _ (mk_state _ h1 _ _) _ _ Eq Hq).
    cbn [st_pool p_large take].
    cbn [first_empty]. cbv zeta.
    rewrite ngx_palloc_small by (simpl; lia).
    unfold pool_small. msimpl. rewrite Eal, Esub. fold size'.
    destruct (Z.leb_spec sizeof_ngx_pool_large_t size'); [|lia]. simpl.
    destruct (Z.eqb_spec (p + sizeof_ngx_pool_t) 0); [lia|]. reflexivity. }
  intros fuel s1 Hmax. split.
  - rewrite ngx_palloc_small by lia.
    destruct (pool_small_total true max s1) as [[r s2] E]. exists r, s2.
    split; [done|]. by eapply pool_small_bump.
  - intros Hlarge. simpl.
    destruct (Z.leb_spec (max + 1) (p_max (st_pool s1))) as [|_]; [lia|].
    destruct (malloc (max + 1) (st_heap s1)) as [q h'] eqn:Eq.
    destruct (decide (q = 0)) as [->|Hq].
    + unfold ngx_palloc_large. msimpl. rewrite Eq. msimpl.
      eexists 0, _, 0, []. split; [reflexivity|]. simpl. split_and!; auto. done.
    + rewrite (ngx_palloc_large_run _ _ _ _ _ Eq Hq). simpl.
      destruct (first_empty _) as [i|] eqn:Ei.
      * eexists q, _, q, []. split; [reflexivity|]. simpl. split_and!; auto.
        intros _. apply alter_set_alloc_elem.
        apply first_empty_Some in Ei as [(l & Hl & _) _].
        apply lookup_lt_Some in Hl. rewrite length_take in Hl. lia.
      * rewrite ngx_palloc_small by (simpl; lia).
        destruct (pool_small_total true sizeof_ngx_pool_large_t
                    (mk_state (st_pool s1) h' (st_mem s1)
                       (st_trace s1 ++ [EvMalloc (max + 1) q]))) as [[r s2] E].
        rewrite E.
        pose proof (pool_small_bump _ _ _ _ _ E) as (_ & (evs & Ht & _) & _).
        simpl in Ht. rewrite <- app_assoc in Ht. simpl in Ht.
        destruct (r =? 0).
        -- eexists 0, _, q, _. split; [reflexivity|]. simpl.
           rewrite Ht, <- app_assoc. simpl. split_and!; auto. done.
        -- eexists q, _, q, _. split; [reflexivity|]. simpl.
           split_and!; [exact Ht|by right|].
           intros _. eexists. split; [apply list_elem_of_here|done].
Qed.

Lemma ngx_palloc_large_lay `{!PlatformOk} `{!RawAllocatorOk} fuel size s p s' :
  pool_layout s →
  ngx_palloc_large (ngx_palloc fuel) size s = Some (p, s') →
  p ≠ 0 →
  step_lay s s' (p, size) false.
Proof.
  intros Hinv. destruct (malloc size (st_heap s)) as [q h'] eqn:Eq.
  destruct (decide (q = 0)) as [->|Hq].
  { rewrite (ngx_palloc_large_null _ _ _ _ Eq). by intros [= <- <-]. }
  rewrite (ngx_palloc_large_run _ _ _ _ _ Eq Hq). simpl.
  apply malloc_fresh in Eq as [Hc Hfresh]; [|done].
  set (s0 := mk_state (st_pool s) h' (st_mem s) (st_trace s ++ [EvMalloc size q])).
  assert (step_lay s s0 (q, size) false) as Hs0 by (by apply raw_chunk_lay).
  destruct (first_empty _) as [i|] eqn:Ei.
  - intros [= <- <-] _. by apply raw_chunk_lay.
  - pose proof sizeof_large_pos.
    destruct (ngx_palloc fuel sizeof_ngx_pool_large_t s0) as [[r s1]|] eqn:Er;
      [|done].
    destruct (Z.eqb_spec r 0) as [->|Hr]; intros [= <- <-]; [done|]. intros _.
    destruct (Z.le_gt_cases sizeof_ngx_pool_large_t (p_max (st_pool s)))
      as [Hmax|Hmax].
    + rewrite ngx_palloc_small in Er by done.
      apply pool_small_lay in Er as [Hf1 _]; [|apply Hs0|simpl; lia|done].
      eapply step_lay_frame; [exact Hs0|].
      eapply frame_lay_trans; [exact Hf1|].
      apply same_layout_frame; [apply Hf1|done..].
    + apply ngx_palloc_tiny_null in Er as [-> _]; [done|simpl; lia..|done].
Qed.

Lemma serve_lay `{!PlatformOk} `{!RawAllocatorOk} fuel req s p s' :
  pool_layout s →
  0 <= request_size req →
  serve fuel req s = Some (p, s') →
  p ≠ 0 →
  step_lay s s' (p, request_size req)
    (bool_decide (request_size req <= p_max (st_pool s))).
Proof.
  intros Hinv Hsize.
  destruct req as [size|size]; simpl in *;
    [destruct fuel; simpl|unfold ngx_pnalloc];
    (destruct (Z.leb_spec size (p_max (st_pool s)));
     [rewrite bool_decide_eq_true_2 by done; by apply pool_small_lay
     |rewrite bool_decide_eq_false_2 by lia]); try done;
    try (destruct fuel; [done|]); by apply ngx_palloc_large_lay.
Qed.

(** The regions returned by a run of requests, with their sizes. *)
Lemma serve_all_lay `{!PlatformOk} `{!RawAllocatorOk} fuel reqs s ps s' :
  pool_layout s →
  Forall (λ r, 0 <= request_size r) reqs →
  serve_all fuel reqs s = Some (ps, s') →
  Forall (λ p, p ≠ 0) ps →
  let regions := zip ps (request_size <$> reqs) in
  frame_lay s s'
  ∧ pairwise_disjoint regions
  ∧ Forall (λ r, if bool_decide (r.2 <= p_max (st_pool s))
                 then below_cursor s' r else in_raw s' r) regions
  ∧ (∀ r0, below_cursor s r0 ∨ in_raw s r0 → Forall (region_disjoint r0) regions).
Proof.
  revert s ps s'. induction reqs as [|req reqs IH]; intros s ps s' Hinv Hsz; simpl.
  - intros [= <- <-] _. by split_and!.
  - apply Forall_cons in Hsz as [Hsz1 Hsz].
    unfold mbind at 1, M_bind at 1.
    destruct (serve fuel req s) as [[p s1]|] eqn:E1; [|done].
    unfold mbind at 1, M_bind at 1.
    destruct (serve_all fuel reqs s1) as [[ps1 s2]|] eqn:E2; [|done].
    intros [= <- <-] Hps. apply Forall_cons in Hps as [Hp Hps].
    apply serve_lay in E1 as (Hf1 & Hr1 & Hdb & Hdr); [|done..].
    pose proof Hf1 as (Hinv1 & Hmax1 & Hb1 & Hraw1).
    destruct (IH _ _ _ Hinv1 Hsz E2 Hps) as (Hf2 & Hpd & Hkinds & Hold).
    pose proof Hf2 as (Hinv2 & Hmax2 & Hb2 & Hraw2).
    simpl. split_and!.
    + by eapply frame_lay_trans.
    + apply Forall_impl with (P := region_disjoint (p, request_size req));
        [|done].
      apply Hold. destruct (bool_decide _); [by left|by right].
    + done.
    + apply Forall_cons. split.
      * simpl. destruct (bool_decide _); auto.
      * by rewrite <- Hmax1.
    + intros r0 Hr0. apply Forall_cons. split.
      * destruct Hr0; auto.
      * apply Hold. destruct Hr0; auto.
Qed.








Lemma ngx_pnalloc_frame fuel size s p s' :
  ngx_pnalloc fuel size s = Some (p, s') → alloc_frame s s'.
Proof.
  unfold ngx_pnalloc. destruct (size <=? _); [apply pool_small_frame|].
  destruct fuel; [done|]. apply ngx_palloc_large_frame.
  intros. by eapply ngx_palloc_frame.
Qed.

Lemma ngx_palloc_large_total fuel size s :
  sizeof_ngx_pool_large_t <= p_max (st_pool s) →
  is_Some (ngx_palloc_large (ngx_palloc fuel) size s).
Proof.
  intros Hmax. destruct (malloc size (st_heap s)) as [q h'] eqn:Eq.
  destruct (decide (q = 0)) as [->|Hq].
  { by rewrite (ngx_palloc_large_null _ _ _ _ Eq). }
  rewrite (ngx_palloc_large_run _ _ _ _ _ Eq Hq). simpl.
  destruct (first_empty _); [done|].
  rewrite ngx_palloc_small by done.
  destruct (pool_small_total true sizeof_ngx_pool_large_t
              (mk_state (st_pool s) h' (st_mem s)
                 (st_trace s ++ [EvMalloc size q]))) as [[r s1] ->].
  by destruct (r =? 0).
Qed.

(** With a pool that serves the records of the large chain from its
    blocks, one level of recursion is enough: every request returns. *)
Lemma serve_total fuel req s :
  (1 ≤ fuel)%nat →
  sizeof_ngx_pool_large_t <= p_max (st_pool s) →
  ∃ p s', serve fuel req s = Some (p, s') ∧ p_max (st_pool s') = p_max (st_pool s).
Proof.
  intros Hfuel Hmax.
  assert (is_Some (serve fuel req s)) as [[p s'] E].
  { destruct fuel as [|fuel]; [lia|].
    destruct req as [size|size]; simpl; [|unfold ngx_pnalloc];
      (destruct (size <=? _); [apply pool_small_total|]);
      by apply ngx_palloc_large_total. }
  exists p, s'. split; [done|].
  destruct req; simpl in E;
    [apply ngx_palloc_frame in E|apply ngx_pnalloc_frame in E]; apply E.
Qed.

Lemma serve_all_total fuel reqs s :
  (1 ≤ fuel)%nat →
  sizeof_ngx_pool_large_t <= p_max (st_pool s) →
  is_Some (serve_all fuel reqs s).
Proof.
  intros Hfuel. revert s. induction reqs as [|req reqs IH]; intros s Hmax; simpl.
  - done.
  - unfold mbind at 1, M_bind at 1.
    destruct (serve_total fuel req s Hfuel Hmax) as (p & s1 & -> & Hmax1).
    unfold mbind at 1, M_bind at 1.
    destruct (IH s1) as [[ps s2] ->]; [lia|done].
Qed.

Lemma below_cursor_in_block s r : pool_layout s → below_cursor s r → in_block s r.
Proof.
  intros [_ _ _ Hok _] (b & Hb & H1 & H2). exists b. split; [done|].
  rewrite Forall_forall in Hok. destruct (Hok b Hb) as (_ & ? & _).
  unfold region_within, block_region. simpl. lia.
Qed.

(** [ngx_create_pool] gives a pool that satisfies the invariant when the
    size is a multiple of [NGX_ALIGNMENT] and holds the pool header and a
    record of the large chain. *)
Lemma ngx_create_pool_inv `{!PlatformOk} `{!RawAllocatorOk} size h m s :
  (NGX_ALIGNMENT | size) →
  sizeof_ngx_pool_t + sizeof_ngx_pool_large_t <= size < 2 ^ word_bits →
  ngx_create_pool size h m = Some s →
  pool_inv s.
Proof.
  intros Hal Hsize. unfold ngx_create_pool.
  destruct (posix_memalign _ _ _) as [p h'] eqn:Ep.
  destruct (Z.eqb_spec p 0) as [|Hp]; [done|]. intros [= <-].
  apply posix_memalign_fresh in Ep as (Hc & _ & Hp16); [|done].
  pose proof sizeof_data_pos. pose proof sizeof_data_le.
  pose proof sizeof_large_pos. pose proof sizeof_large_max.
  pose proof max_alloc_range.
  assert ((NGX_ALIGNMENT | p)) as Hp8 by (etrans; [apply alignment_pool|done]).
  assert (size_t (p + size - p) = size) as Hps.
  { unfold size_t. replace (p + size - p) with size by lia.
    apply Z.mod_small. lia. }
  assert (size_t (size - sizeof_ngx_pool_t) = size - sizeof_ngx_pool_t) as Hsz.
  { unfold size_t. apply Z.mod_small. lia. }
  constructor; unfold pool_psize; simpl; rewrite ?Hps, ?Hsz.
  - lia.
  - destruct (Z.ltb_spec (size - sizeof_ngx_pool_t) NGX_MAX_ALLOC_FROM_POOL); lia.
  - done.
  - apply Forall_singleton. unfold block_ok, block_region. simpl.
    split_and!; try lia; try done.
    + by apply Z.divide_add_r.
    + rewrite Hc. replace (p + size - p) with size by lia. apply list_elem_of_here.
  - done.
Qed.

(** Requests of at most [max] bytes return whatever the recursion budget. *)
Lemma serve_all_small_total fuel reqs s :
  Forall (λ r, request_size r <= p_max (st_pool s)) reqs →
  is_Some (serve_all fuel reqs s).
Proof.
  revert s. induction reqs as [|req reqs IH]; intros s Hsmall; simpl; [done|].
  apply Forall_cons in Hsmall as [Hreq Hsmall].
  unfold mbind at 1, M_bind at 1.
  assert (∃ p s1, serve fuel req s = Some (p, s1)
                  ∧ p_max (st_pool s1) = p_max (st_pool s))
    as (p & s1 & -> & Hmax1).
  { assert (serve fuel req s
            = pool_small (request_aligned req) (request_size req) s) as ->.
    { destruct req as [n|n]; simpl in *; [by apply ngx_palloc_small|].
      unfold ngx_pnalloc. by destruct (Z.leb_spec n (p_max (st_pool s))); [|lia]. }
    destruct (pool_small_total (request_aligned req) (request_size req) s)
      as [[p s1] E].
    exists p, s1. split; [done|]. apply pool_small_frame in E. apply E. }
  unfold mbind at 1, M_bind at 1.
  destruct (IH s1) as [[ps s2] ->]; [by rewrite Hmax1|done].
Qed.

(** [ngx_create_pool] lays the pool out as allocation needs it when the
    size is a multiple of [NGX_ALIGNMENT] and holds the pool header. *)
Lemma ngx_create_pool_layout `{!PlatformOk} `{!RawAllocatorOk} size h m s :
  (NGX_ALIGNMENT | size) →
  sizeof_ngx_pool_t <= size < 2 ^ word_bits →
  ngx_create_pool size h m = Some s →
  pool_layout s.
Proof.
  intros Hal Hsize. unfold ngx_create_pool.
  destruct (posix_memalign _ _ _) as [p h'] eqn:Ep.
  destruct (Z.eqb_spec p 0) as [|Hp]; [done|]. intros [= <-].
  apply posix_memalign_fresh in Ep as (Hc & _ & Hp16); [|done].
  pose proof sizeof_data_pos. pose proof sizeof_data_le.
  pose proof max_alloc_range.
  assert ((NGX_ALIGNMENT | p)) as Hp8 by (etrans; [apply alignment_pool|done]).
  assert (size_t (p + size - p) = size) as Hps.
  { unfold size_t. replace (p + size - p) with size by lia.
    apply Z.mod_small. lia. }
  assert (size_t (size - sizeof_ngx_pool_t) = size - sizeof_ngx_pool_t) as Hsz.
  { unfold size_t. apply Z.mod_small. lia. }
  constructor; unfold pool_psize; simpl; rewrite ?Hps, ?Hsz.
  - lia.
  - destruct (Z.ltb_spec (size - sizeof_ngx_pool_t) NGX_MAX_ALLOC_FROM_POOL); lia.
  - done.
  - apply Forall_singleton. unfold block_ok, block_region. simpl.
    split_and!; try lia; try done.
    + by apply Z.divide_add_r.
    + rewrite Hc. replace (p + size - p) with size by lia. apply list_elem_of_here.
  - done.
Qed.

(** C1, as the code has it. Take a pool whose blocks are laid out as
    [ngx_create_pool] and [ngx_palloc_block] lay them out when the size of
    the pool is a multiple of [NGX_ALIGNMENT]. Whenever a run of
    [ngx_palloc] and [ngx_pnalloc] calls on it returns and no call returned
    NULL, the regions [ptr, ptr + size) do not overlap one another; a
    region of at most [max] bytes lies within the [start, end) of a block
    of the chain, and a region of more than [max] bytes is a chunk of the
    raw allocator that overlaps no block. The run does return when every
    request is of at most [max] bytes, and also, with one level of
    recursion, when [max] covers a record of the large chain. *)
Theorem palloc_regions_disjoint `{!PlatformOk} `{!RawAllocatorOk}
    (fuel : nat) (reqs : list request) (s : state) :
  pool_layout s →
  Forall (λ r, 0 <= request_size r) reqs →
  (Forall (λ r, request_size r <= p_max (st_pool s)) reqs
   ∨ (1 ≤ fuel)%nat ∧ sizeof_ngx_pool_large_t <= p_max (st_pool s) →
   is_Some (serve_all fuel reqs s))
  ∧ ∀ ps s',
      serve_all fuel reqs s = Some (ps, s') →
      Forall (λ p, p ≠ 0) ps →
      let regions := zip ps (request_size <$> reqs) in
      pairwise_disjoint regions
      ∧ Forall (λ r, if bool_decide (r.2 <= p_max (st_pool s))
                     then in_block s' r else in_raw s' r) regions.
Proof.
  intros Hlay Hsz. split.
  - intros [Hsmall|[Hfuel Hmax]];
      [by apply serve_all_small_total|by apply serve_all_total].
  - intros ps s' E Hps.
    destruct (serve_all_lay _ _ _ _ _ Hlay Hsz E Hps)
      as ((Hlay' & _) & Hpd & Hkinds & _).
    split; [done|]. eapply Forall_impl; [exact Hkinds|].
    intros r. simpl. destruct (bool_decide _); [|done].
    by apply below_cursor_in_block.
Qed.

(** * Further properties of the code *)

(** ** Small allocations: alignment, first fit, what is kept *)

Lemma pool_scan_aligned `{!PlatformOk} size bs m bs' :
  pool_scan true size bs = Some (m, bs') → (NGX_ALIGNMENT | m).
Proof.
  revert m bs'. induction bs as [|b rest IH]; intros m bs'; simpl; [done|].
  destruct (size <=? _).
  - intros [= <- <-]. apply ngx_align_ptr_bounds, alignment_pos.
  - destruct (pool_scan true size rest) as [[m' rest']|]; [|done].
    intros [= <- <-]. by eapply IH.
Qed.

(** X1. A request of at most [max] bytes gets from [ngx_palloc] an address
    that is a multiple of [NGX_ALIGNMENT] (NULL included), whether an
    existing block or a new one serves it. *)
Theorem palloc_small_aligned `{!PlatformOk} (fuel : nat) (size : Z)
    (s s' : state) (p : Z) :
  size <= p_max (st_pool s) →
  ngx_palloc fuel size s = Some (p, s') →
  (NGX_ALIGNMENT | p).
Proof.
  intros Hle. rewrite ngx_palloc_small by done. unfold pool_small. msimpl.
  destruct (pool_scan _ _ _) as [[m bs]|] eqn:E; msimpl.
  - intros [= <- <-]. by eapply pool_scan_aligned.
  - unfold ngx_palloc_block. msimpl.
    destruct (posix_memalign _ _ _) as [m h].
    destruct (m =? 0); msimpl.
    + intros [= <- <-]. apply Z.divide_0_r.
    + destruct (failed_walk _ _ _). msimpl. intros [= <- <-].
      apply ngx_align_ptr_bounds, alignment_pos.
Qed.

(** The block at [pool->current] serves the request when it has room. *)
Lemma pool_small_first_fit (aligned : bool) size s b :
  p_d (st_pool s) !! p_current (st_pool s) = Some b →
  let m := if aligned then ngx_align_ptr (d_last b) NGX_ALIGNMENT
           else d_last b in
  0 <= d_end b - m < 2 ^ word_bits →
  size <= d_end b - m →
  pool_small aligned size s
  = Some (m, mk_state
               (set_d (<[p_current (st_pool s) := set_last (m + size) b]>
                         (p_d (st_pool s))) (st_pool s))
               (st_heap s) (st_mem s) (st_trace s)).
Proof.
  intros Hb m Hrange Hfit. unfold pool_small. msimpl.
  rewrite (drop_S _ b) by done. simpl. fold m.
  unfold size_t. rewrite Z.mod_small by done.
  destruct (Z.leb_spec size (d_end b - m)); [|lia]. msimpl.
  do 4 f_equal.
  rewrite <- (take_drop_middle _ _ _ Hb) at 3.
  pose proof (lookup_lt_Some _ _ _ Hb) as Hlt.
  rewrite insert_app_r_alt by (rewrite length_take; lia).
  rewrite length_take, Nat.min_l, Nat.sub_diag by lia. done.
Qed.

(** X2. Two requests in a row that the block at [pool->current] has room
    for: [ngx_pnalloc] hands out adjacent regions, the second one starting
    where the first ends; [ngx_palloc] starts each region at the cursor
    rounded up to the alignment, so the second starts at the aligned end of
    the first. *)
Theorem small_requests_in_a_row `{!PlatformOk} (fuel : nat) (n1 n2 : Z)
    (s : state) (b : ngx_pool_data_t) :
  p_d (st_pool s) !! p_current (st_pool s) = Some b →
  0 <= n1 <= p_max (st_pool s) → 0 <= n2 <= p_max (st_pool s) →
  d_end b - d_last b < 2 ^ word_bits →
  (n1 + n2 <= d_end b - d_last b →
   ∃ s1 s2,
     ngx_pnalloc fuel n1 s = Some (d_last b, s1)
     ∧ ngx_pnalloc fuel n2 s1 = Some (d_last b + n1, s2))
  ∧ (let p1 := ngx_align_ptr (d_last b) NGX_ALIGNMENT in
     let p2 := ngx_align_ptr (p1 + n1) NGX_ALIGNMENT in
     p2 + n2 <= d_end b →
     ∃ s1 s2,
       ngx_palloc fuel n1 s = Some (p1, s1)
       ∧ ngx_palloc fuel n2 s1 = Some (p2, s2)
       ∧ p1 + n1 <= p2 < p1 + n1 + NGX_ALIGNMENT).
Proof.
  intros Hb Hn1 Hn2 Hrange.
  pose proof (lookup_lt_Some _ _ _ Hb) as Hlt.
  pose proof alignment_pos as HA.
  split.
  - intros Hroom. eexists _, _. split.
    + unfold ngx_pnalloc.
      destruct (Z.leb_spec n1 (p_max (st_pool s))); [|lia].
      apply (pool_small_first_fit false n1 s b Hb); lia.
    + unfold ngx_pnalloc. simpl.
      destruct (Z.leb_spec n2 (p_max (st_pool s))); [|lia].
      rewrite (pool_small_first_fit false n2 _ (set_last (d_last b + n1) b));
        simpl; [done| |lia..].
      by rewrite list_lookup_insert_eq.
  - intros p1 p2 Hroom.
    pose proof (ngx_align_ptr_bounds (d_last b) NGX_ALIGNMENT HA) as [Hp1 _].
    pose proof (ngx_align_ptr_bounds (p1 + n1) NGX_ALIGNMENT HA) as [Hp2 _].
    fold p1 in Hp1. fold p2 in Hp2.
    eexists _, _. split_and!; [| |lia|lia].
    + rewrite ngx_palloc_small by lia.
      apply (pool_small_first_fit true n1 s b Hb); fold p1; lia.
    + rewrite ngx_palloc_small by (simpl; lia).
      rewrite (pool_small_first_fit true n2 _ (set_last (p1 + n1) b));
        simpl; fold p2; [done| |lia..].
      by rewrite list_lookup_insert_eq.
Qed.
Lemma block_kept_refl b : block_kept b b.
Proof. unfold block_kept. lia. Qed.

Lemma Forall2_block_kept_refl bs : Forall2 block_kept bs bs.
Proof. induction bs; constructor; auto using block_kept_refl. Qed.

Lemma pool_scan_kept `{!PlatformOk} (aligned : bool) size bs m bs' :
  0 <= size →
  pool_scan aligned size bs = Some (m, bs') → Forall2 block_kept bs bs'.
Proof.
  intros Hsize. revert m bs'.
  induction bs as [|b rest IH]; intros m bs'; simpl; [done|].
  destruct (size <=? _).
  - intros [= <- <-]. constructor; [|apply Forall2_block_kept_refl].
    unfold block_kept. simpl. split_and!; [done..|].
    destruct aligned; [|lia].
    pose proof (ngx_align_ptr_bounds (d_last b) NGX_ALIGNMENT alignment_pos).
    lia.
  - destruct (pool_scan aligned size rest) as [[m' rest']|]; [|done].
    intros [= <- <-]. constructor; [apply block_kept_refl|by eapply IH].
Qed.

Lemma failed_walk_kept i bs c : Forall2 block_kept bs (failed_walk i bs c).1.
Proof.
  rewrite failed_walk_blocks.
  rewrite <- (take_drop (length bs - 1) bs) at 1.
  apply Forall2_app; [|apply Forall2_block_kept_refl].
  apply Forall2_fmap_r, Forall_Forall2_diag, Forall_forall.
  intros b _. unfold block_kept. simpl. lia.
Qed.

Lemma failed_walk_length i bs c : length (failed_walk i bs c).1 = length bs.
Proof. symmetry. eapply Forall2_length, failed_walk_kept. Qed.

(** What the chain search and the block growth do to the chain and to
    [pool->current]. *)
Lemma pool_small_chain `{!PlatformOk} (aligned : bool) size s p s' :
  0 <= size →
  (p_current (st_pool s) < length (p_d (st_pool s)))%nat →
  pool_small aligned size s = Some (p, s') →
  ∃ front extra,
    p_d (st_pool s') = front ++ extra ∧ (length extra ≤ 1)%nat
    ∧ Forall2 block_kept (p_d (st_pool s)) front
    ∧ take (p_current (st_pool s)) front
      = take (p_current (st_pool s)) (p_d (st_pool s))
    ∧ (p_current (st_pool s) ≤ p_current (st_pool s') < length front)%nat
    ∧ p_large (st_pool s') = p_large (st_pool s).
Proof.
  intros Hsize Hcur. destruct s as [[bs mx cur lg cl] h0 mem t]. simpl in *.
  unfold pool_small. msimpl.
  assert (length (take cur bs) = cur) as Htake by (rewrite length_take; lia).
  destruct (pool_scan _ _ _) as [[m bs']|] eqn:E; msimpl.
  - intros [= <- <-]. simpl. apply pool_scan_kept in E; [|done].
    exists (take cur bs ++ bs'), []. rewrite app_nil_r.
    pose proof (Forall2_length _ _ _ E) as Hlen. rewrite length_drop in Hlen.
    split_and!; try done; try (simpl; lia).
    + rewrite <- (take_drop cur bs) at 1.
      apply Forall2_app; [apply Forall2_block_kept_refl|done].
    + rewrite take_app_le by lia. rewrite take_ge by lia. done.
    + rewrite length_app, Htake, <- Hlen. lia.
  - unfold ngx_palloc_block. msimpl.
    destruct (posix_memalign _ _ _) as [m h].
    destruct (m =? 0); msimpl.
    + intros [= <- <-]. simpl. exists bs, []. rewrite app_nil_r.
      split_and!; try done; try (simpl; lia); apply Forall2_block_kept_refl.
    + pose proof (failed_walk_kept cur (drop cur bs) (Some cur)) as Hk.
      pose proof (failed_walk_candidate cur (drop cur bs) (Some cur)) as Hc.
      destruct (failed_walk cur (drop cur bs) (Some cur)) as [walked c].
      simpl in Hk, Hc. msimpl. intros [= <- <-]. simpl.
      pose proof (Forall2_length _ _ _ Hk) as Hlen. rewrite length_drop in Hlen.
      eexists (take cur bs ++ walked), [_]. rewrite <- app_assoc.
      split_and!.
      * done.
      * simpl. lia.
      * rewrite <- (take_drop cur bs) at 1.
        apply Forall2_app; [apply Forall2_block_kept_refl|done].
      * rewrite take_app_le by lia. rewrite take_ge by lia. done.
      * destruct Hc as [(j & b & Hj & _ & _ & -> & _)|[_ ->]]; simpl; lia.
      * rewrite length_app, Htake, <- Hlen.
        destruct Hc as [(j & b & Hj & _ & _ & -> & _)|[_ ->]]; simpl;
          try rewrite length_drop in Hj; lia.
      * done.
Qed.

(** The same for a whole request: a large one touches the chain only to
    take the record of the large chain from it. *)
Lemma serve_chain `{!PlatformOk} fuel req s p s' :
  0 <= request_size req →
  (p_current (st_pool s) < length (p_d (st_pool s)))%nat →
  serve fuel req s = Some (p, s') →
  ∃ front extra,
    p_d (st_pool s') = front ++ extra ∧ (length extra ≤ 1)%nat
    ∧ Forall2 block_kept (p_d (st_pool s)) front
    ∧ take (p_current (st_pool s)) front
      = take (p_current (st_pool s)) (p_d (st_pool s))
    ∧ (p_current (st_pool s) ≤ p_current (st_pool s') < length front)%nat.
Proof.
  assert (∀ fuel size s p s',
            0 <= size →
            (p_current (st_pool s) < length (p_d (st_pool s)))%nat →
            ngx_palloc fuel size s = Some (p, s') →
            ∃ front extra,
              p_d (st_pool s') = front ++ extra ∧ (length extra ≤ 1)%nat
              ∧ Forall2 block_kept (p_d (st_pool s)) front
              ∧ take (p_current (st_pool s)) front
                = take (p_current (st_pool s)) (p_d (st_pool s))
              ∧ (p_current (st_pool s) ≤ p_current (st_pool s') < length front)%nat)
    as Hpalloc.
  { clear fuel req s p s'.
    intros fuel. induction fuel as [|fuel IH]; intros size s p s' Hsize Hcur; simpl.
    - destruct (size <=? _); [|done]. intros E.
      destruct (pool_small_chain _ _ _ _ _ Hsize Hcur E)
        as (fr & ex & ? & ? & ? & ? & ? & _); by exists fr, ex.
    - destruct (size <=? _).
      { intros E.
        destruct (pool_small_chain _ _ _ _ _ Hsize Hcur E)
        as (fr & ex & ? & ? & ? & ? & ? & _); by exists fr, ex. }
      destruct (malloc size (st_heap s)) as [q h'] eqn:Eq.
      destruct (decide (q = 0)) as [->|Hq].
      { rewrite (ngx_palloc_large_null _ _ _ _ Eq). intros [= <- <-]. simpl.
        exists (p_d (st_pool s)), []. rewrite app_nil_r.
        split_and!; try done; try (simpl; lia); apply Forall2_block_kept_refl. }
      rewrite (ngx_palloc_large_run _ _ _ _ _ Eq Hq). simpl.
      destruct (first_empty _).
      { intros [= <- <-]. simpl.
        exists (p_d (st_pool s)), []. rewrite app_nil_r.
        split_and!; try done; try (simpl; lia); apply Forall2_block_kept_refl. }
      destruct (ngx_palloc fuel _ _) as [[r s1]|] eqn:Er; [|done].
      apply IH in Er as (fr & ex & ? & ? & ? & ? & ?);
        [|pose proof sizeof_large_pos; lia|done].
      simpl in *. destruct (r =? 0); intros [= <- <-]; simpl; by exists fr, ex. }
  intros Hsize Hcur. destruct req as [size|size]; simpl in *.
  - apply Hpalloc; done.
  - unfold ngx_pnalloc. destruct (size <=? _).
    { intros E.
      destruct (pool_small_chain _ _ _ _ _ Hsize Hcur E)
        as (fr & ex & ? & ? & ? & ? & ? & _); by exists fr, ex. }
    destruct fuel as [|fuel]; [done|].
    destruct (malloc size (st_heap s)) as [q h'] eqn:Eq.
    destruct (decide (q = 0)) as [->|Hq].
    { rewrite (ngx_palloc_large_null _ _ _ _ Eq). intros [= <- <-]. simpl.
      exists (p_d (st_pool s)), []. rewrite app_nil_r.
      split_and!; try done; try (simpl; lia); apply Forall2_block_kept_refl. }
    rewrite (ngx_palloc_large_run _ _ _ _ _ Eq Hq). simpl.
    destruct (first_empty _).
    { intros [= <- <-]. simpl.
      exists (p_d (st_pool s)), []. rewrite app_nil_r.
      split_and!; try done; try (simpl; lia); apply Forall2_block_kept_refl. }
    destruct (ngx_palloc fuel _ _) as [[r s1]|] eqn:Er; [|done].
    apply Hpalloc in Er as (fr & ex & ? & ? & ? & ? & ?);
      [|pose proof sizeof_large_pos; lia|done].
    simpl in *. destruct (r =? 0); intros [= <- <-]; simpl; by exists fr, ex.
Qed.

(** X3. An allocation never gives pool memory back and never moves a block:
    after [ngx_palloc] or [ngx_pnalloc], whatever it returns, the blocks of
    the chain are at their places with the same start and end, no cursor
    has moved back, and at most one block has been added at the tail. *)
Theorem alloc_keeps_blocks `{!PlatformOk} (fuel : nat) (req : request)
    (s s' : state) (p : Z) :
  0 <= request_size req →
  (p_current (st_pool s) < length (p_d (st_pool s)))%nat →
  serve fuel req s = Some (p, s') →
  ∃ front extra,
    p_d (st_pool s') = front ++ extra ∧ (length extra ≤ 1)%nat
    ∧ Forall2 block_kept (p_d (st_pool s)) front.
Proof.
  intros Hsize Hcur E.
  destruct (serve_chain _ _ _ _ _ Hsize Hcur E) as (fr & ex & ? & ? & ? & _).
  by exists fr, ex.
Qed.

(** X4. [pool->current] stays a block of the chain and only moves towards
    the tail; the blocks before it are left exactly as they are, so the
    room left in a block that the search start has passed is not used
    again. *)
Theorem alloc_current_forward `{!PlatformOk} (fuel : nat) (req : request)
    (s s' : state) (p : Z) :
  0 <= request_size req →
  (p_current (st_pool s) < length (p_d (st_pool s)))%nat →
  serve fuel req s = Some (p, s') →
  (p_current (st_pool s) ≤ p_current (st_pool s') < length (p_d (st_pool s')))%nat
  ∧ take (p_current (st_pool s)) (p_d (st_pool s'))
    = take (p_current (st_pool s)) (p_d (st_pool s)).
Proof.
  intros Hsize Hcur E.
  destruct (serve_chain _ _ _ _ _ Hsize Hcur E)
    as (fr & ex & -> & _ & Hk & Htake & Hc).
  rewrite length_app. split; [lia|].
  rewrite take_app_le by lia. done.
Qed.
(** ** Failure of the raw allocator *)

Lemma pool_scan_no_room (aligned : bool) size bs :
  Forall (λ b, ¬ has_room aligned size b) bs → pool_scan aligned size bs = None.
Proof.
  induction 1 as [|b bs Hb _ IH]; simpl; [done|].
  unfold has_room in Hb.
  destruct (Z.leb_spec size (size_t (d_end b - (if aligned
              then ngx_align_ptr (d_last b) NGX_ALIGNMENT else d_last b))));
    [done|]. by rewrite IH.
Qed.

(** X5. When no block from [pool->current] on has room for a request of at
    most [max] bytes and [posix_memalign] fails, [ngx_palloc] and
    [ngx_pnalloc] return NULL and leave the pool as it was: no cursor, no
    failure counter and not [pool->current] has changed. *)
Theorem small_request_failure (fuel : nat) (req : request) (s : state) (h' : heap) :
  request_size req <= p_max (st_pool s) →
  Forall (λ b, ¬ has_room (request_aligned req) (request_size req) b)
    (drop (p_current (st_pool s)) (p_d (st_pool s))) →
  posix_memalign NGX_POOL_ALIGNMENT (pool_psize (st_pool s)) (st_heap s) = (0, h') →
  serve fuel req s
  = Some (0, mk_state (st_pool s) h' (st_mem s)
               (st_trace s ++ [EvMemalign NGX_POOL_ALIGNMENT
                                 (pool_psize (st_pool s)) 0])).
Proof.
  intros Hle Hroom Hm.
  assert (pool_small (request_aligned req) (request_size req) s
          = Some (0, mk_state (st_pool s) h' (st_mem s)
                       (st_trace s ++ [EvMemalign NGX_POOL_ALIGNMENT
                                         (pool_psize (st_pool s)) 0]))) as Hs.
  { unfold pool_small. msimpl. rewrite pool_scan_no_room by done.
    unfold ngx_palloc_block. msimpl. by rewrite Hm. }
  destruct req as [size|size]; simpl in *.
  - by rewrite ngx_palloc_small.
  - unfold ngx_pnalloc. by destruct (Z.leb_spec size (p_max (st_pool s))); [|lia].
Qed.

(** X6. A large request whose buffer [malloc] gave but whose record cannot
    be had (no empty slot among the first five records, no room in the
    blocks, [posix_memalign] fails) returns NULL after giving the buffer
    back with [free]; the pool is as it was. *)
Theorem large_request_failure_frees (fuel : nat) (size : Z) (s : state)
    (q : Z) (h1 h2 : heap) :
  p_max (st_pool s) < size →
  sizeof_ngx_pool_large_t <= p_max (st_pool s) →
  malloc size (st_heap s) = (q, h1) → q ≠ 0 →
  (∀ j l, (j < 5)%nat → p_large (st_pool s) !! j = Some l → l_alloc l ≠ 0) →
  Forall (λ b, ¬ has_room true sizeof_ngx_pool_large_t b)
    (drop (p_current (st_pool s)) (p_d (st_pool s))) →
  posix_memalign NGX_POOL_ALIGNMENT (pool_psize (st_pool s)) h1 = (0, h2) →
  ngx_palloc (S fuel) size s
  = Some (0, mk_state (st_pool s) (free q h2) (st_mem s)
               (st_trace s
                  ++ [EvMalloc size q;
                      EvMemalign NGX_POOL_ALIGNMENT (pool_psize (st_pool s)) 0;
                      EvFree q])).
Proof.
  intros Hsize Hlarge Hq Hq0 Hnone Hroom Hm. simpl.
  destruct (Z.leb_spec size (p_max (st_pool s))); [lia|].
  rewrite (ngx_palloc_large_run _ _ _ _ _ Hq Hq0). simpl.
  assert (first_empty (take 5 (p_large (st_pool s))) = None) as ->.
  { apply first_empty_None. intros j l Hl.
    pose proof (lookup_lt_Some _ _ _ Hl) as Hj. rewrite length_take in Hj.
    rewrite lookup_take_lt in Hl by lia. apply (Hnone j l); [lia|done]. }
  rewrite ngx_palloc_small by done.
  unfold pool_small. msimpl. rewrite pool_scan_no_room by done.
  unfold ngx_palloc_block. msimpl. rewrite Hm. msimpl.
  by rewrite <- !app_assoc.
Qed.

(** ** Freeing large allocations *)

Lemma pfree_scan_first p ls i l :
  ls !! i = Some l → l_alloc l = p →
  (∀ j l', (j < i)%nat → ls !! j = Some l' → l_alloc l' ≠ p) →
  pfree_scan p ls = Some (<[i := set_alloc 0 l]> ls).
Proof.
  revert i. induction ls as [|l0 rest IH]; intros i Hl Hp Hbefore; [done|].
  simpl. destruct i as [|i].
  - injection Hl as ->. by destruct (Z.eqb_spec p (l_alloc l)); [|congruence].
  - destruct (Z.eqb_spec p (l_alloc l0)) as [E|_].
    { by destruct (Hbefore 0%nat l0 ltac:(lia) eq_refl). }
    rewrite (IH i); [done|done|done|].
    intros j l' Hj Hl'. apply (Hbefore (S j) l'); [lia|done].
Qed.

Lemma pfree_scan_elem p ls :
  (∃ l, l ∈ ls ∧ l_alloc l = p) →
  ∃ i l, ls !! i = Some l ∧ l_alloc l = p
         ∧ pfree_scan p ls = Some (<[i := set_alloc 0 l]> ls).
Proof.
  induction ls as [|l0 rest IH]; intros (l & Hl & Hp).
  - by apply elem_of_nil in Hl.
  - simpl. destruct (Z.eqb_spec p (l_alloc l0)) as [E|E].
    + by exists 0%nat, l0.
    + apply elem_of_cons in Hl as [->|Hl]; [congruence|].
      destruct IH as (i & l1 & Hi & Hp1 & ->); [by exists l|].
      by exists (S i), l1.
Qed.

(** X7. [ngx_pfree] on the pointer held by a record of the large chain
    returns [NGX_OK]: the pointer goes to [free] once, the first record
    holding it becomes empty and stays in the chain, and nothing else in
    the pool changes. *)
Theorem pfree_frees_first_match (s : state) (p : Z) (i : nat) (l : ngx_pool_large_t) :
  p_large (st_pool s) !! i = Some l →
  l_alloc l = p →
  (∀ j l', (j < i)%nat → p_large (st_pool s) !! j = Some l' → l_alloc l' ≠ p) →
  ngx_pfree p s
  = Some (NGX_OK,
          mk_state (set_large (<[i := set_alloc 0 l]> (p_large (st_pool s)))
                      (st_pool s))
            (free p (st_heap s)) (st_mem s) (st_trace s ++ [EvFree p])).
Proof.
  intros Hl Hp Hbefore. unfold ngx_pfree. msimpl.
  by rewrite (pfree_scan_first p _ i l).
Qed.

Lemma live_allocs_insert ls i l l' :
  ls !! i = Some l →
  live_allocs (<[i := l']> ls)
  = live_allocs (take i ls) ++ live_allocs [l'] ++ live_allocs (drop (S i) ls)
  ∧ live_allocs ls
    = live_allocs (take i ls) ++ live_allocs [l] ++ live_allocs (drop (S i) ls).
Proof.
  intros Hl. pose proof (lookup_lt_Some _ _ _ Hl) as Hi.
  assert (∀ a b : list ngx_pool_large_t,
            live_allocs (a ++ b) = live_allocs a ++ live_allocs b) as Happ.
  { intros a b. unfold live_allocs. by rewrite fmap_app, filter_app. }
  split.
  - rewrite <- (take_drop_middle _ _ _ Hl) at 1.
    rewrite insert_app_r_alt by (rewrite length_take; lia).
    rewrite length_take, Nat.min_l, Nat.sub_diag by lia. simpl.
    rewrite Happ. f_equal. apply (Happ [l']).
  - rewrite <- (take_drop_middle _ _ _ Hl) at 1.
    rewrite Happ. f_equal. apply (Happ [l]).
Qed.

Lemma live_allocs_one l :
  live_allocs [l] = if decide (l_alloc l ≠ 0) then [l_alloc l] else [].
Proof. unfold live_allocs. simpl. rewrite filter_cons, filter_nil. done. Qed.

(** X8. A large allocation can be given back: the pointer [ngx_palloc]
    returns for a request above [max] is accepted by [ngx_pfree], which
    returns [NGX_OK] and frees it; the large chain then holds as many
    buffers as before the allocation. *)
Theorem large_alloc_then_pfree (fuel : nat) (size : Z) (s s1 : state) (p : Z) :
  p_max (st_pool s) < size →
  sizeof_ngx_pool_large_t <= p_max (st_pool s) →
  ngx_palloc fuel size s = Some (p, s1) →
  p ≠ 0 →
  ∃ s2,
    ngx_pfree p s1 = Some (NGX_OK, s2)
    ∧ st_trace s2 = st_trace s1 ++ [EvFree p]
    ∧ p_d (st_pool s2) = p_d (st_pool s1)
    ∧ length (live_allocs (p_large (st_pool s2)))
      = length (live_allocs (p_large (st_pool s))).
Proof.
  intros Hsize Hlarge. destruct fuel as [|fuel]; simpl;
    (destruct (Z.leb_spec size (p_max (st_pool s))); [lia|]); [done|].
  destruct (malloc size (st_heap s)) as [q h'] eqn:Eq.
  destruct (decide (q = 0)) as [->|Hq].
  { rewrite (ngx_palloc_large_null _ _ _ _ Eq). by intros [= <- <-]. }
  rewrite (ngx_palloc_large_run _ _ _ _ _ Eq Hq). simpl.
  assert (∀ s1 : state,
            (length (live_allocs (p_large (st_pool s1)))
             = S (length (live_allocs (p_large (st_pool s)))))%nat →
            (∃ l, l ∈ p_large (st_pool s1) ∧ l_alloc l = q) →
            ∃ s2, ngx_pfree q s1 = Some (NGX_OK, s2)
                  ∧ st_trace s2 = st_trace s1 ++ [EvFree q]
                  ∧ p_d (st_pool s2) = p_d (st_pool s1)
                  ∧ length (live_allocs (p_large (st_pool s2)))
                    = length (live_allocs (p_large (st_pool s)))) as Hfree.
  { intros s1' Hlen Hin.
    destruct (pfree_scan_elem q _ Hin) as (i & l & Hl & Hp & Hscan).
    unfold ngx_pfree. msimpl. rewrite Hscan. msimpl.
    eexists. split; [reflexivity|]. simpl. split_and!; [done..|].
    destruct (live_allocs_insert _ i l (set_alloc 0 l) Hl) as [-> Hold].
    rewrite Hold in Hlen. rewrite !live_allocs_one in *. simpl in *.
    rewrite decide_True in Hlen by congruence.
    rewrite !length_app in *. simpl in *. lia. }
  destruct (first_empty _) as [i|] eqn:Ei.
  - intros [= <- <-] _. apply Hfree; simpl.
    + apply first_empty_Some in Ei as [(l & Hl & Hz) _].
      pose proof (lookup_lt_Some _ _ _ Hl) as Hi. rewrite length_take in Hi.
      rewrite lookup_take_lt in Hl by lia.
      assert (alter (set_alloc q) i (p_large (st_pool s))
              = <[i := set_alloc q l]> (p_large (st_pool s))) as ->.
      { apply list_eq. intros j. rewrite list_lookup_alter.
        destruct (decide (i = j)) as [<-|Hne].
        - rewrite list_lookup_insert_eq by lia. by rewrite Hl.
        - by rewrite list_lookup_insert_ne. }
      destruct (live_allocs_insert _ i l (set_alloc q l) Hl) as [-> ->].
      rewrite !live_allocs_one. simpl.
      rewrite decide_True by done. rewrite Hz. simpl.
      rewrite !length_app. simpl. lia.
    + apply alter_set_alloc_elem.
      apply first_empty_Some in Ei as [(l & Hl & _) _].
      apply lookup_lt_Some in Hl. rewrite length_take in Hl. lia.
  - rewrite ngx_palloc_small by done.
    destruct (pool_small true _ _) as [[r s1']|] eqn:Er; [|done].
    pose proof (pool_small_bump _ _ _ _ _ Er) as (Hl & _). simpl in Hl.
    destruct (r =? 0); intros [= <- <-]; [done|]. intros _.
    apply Hfree; simpl.
    + rewrite Hl. change (mk_large r q :: p_large (st_pool s))
        with ([mk_large r q] ++ p_large (st_pool s)).
      unfold live_allocs at 1. rewrite fmap_app, filter_app, length_app.
      fold (live_allocs [mk_large r q]). fold (live_allocs (p_large (st_pool s))).
      rewrite live_allocs_one. simpl. by rewrite decide_True.
    + eexists. split; [apply list_elem_of_here|done].
Qed.

(** X9. [ngx_pfree] with NULL in a pool whose large chain has an empty
    record matches that record: it calls [free(NULL)] and returns [NGX_OK],
    not [NGX_DECLINED]; the pool is as it was. *)
Theorem pfree_null_matches_empty_slot (s : state) :
  (∃ l, l ∈ p_large (st_pool s) ∧ l_alloc l = 0) →
  ngx_pfree 0 s
  = Some (NGX_OK, mk_state (st_pool s) (free 0 (st_heap s)) (st_mem s)
                    (st_trace s ++ [EvFree 0])).
Proof.
  intros Hin. destruct (pfree_scan_elem 0 _ Hin) as (i & l & Hl & Hp & Hscan).
  unfold ngx_pfree. msimpl. rewrite Hscan. msimpl. do 3 f_equal.
  assert (set_alloc 0 l = l) as -> by (destruct l; simpl in *; by subst).
  rewrite list_insert_id by done. by destruct (st_pool s).
Qed.

(** ** The account of the raw allocator *)

Lemma non_null_app a b : non_null (a ++ b) = non_null a ++ non_null b.
Proof. apply filter_app. Qed.

Lemma non_null_idemp ps : non_null (non_null ps) = non_null ps.
Proof.
  unfold non_null. induction ps as [|p ps IH]; [done|].
  rewrite filter_cons. destruct (decide (p ≠ 0)); [|done].
  rewrite filter_cons, decide_True by done. by rewrite IH.
Qed.

Lemma non_null_cons p ps : p ≠ 0 → non_null (p :: ps) = p :: non_null ps.
Proof. intros Hp. unfold non_null. by rewrite filter_cons, decide_True. Qed.

Lemma non_null_live ls : non_null (live_allocs ls) = live_allocs ls.
Proof. apply non_null_idemp. Qed.

Lemma obtained_app a b : obtained (a ++ b) = obtained a ++ obtained b.
Proof. unfold obtained. by rewrite omap_app, non_null_app. Qed.

Lemma released_app a b : released (a ++ b) = released a ++ released b.
Proof. unfold released. by rewrite omap_app, non_null_app. Qed.

Lemma released_frees ps :
  released (EvFree <$> ps) = non_null ps ∧ obtained (EvFree <$> ps) = [].
Proof.
  unfold released, obtained.
  assert (omap raw_freed (EvFree <$> ps) = ps
          ∧ omap raw_result (EvFree <$> ps) = []) as [-> ->]; [|done].
  induction ps as [|p ps [IH1 IH2]]; [done|].
  split; [simpl; f_equal; exact IH1|exact IH2].
Qed.

Lemma handler_events_account cs :
  released (handler_events cs) = [] ∧ obtained (handler_events cs) = [].
Proof.
  unfold handler_events. induction (filter _ cs) as [|c l [IH1 IH2]]; [done|].
  split; [exact IH1|exact IH2].
Qed.

Lemma keeps_account_refl s : keeps_account s s.
Proof. exists []. split; [by rewrite app_nil_r|done]. Qed.

Lemma keeps_account_trans s1 s2 s3 :
  keeps_account s1 s2 → keeps_account s2 s3 → keeps_account s1 s3.
Proof.
  intros (e1 & Ht1 & H1) (e2 & Ht2 & H2). exists (e1 ++ e2).
  split; [by rewrite Ht2, Ht1, app_assoc|].
  rewrite obtained_app, released_app.
  rewrite <- (assoc_L (++) (released e1)), <- H2.
  rewrite (assoc_L (++) (released e1)), (comm (++) (released e1)).
  rewrite <- (assoc_L (++) (obtained e2)), <- H1.
  solve_Permutation.
Qed.

(** A step that touches neither the trace nor what the pool holds. *)
Lemma keeps_account_same s s' :
  st_trace s' = st_trace s → held (st_pool s') = held (st_pool s) →
  keeps_account s s'.
Proof.
  intros Ht Hh. exists []. split; [by rewrite app_nil_r|]. by rewrite Hh.
Qed.

Lemma pool_scan_selfs (aligned : bool) size bs m bs' :
  pool_scan aligned size bs = Some (m, bs') → d_self <$> bs' = d_self <$> bs.
Proof.
  revert m bs'. induction bs as [|b rest IH]; intros m bs'; simpl; [done|].
  destruct (_ <=? _).
  - by intros [= <- <-].
  - destruct (pool_scan aligned size rest) as [[m1 rest1]|]; [|done].
    intros [= <- <-]. rewrite !fmap_cons. by rewrite (IH _ _ eq_refl).
Qed.

Lemma failed_walk_selfs i bs c :
  d_self <$> (failed_walk i bs c).1 = d_self <$> bs.
Proof.
  revert i c. induction bs as [|b rest IH]; intros i c; [done|].
  destruct rest as [|b1 rest]; [done|].
  change (failed_walk i (b :: b1 :: rest) c)
    with (let '(rest', c') := failed_walk (S i) (b1 :: rest)
                                (if 4 <? d_failed b then Some (S i) else c) in
          (set_failed (size_t (d_failed b + 1)) b :: rest', c')).
  specialize (IH (S i) (if 4 <? d_failed b then Some (S i) else c)).
  destruct (failed_walk (S i) (b1 :: rest) _) as [rest' c']. cbn [fst] in *.
  rewrite (fmap_cons _ _ rest'), IH. done.
Qed.

Lemma pool_small_account (aligned : bool) size s p s' :
  pool_small aligned size s = Some (p, s') → keeps_account s s'.
Proof.
  unfold pool_small. msimpl.
  destruct (pool_scan _ _ _) as [[m bs]|] eqn:Es.
  - intros [= <- <-]. apply keeps_account_same; [done|]. unfold held. simpl.
    rewrite fmap_app, (pool_scan_selfs _ _ _ _ _ Es), <- fmap_app.
    by rewrite take_drop.
  - unfold ngx_palloc_block. msimpl.
    destruct (posix_memalign _ _ _) as [m h1]. simpl.
    destruct (Z.eqb_spec m 0) as [->|Hm].
    + intros [= <- <-]. by exists [EvMemalign NGX_POOL_ALIGNMENT (pool_psize (st_pool s)) 0].
    + pose proof (failed_walk_selfs (p_current (st_pool s))
                    (drop (p_current (st_pool s)) (p_d (st_pool s)))
                    (Some (p_current (st_pool s)))) as Hw.
      destruct (failed_walk _ _ _) as [walked c]. simpl in Hw.
      intros [= <- <-].
      exists [EvMemalign NGX_POOL_ALIGNMENT (pool_psize (st_pool s)) m].
      split; [done|].
      change (obtained [EvMemalign NGX_POOL_ALIGNMENT (pool_psize (st_pool s)) m])
        with (non_null [m]).
      change (released [EvMemalign NGX_POOL_ALIGNMENT (pool_psize (st_pool s)) m])
        with (@nil Z).
      unfold held. simpl. rewrite !fmap_app, Hw.
      rewrite (assoc_L (++) (d_self <$> take _ _)), <- fmap_app, take_drop.
      rewrite non_null_app. simpl. rewrite !non_null_cons by done.
      solve_Permutation.
Qed.

Lemma live_allocs_set ls i l q :
  ls !! i = Some l →
  non_null [l_alloc l] ++ live_allocs (<[i := set_alloc q l]> ls)
  ≡ₚ non_null [q] ++ live_allocs ls.
Proof.
  intros Hl. destruct (live_allocs_insert _ i l (set_alloc q l) Hl) as [-> ->].
  change (live_allocs [set_alloc q l]) with (non_null [q]).
  change (live_allocs [l]) with (non_null [l_alloc l]).
  solve_Permutation.
Qed.

Lemma ngx_palloc_large_account (palloc : Z → M Z) size s p s' :
  (∀ n s p s', palloc n s = Some (p, s') → keeps_account s s') →
  ngx_palloc_large palloc size s = Some (p, s') → keeps_account s s'.
Proof.
  intros Hrec. destruct (malloc size (st_heap s)) as [q h'] eqn:Eq.
  destruct (decide (q = 0)) as [->|Hq].
  { rewrite (ngx_palloc_large_null _ _ _ _ Eq). intros [= <- <-].
    by exists [EvMalloc size 0]. }
  rewrite (ngx_palloc_large_run _ _ _ _ _ Eq Hq). simpl.
  assert (obtained [EvMalloc size q] = [q]) as Hob.
  { unfold obtained, non_null. simpl. by rewrite filter_cons, decide_True. }
  destruct (first_empty _) as [i|] eqn:Ei.
  - intros [= <- <-]. exists [EvMalloc size q]. split; [done|].
    rewrite Hob. unfold held. simpl.
    apply first_empty_Some in Ei as [(l & Hl & Hz) _].
    pose proof (lookup_lt_Some _ _ _ Hl) as Hi. rewrite length_take in Hi.
    rewrite lookup_take_lt in Hl by lia.
    assert (alter (set_alloc q) i (p_large (st_pool s))
            = <[i := set_alloc q l]> (p_large (st_pool s))) as ->.
    { apply list_eq. intros j. rewrite list_lookup_alter.
      destruct (decide (i = j)) as [<-|Hne].
      - rewrite list_lookup_insert_eq by lia. by rewrite Hl.
      - by rewrite list_lookup_insert_ne. }
    pose proof (live_allocs_set _ i l q Hl) as Hp.
    rewrite Hz in Hp. change (non_null [0]) with (@nil Z) in Hp.
    rewrite non_null_cons in Hp by done. simpl in Hp.
    rewrite Hp. solve_Permutation.
  - destruct (palloc _ _) as [[r s1]|] eqn:Er; [|done].
    apply Hrec in Er as (evs & Ht & Hacc). simpl in *.
    destruct (r =? 0); intros [= <- <-].
    + exists ([EvMalloc size q] ++ evs ++ [EvFree q]).
      split; [simpl; by rewrite Ht, <- !app_assoc|].
      rewrite obtained_app, obtained_app, released_app, released_app, Hob.
      assert (released [EvFree q] = [q] ∧ obtained [EvFree q] = []
              ∧ released [EvMalloc size q] = []) as (-> & -> & ->).
      { unfold released, obtained, non_null. simpl.
        by rewrite filter_cons, decide_True. }
      simpl. rewrite app_nil_r, <- (assoc_L (++)). simpl.
      rewrite <- Permutation_middle, <- Hacc. done.
    + exists ([EvMalloc size q] ++ evs).
      split; [simpl; by rewrite Ht, <- !app_assoc|].
      rewrite obtained_app, released_app, Hob.
      assert (released [EvMalloc size q] = []) as -> by done. simpl.
      unfold held in *. simpl.
      change (live_allocs (mk_large r q :: p_large (st_pool s1)))
        with (non_null (q :: (l_alloc <$> p_large (st_pool s1)))).
      unfold non_null at 3. rewrite filter_cons, decide_True by done.
      fold (non_null (l_alloc <$> p_large (st_pool s1))).
      fold (live_allocs (p_large (st_pool s1))).
      rewrite (assoc_L (++) (released evs)), <- Permutation_middle.
      rewrite <- (assoc_L (++) (released evs)), <- Hacc. done.
Qed.

Lemma ngx_palloc_account fuel size s p s' :
  ngx_palloc fuel size s = Some (p, s') → keeps_account s s'.
Proof.
  revert size s p s'. induction fuel as [|fuel IH]; intros size s p s'; simpl.
  - destruct (_ <=? _); [apply pool_small_account|done].
  - destruct (_ <=? _); [apply pool_small_account|].
    apply ngx_palloc_large_account. intros n. apply IH.
Qed.

Lemma serve_account fuel req s p s' :
  serve fuel req s = Some (p, s') → keeps_account s s'.
Proof.
  destruct req as [size|size]; simpl; [apply ngx_palloc_account|].
  unfold ngx_pnalloc. destruct (_ <=? _); [apply pool_small_account|].
  destruct fuel as [|fuel]; [done|].
  apply ngx_palloc_large_account. intros n. apply ngx_palloc_account.
Qed.

Lemma ngx_pcalloc_account fuel size s p s' :
  ngx_pcalloc fuel size s = Some (p, s') → keeps_account s s'.
Proof.
  unfold ngx_pcalloc. unfold mbind at 1, M_bind at 1.
  destruct (ngx_palloc fuel size s) as [[q s1]|] eqn:Eq; [|done].
  apply ngx_palloc_account in Eq.
  destruct (q =? 0); msimpl; unfold ngx_memzero; msimpl; intros [= <- <-];
    (eapply keeps_account_trans; [exact Eq|]); [apply keeps_account_refl|].
  by apply keeps_account_same.
Qed.

Lemma ngx_pmemalign_account fuel size alignment s p s' :
  ngx_pmemalign fuel size alignment s = Some (p, s') → keeps_account s s'.
Proof.
  unfold ngx_pmemalign. unfold mbind at 1, M_bind at 1, ngx_memalign at 1.
  destruct (posix_memalign alignment size (st_heap s)) as [q h1].
  destruct (Z.eqb_spec q 0) as [->|Hq].
  { intros [= <- <-]. by exists [EvMemalign alignment size 0]. }
  unfold mbind at 1, M_bind at 1.
  destruct (ngx_palloc fuel _ _) as [[r s1]|] eqn:Er; [|done].
  apply ngx_palloc_account in Er as (evs & Ht & Hacc). simpl in *.
  assert (obtained [EvMemalign alignment size q] = [q]) as Hob.
  { unfold obtained, non_null. simpl. by rewrite filter_cons, decide_True. }
  destruct (r =? 0); msimpl; intros [= <- <-].
  - exists ([EvMemalign alignment size q] ++ evs ++ [EvFree q]).
    split; [simpl; by rewrite Ht, <- !app_assoc|].
    rewrite obtained_app, obtained_app, released_app, released_app, Hob.
    assert (released [EvFree q] = [q] ∧ obtained [EvFree q] = []
            ∧ released [EvMemalign alignment size q] = []) as (-> & -> & ->).
    { unfold released, obtained, non_null. simpl.
      by rewrite filter_cons, decide_True. }
    simpl. rewrite app_nil_r, <- (assoc_L (++)). simpl.
    rewrite <- Permutation_middle, <- Hacc. done.
  - exists ([EvMemalign alignment size q] ++ evs).
    split; [simpl; by rewrite Ht, <- !app_assoc|].
    rewrite obtained_app, released_app, Hob.
    assert (released [EvMemalign alignment size q] = []) as -> by done. simpl.
    unfold held in *. simpl.
    change (live_allocs (mk_large r q :: p_large (st_pool s1)))
      with (non_null (q :: (l_alloc <$> p_large (st_pool s1)))).
    unfold non_null at 3. rewrite filter_cons, decide_True by done.
    fold (non_null (l_alloc <$> p_large (st_pool s1))).
    fold (live_allocs (p_large (st_pool s1))).
    rewrite (assoc_L (++) (released evs)), <- Permutation_middle.
    rewrite <- (assoc_L (++) (released evs)), <- Hacc. done.
Qed.

Lemma ngx_pfree_account p s r s' :
  ngx_pfree p s = Some (r, s') → keeps_account s s'.
Proof.
  unfold ngx_pfree. msimpl.
  destruct (pfree_scan p (p_large (st_pool s))) as [ls|] eqn:Es; msimpl;
    intros [= <- <-]; [|apply keeps_account_refl].
  assert (∃ i l, p_large (st_pool s) !! i = Some l ∧ l_alloc l = p
                 ∧ ls = <[i := set_alloc 0 l]> (p_large (st_pool s)))
    as (i & l & Hl & Hp & ->).
  { clear -Es. revert ls Es.
    induction (p_large (st_pool s)) as [|l0 rest IH]; intros ls; simpl; [done|].
    destruct (Z.eqb_spec p (l_alloc l0)) as [E|E].
    - intros [= <-]. by exists 0%nat, l0.
    - destruct (pfree_scan p rest) as [ls1|]; [|done]. intros [= <-].
      destruct (IH _ eq_refl) as (i & l & Hl & Hp & ->). by exists (S i), l. }
  exists [EvFree p]. split; [done|]. unfold held. simpl.
  pose proof (live_allocs_set _ i l 0 Hl) as Hperm.
  assert (non_null [0] = []) as Hz by done. rewrite Hz in Hperm. simpl in Hperm.
  rewrite <- Hperm, Hp.
  assert (released [EvFree p] = non_null [p]) as -> by done.
  solve_Permutation.
Qed.

Lemma ngx_pool_cleanup_add_account fuel size s c s' :
  ngx_pool_cleanup_add fuel size s = Some (c, s') → keeps_account s s'.
Proof.
  unfold ngx_pool_cleanup_add. unfold mbind at 1, M_bind at 1.
  destruct (ngx_palloc fuel _ s) as [[r s1]|] eqn:Er; [|done].
  apply ngx_palloc_account in Er.
  destruct (r =? 0); msimpl; [by intros [= <- <-]|].
  destruct (size =? 0); msimpl.
  - intros [= <- <-]. eapply keeps_account_trans; [exact Er|].
    by apply keeps_account_same.
  - destruct (ngx_palloc fuel size s1) as [[d s2]|] eqn:Ed; [|done].
    apply ngx_palloc_account in Ed. simpl.
    pose proof (keeps_account_trans _ _ _ Er Ed) as Hacc.
    destruct (d =? 0); msimpl; intros [= <- <-]; [done|].
    eapply keeps_account_trans; [exact Hacc|]. by apply keeps_account_same.
Qed.

Lemma ngx_reset_pool_account s s' :
  ngx_reset_pool s = Some ((), s') → keeps_account s s'.
Proof.
  rewrite ngx_reset_pool_run. intros [= <-].
  exists (EvFree <$> live_allocs (p_large (st_pool s))). split; [done|].
  destruct (released_frees (live_allocs (p_large (st_pool s)))) as [-> ->].
  unfold held. simpl. rewrite non_null_live.
  assert (d_self <$> map (λ p, set_last (d_self p + sizeof_ngx_pool_t) p)
                       (p_d (st_pool s)) = d_self <$> p_d (st_pool s)) as ->.
  { induction (p_d (st_pool s)) as [|b bs IH]; [done|].
    rewrite map_cons, !fmap_cons. by rewrite IH. }
  change (live_allocs []) with (@nil Z). rewrite app_nil_r. solve_Permutation.
Qed.

Lemma run_op_account fuel o s s' :
  run_op fuel o s = Some ((), s') → keeps_account s s'.
Proof.
  destruct o as [r|size|size al|p|size|]; simpl;
    [unfold mbind, M_bind..|apply ngx_reset_pool_account].
  - destruct (serve fuel r s) as [[q s1]|] eqn:E; [|done].
    intros [= <-]. by apply serve_account in E.
  - destruct (ngx_pcalloc fuel size s) as [[q s1]|] eqn:E; [|done].
    intros [= <-]. by apply ngx_pcalloc_account in E.
  - destruct (ngx_pmemalign fuel size al s) as [[q s1]|] eqn:E; [|done].
    intros [= <-]. by apply ngx_pmemalign_account in E.
  - destruct (ngx_pfree p s) as [[q s1]|] eqn:E; [|done].
    intros [= <-]. by apply ngx_pfree_account in E.
  - destruct (ngx_pool_cleanup_add fuel size s) as [[q s1]|] eqn:E; [|done].
    intros [= <-]. by apply ngx_pool_cleanup_add_account in E.
Qed.

Lemma run_ops_account fuel os s s' :
  run_ops fuel os s = Some ((), s') → keeps_account s s'.
Proof.
  revert s. induction os as [|o os IH]; intros s; simpl.
  - intros [= <-]. apply keeps_account_refl.
  - unfold mbind, M_bind. destruct (run_op fuel o s) as [[[] s1]|] eqn:E; [|done].
    intros Hrest. eapply keeps_account_trans; [by eapply run_op_account|by apply IH].
Qed.

(** X10. Nothing leaks and nothing is freed twice over the life of a pool.
    The pool is made by [ngx_create_pool] with a size that is a multiple of
    [NGX_ALIGNMENT] and holds the pool header and a record of the large
    chain, and its [max] covers a cleanup record. It is used by any run of
    allocations, frees, resets and cleanup registrations in which no
    cleanup is registered before a reset (a reset hands out again the
    memory the cleanup records lie in, while [pool->cleanup] still points
    to them). Then the chunks obtained from the raw allocator and not yet
    given back are the pool's blocks and its live large buffers, and
    [ngx_destroy_pool] returns, after which every chunk obtained has been
    given back exactly as often as it was obtained. *)
Theorem pool_lifecycle_account (fuel : nat) (size : Z) (h : heap) (m : memory)
    (pre post : list pool_op) (s0 s1 : state) :
  (NGX_ALIGNMENT | size) →
  sizeof_ngx_pool_t + sizeof_ngx_pool_large_t <= size < 2 ^ word_bits →
  ngx_create_pool size h m = Some s0 →
  sizeof_ngx_pool_cleanup_t <= p_max (st_pool s0) →
  Forall op_ok (pre ++ post) →
  Forall (λ o, ∀ n, o ≠ OpCleanupAdd n) pre →
  Forall (λ o, o ≠ OpReset) post →
  run_ops fuel (pre ++ post) s0 = Some ((), s1) →
  obtained (st_trace s1) ≡ₚ released (st_trace s1) ++ held (st_pool s1)
  ∧ ∃ s2,
      ngx_destroy_pool s1 = Some ((), s2)
      ∧ obtained (st_trace s2) ≡ₚ released (st_trace s2).
Proof.
  intros _ _ Hc _ _ _ _ Hops.
  assert (obtained (st_trace s1) ≡ₚ released (st_trace s1) ++ held (st_pool s1))
    as Hacc.
  { apply run_ops_account in Hops as (evs & -> & Hacc).
    unfold ngx_create_pool in Hc.
    destruct (posix_memalign _ _ _) as [p h1].
    destruct (Z.eqb_spec p 0) as [|Hp]; [done|]. injection Hc as <-.
    simpl in *.
    rewrite (obtained_app [EvMemalign NGX_POOL_ALIGNMENT size p] evs).
    rewrite (released_app [EvMemalign NGX_POOL_ALIGNMENT size p] evs).
    assert (released [EvMemalign NGX_POOL_ALIGNMENT size p] = []) as -> by done.
    simpl. rewrite <- Hacc. unfold obtained, held, non_null. simpl.
    rewrite !filter_cons, !decide_True, filter_nil by done.
    change (live_allocs []) with (@nil Z). solve_Permutation. }
  split; [done|]. eexists. split; [apply ngx_destroy_pool_run|]. simpl.
  rewrite !obtained_app, !released_app.
  destruct (handler_events_account (p_cleanup (st_pool s1))) as [-> ->].
  destruct (released_frees (live_allocs (p_large (st_pool s1))
                            ++ (d_self <$> p_d (st_pool s1)))) as [-> ->].
  rewrite !app_nil_r. simpl. rewrite Hacc. unfold held.
  rewrite non_null_app, non_null_live. solve_Permutation.
Qed.

(** ** [ngx_pmemalign], slot reuse, [ngx_pcalloc] *)

(** X11. [ngx_pmemalign] takes its buffer from [posix_memalign] whatever
    the size, and always links a new record at the head of the large
    chain: an empty slot is not reused. [ngx_pfree] then accepts the
    pointer and empties that record. *)
Theorem pmemalign_registers (fuel : nat) (size alignment : Z) (s s' : state) (p : Z) :
  sizeof_ngx_pool_large_t <= p_max (st_pool s) →
  ngx_pmemalign fuel size alignment s = Some (p, s') →
  p ≠ 0 →
  (∃ h1, posix_memalign alignment size (st_heap s) = (p, h1))
  ∧ ∃ r, r ≠ 0
         ∧ p_large (st_pool s') = mk_large r p :: p_large (st_pool s)
         ∧ ngx_pfree p s'
           = Some (NGX_OK,
                   mk_state (set_large (mk_large r 0 :: p_large (st_pool s))
                               (st_pool s'))
                     (free p (st_heap s')) (st_mem s') (st_trace s' ++ [EvFree p])).
Proof.
  intros Hlarge. unfold ngx_pmemalign.
  unfold mbind at 1, M_bind at 1, ngx_memalign at 1.
  destruct (posix_memalign alignment size (st_heap s)) as [q h1] eqn:Eq.
  destruct (Z.eqb_spec q 0) as [->|Hq]; [by intros [= <- <-]|].
  unfold mbind at 1, M_bind at 1. rewrite ngx_palloc_small by done.
  destruct (pool_small true _ _) as [[r s1]|] eqn:Er; [|done].
  pose proof (pool_small_bump _ _ _ _ _ Er) as (Hl & _). simpl in Hl.
  destruct (Z.eqb_spec r 0) as [->|Hr]; msimpl; intros [= <- <-]; [done|].
  intros _. split; [by exists h1|]. exists r. simpl.
  split; [done|]. split; [by rewrite Hl|].
  unfold ngx_pfree. msimpl. rewrite Z.eqb_refl. msimpl. by rewrite Hl.
Qed.

Lemma pfree_scan_first_le p ls i l :
  ls !! i = Some l → l_alloc l = p →
  ∃ i0 l0, (i0 ≤ i)%nat ∧ ls !! i0 = Some l0 ∧ l_alloc l0 = p
           ∧ pfree_scan p ls = Some (<[i0 := set_alloc 0 l0]> ls).
Proof.
  revert i. induction ls as [|l1 rest IH]; intros i Hl Hp; [done|].
  simpl. destruct (Z.eqb_spec p (l_alloc l1)) as [E|E].
  - exists 0%nat, l1. split_and!; [lia|done|done|done].
  - destruct i as [|i]; [injection Hl as ->; congruence|].
    destruct (IH i Hl Hp) as (i0 & l0 & Hi0 & Hl0 & Hp0 & ->).
    exists (S i0), l0. split_and!; [lia|done|done|done].
Qed.

(** X12. A slot freed among the first five records is used again: after
    [ngx_pfree] of a buffer held there, the next large allocation takes its
    record from the chain, at that slot or an empty one before it; the
    chain is as long as before and the blocks are untouched. *)
Theorem pfree_then_large_reuses_slot (fuel : nat) (size : Z) (s : state)
    (p : Z) (i : nat) (l : ngx_pool_large_t) (q : Z) (h' : heap) :
  p_large (st_pool s) !! i = Some l →
  l_alloc l = p →
  (i < 5)%nat →
  p_max (st_pool s) < size →
  malloc size (free p (st_heap s)) = (q, h') →
  q ≠ 0 →
  ∃ s1 s2,
    ngx_pfree p s = Some (NGX_OK, s1)
    ∧ ngx_palloc (S fuel) size s1 = Some (q, s2)
    ∧ p_d (st_pool s2) = p_d (st_pool s)
    ∧ length (p_large (st_pool s2)) = length (p_large (st_pool s))
    ∧ ∃ j, (j ≤ i)%nat ∧ l_alloc <$> p_large (st_pool s2) !! j = Some q.
Proof.
  intros Hl Hp Hi Hsize Hq Hq0.
  destruct (pfree_scan_first_le p _ i l Hl Hp) as (i0 & l0 & Hi0 & Hl0 & Hp0 & Hscan).
  pose proof (lookup_lt_Some _ _ _ Hl0) as Hlen.
  set (ls1 := <[i0 := set_alloc 0 l0]> (p_large (st_pool s))) in *.
  assert (take 5 ls1 !! i0 = Some (set_alloc 0 l0)) as Hempty.
  { rewrite lookup_take_lt by lia. by apply list_lookup_insert_eq. }
  assert (∃ j lj, first_empty (take 5 ls1) = Some j ∧ (j ≤ i0)%nat
                  ∧ ls1 !! j = Some lj) as (j & lj & Ej & Hle & Hlj).
  { destruct (first_empty (take 5 ls1)) as [j|] eqn:Ej.
    - pose proof Ej as Ej'.
      apply first_empty_Some in Ej' as [(lj & Hlj & Hz) Hmin].
      exists j, lj. split; [done|].
      destruct (decide (j ≤ i0)%nat) as [Hle|Hgt].
      + split; [done|]. by rewrite lookup_take_lt in Hlj by lia.
      + by destruct (Hmin i0 (set_alloc 0 l0) ltac:(lia) Hempty).
    - rewrite first_empty_None in Ej. by destruct (Ej i0 _ Hempty). }
  eexists _, _. split.
  { unfold ngx_pfree. msimpl. rewrite Hscan. msimpl. reflexivity. }
  simpl. destruct (Z.leb_spec size (p_max (st_pool s))); [lia|].
  rewrite (ngx_palloc_large_run _ _ _ q h') by done. simpl. rewrite Ej.
  split; [reflexivity|]. simpl. split; [done|].
  rewrite length_alter. unfold ls1. rewrite length_insert. split; [done|].
  exists j. split; [lia|]. unfold ls1 in Hlj.
  rewrite list_lookup_alter, Hlj, decide_True by done. reflexivity.
Qed.

(** X13. [ngx_pcalloc] hands out a region of zero bytes and leaves the
    regions handed out before as they were: in a pool made by
    [ngx_create_pool] with a size that is a multiple of [NGX_ALIGNMENT] and
    holds the pool header, after any run of [ngx_palloc] and [ngx_pnalloc]
    calls none of which returned NULL, the region a successful
    [ngx_pcalloc] returns overlaps none of the regions returned by that
    run, its bytes are all zero, and every byte of those earlier regions
    is what it was before the call. *)
Theorem pcalloc_zeroes_its_region_only `{!PlatformOk} `{!RawAllocatorOk}
    (fuel : nat) (psize : Z) (h : heap) (m : memory) (s0 : state)
    (reqs : list request) (ps : list Z) (s : state)
    (size : Z) (s' : state) (p : Z) :
  (NGX_ALIGNMENT | psize) →
  sizeof_ngx_pool_t <= psize < 2 ^ word_bits →
  ngx_create_pool psize h m = Some s0 →
  Forall (λ r, 0 <= request_size r) reqs →
  serve_all fuel reqs s0 = Some (ps, s) →
  Forall (λ q, q ≠ 0) ps →
  0 <= size →
  ngx_pcalloc fuel size s = Some (p, s') →
  p ≠ 0 →
  (∀ x, p <= x < p + size → st_mem s' x = Byte.x00)
  ∧ ∀ r0, r0 ∈ zip ps (request_size <$> reqs) →
          region_disjoint r0 (p, size)
          ∧ ∀ x, r0.1 <= x < r0.1 + r0.2 → st_mem s' x = st_mem s x.
Proof.
  intros Hal Hpsize Hcreate Hsz Hrun Hps Hsize.
  pose proof (ngx_create_pool_layout _ _ _ _ Hal Hpsize Hcreate) as Hlay0.
  destruct (serve_all_lay _ _ _ _ _ Hlay0 Hsz Hrun Hps)
    as ((Hlay & Hmax & _) & _ & Hkinds & _).
  unfold ngx_pcalloc. unfold mbind at 1, M_bind at 1.
  destruct (ngx_palloc fuel size s) as [[q s1]|] eqn:Eq; [|done].
  destruct (Z.eqb_spec q 0) as [->|Hq]; msimpl; unfold ngx_memzero; msimpl;
    intros [= <- <-]; [done|]. intros _.
  pose proof (serve_lay fuel (Palloc size) s q s1 Hlay Hsize Eq Hq)
    as (_ & _ & Hbelow & Hraw).
  pose proof (ngx_palloc_frame _ _ _ _ _ Eq) as (_ & _ & Hmem & _).
  simpl in *. split.
  - intros x Hx.
    destruct (Z.leb_spec q x); [|lia]. by destruct (Z.ltb_spec x (q + size)); [|lia].
  - intros r0 Hr0.
    assert (region_disjoint r0 (q, size)) as Hdis.
    { rewrite Forall_forall in Hkinds. specialize (Hkinds r0 Hr0).
      destruct (bool_decide _); [by apply Hbelow|by apply Hraw]. }
    split; [done|]. intros x Hx. rewrite <- Hmem.
    unfold region_disjoint in Hdis. simpl in Hdis.
    destruct (Z.leb_spec q x); [|done].
    destruct (Z.ltb_spec x (q + size)); [lia|done].
Qed.

(** ** [ngx_pool_run_cleanup_file] *)

Lemma cleanup_file_scan_first fh (fd_of : Z → Z) fd pre c post :
  Forall (λ c', ¬ (c_handler c' = fh ∧ fd_of (c_data c') = fd)) pre →
  c_handler c = fh → fd_of (c_data c) = fd →
  cleanup_file_scan fh fd_of fd (pre ++ c :: post)
  = Some (c, pre ++ mk_cleanup (c_self c) 0 (c_data c) :: post).
Proof.
  intros Hpre Hh Hfd. induction Hpre as [|c' pre Hc' _ IH]; simpl.
  - rewrite Hh, Hfd, !Z.eqb_refl. done.
  - rewrite IH.
    destruct (Z.eqb_spec (c_handler c') fh); [|done].
    destruct (Z.eqb_spec (fd_of (c_data c')) fd); [|done]. tauto.
Qed.

Lemma handler_events_cleared pre c post :
  handler_events (pre ++ mk_cleanup (c_self c) 0 (c_data c) :: post)
  = handler_events (pre ++ post).
Proof.
  unfold handler_events. by rewrite !filter_app, filter_cons.
Qed.

(** X14. [ngx_pool_run_cleanup_file] runs the handler of the first record
    registered for the descriptor, once, and clears it: when the pool is
    destroyed afterwards, the handlers of the other records run and that
    one does not run again. *)
Theorem run_cleanup_file_runs_once (file_handler : Z) (read_fd : memory → Z → Z)
    (fd : Z) (s : state) (pre post : list ngx_pool_cleanup_t)
    (c : ngx_pool_cleanup_t) :
  p_cleanup (st_pool s) = pre ++ c :: post →
  c_handler c = file_handler →
  read_fd (st_mem s) (c_data c) = fd →
  Forall (λ c', ¬ (c_handler c' = file_handler
                   ∧ read_fd (st_mem s) (c_data c') = fd)) pre →
  ∃ s1 s2,
    ngx_pool_run_cleanup_file file_handler read_fd fd s = Some ((), s1)
    ∧ st_trace s1 = st_trace s ++ [EvHandler file_handler (c_data c)]
    ∧ ngx_destroy_pool s1 = Some ((), s2)
    ∧ st_trace s2
      = st_trace s1 ++ handler_events (pre ++ post)
          ++ (EvFree <$> (live_allocs (p_large (st_pool s))
                          ++ (d_self <$> p_d (st_pool s)))).
Proof.
  intros Hcs Hh Hfd Hpre. eexists _, _. split.
  { unfold ngx_pool_run_cleanup_file. msimpl. unfold get_mem. msimpl.
    rewrite Hcs, (cleanup_file_scan_first _ _ _ pre c post) by done.
    msimpl. reflexivity. }
  simpl. split; [by rewrite Hh|]. rewrite ngx_destroy_pool_run. simpl.
  split; [reflexivity|]. simpl. by rewrite handler_events_cleared.
Qed.

(** X15. Without a record registered for the descriptor under the file
    handler, [ngx_pool_run_cleanup_file] calls nothing and changes
    nothing, whatever other handlers hold that descriptor. *)
Theorem run_cleanup_file_no_match (file_handler : Z) (read_fd : memory → Z → Z)
    (fd : Z) (s : state) :
  Forall (λ c, ¬ (c_handler c = file_handler
                  ∧ read_fd (st_mem s) (c_data c) = fd))
    (p_cleanup (st_pool s)) →
  ngx_pool_run_cleanup_file file_handler read_fd fd s = Some ((), s).
Proof.
  intros Hnone. unfold ngx_pool_run_cleanup_file. msimpl. unfold get_mem. msimpl.
  assert (cleanup_file_scan file_handler (read_fd (st_mem s)) fd
            (p_cleanup (st_pool s)) = None) as ->; [|done].
  induction Hnone as [|c cs Hc _ IH]; simpl; [done|]. rewrite IH.
  destruct (Z.eqb_spec (c_handler c) file_handler); [|done].
  destruct (Z.eqb_spec (read_fd (st_mem s) (c_data c)) fd); [|done]. tauto.
Qed.

(** ** Arrays: [ngx_array_push_n], [ngx_array_init], [ngx_array_destroy] *)

Lemma size_t_id x : 0 <= x < 2 ^ word_bits → size_t x = x.
Proof. apply Z.mod_small. Qed.

(** X16. [ngx_array_push_n] on an array with [nelts <= nalloc], when the
    sizes do not overflow: a NULL result leaves the array as it was;
    otherwise the count grows by [n] and stays within the capacity, and the
    [n] slots returned are the next ones of the buffer and lie inside it.
    This holds for an array of capacity 0 as well. *)
Theorem array_push_n_slots (fuel : nat) (a a' : ngx_array_t) (n : Z)
    (s s' : state) (p : Z) :
  0 <= n →
  0 <= a_nelts a <= a_nalloc a →
  0 <= a_size a →
  2 * Z.max n (a_nalloc a) < 2 ^ word_bits →
  2 * Z.max n (a_nalloc a) * a_size a < 2 ^ word_bits →
  ngx_array_push_n fuel a n s = Some (p, a', s') →
  (p = 0 ∧ a' = a)
  ∨ (a_size a' = a_size a
     ∧ a_nelts a' = a_nelts a + n
     ∧ a_nelts a' <= a_nalloc a'
     ∧ p = a_elts a' + a_size a * a_nelts a
     ∧ p + n * a_size a <= a_elts a' + a_nalloc a' * a_size a).
Proof.
  intros Hn Hne Hsz Hcap Hbytes.
  destruct a as [elts nelts size nalloc]. simpl in *.
  assert (size_t (nelts + n) = nelts + n) as En by (apply size_t_id; lia).
  assert (size_t (size * nelts) = size * nelts) as Eslot by (apply size_t_id; nia).
  unfold ngx_array_push_n, array_take_slots. simpl. rewrite En, Eslot.
  destruct (Z.ltb_spec nalloc (nelts + n)) as [Hfull|Hroom].
  - msimpl. destruct (p_d (st_pool s)) as [|d rest]; msimpl.
    { intros [= <- <- <-]. by left. }
    destruct (_ && _).
    + msimpl. intros [= <- <- <-]. right. simpl.
      rewrite (size_t_id (nalloc + n)) by lia. split_and!; [done|done|lia|done|nia].
    + destruct (ngx_palloc fuel _ s) as [[new s0]|]; [|done].
      destruct (new =? 0); msimpl; [intros [= <- <- <-]; by left|].
      unfold ngx_memcpy. msimpl. intros [= <- <- <-].
      right. simpl.
      assert (size_t (2 * (if nalloc <=? n then n else nalloc))
              = 2 * Z.max n nalloc) as ->.
      { rewrite size_t_id; destruct (Z.leb_spec nalloc n); lia. }
      split_and!; [done|done|lia|done|nia].
  - intros [= <- <- <-]. right. simpl. split_and!; [done|done|lia|done|nia].
Qed.

(** X17. The elements of an array survive [ngx_array_push_n]: byte [i] of
    the buffer after the call, wherever the buffer now is, is byte [i] of
    the buffer before it. *)
Theorem array_push_n_keeps_elements (fuel : nat) (a a' : ngx_array_t) (n : Z)
    (s s' : state) (p : Z) :
  0 <= a_nelts a * a_size a < 2 ^ word_bits →
  ngx_array_push_n fuel a n s = Some (p, a', s') →
  ∀ i, 0 <= i < a_nelts a * a_size a →
       st_mem s' (a_elts a' + i) = st_mem s (a_elts a + i).
Proof.
  intros Hbytes. destruct a as [elts nelts size nalloc]. simpl in *.
  unfold ngx_array_push_n, array_take_slots. simpl.
  destruct (_ <? _).
  - msimpl. destruct (p_d (st_pool s)) as [|d rest]; msimpl.
    { by intros [= <- <- <-]. }
    destruct (_ && _).
    + msimpl. by intros [= <- <- <-].
    + destruct (ngx_palloc fuel _ s) as [[new s0]|] eqn:Enew; [|done].
      pose proof (ngx_palloc_frame _ _ _ _ _ Enew) as (_ & _ & Hmem & _).
      destruct (new =? 0); msimpl.
      { intros [= <- <- <-] i Hi. simpl. by rewrite Hmem. }
      unfold ngx_memcpy. msimpl. intros [= <- <- <-] i Hi. simpl.
      rewrite (size_t_id (nelts * size)) by done. rewrite Hmem.
      destruct (Z.leb_spec new (new + i)); [|lia].
      destruct (Z.ltb_spec (new + i) (new + nelts * size)); [|lia]. simpl.
      f_equal. lia.
  - by intros [= <- <- <-].
Qed.

(** X18. On an array of capacity at least 1 with [nelts <= nalloc],
    [ngx_array_push_n] with [n = 1] does what [ngx_array_push] does: the
    same result, array and pool. *)
Theorem array_push_n_one_is_push (fuel : nat) (a : ngx_array_t) (s : state) :
  1 <= a_nalloc a →
  0 <= a_nelts a <= a_nalloc a →
  a_nalloc a + 1 < 2 ^ word_bits →
  0 <= a_size a < 2 ^ word_bits →
  ngx_array_push_n fuel a 1 s = ngx_array_push fuel a s.
Proof.
  intros Hcap Hne Hw Hsz. destruct a as [elts nelts size nalloc]. simpl in *.
  unfold ngx_array_push_n, ngx_array_push, array_take_slots, array_take_slot.
  simpl.
  rewrite (size_t_id (nelts + 1)) by lia.
  assert (size_t (1 * size) = size) as -> by (rewrite Z.mul_1_l; by apply size_t_id).
  destruct (Z.ltb_spec nalloc (nelts + 1)) as [Hfull|Hroom];
    destruct (Z.eqb_spec nelts nalloc) as [->|Hneq]; try lia; [|done].
  msimpl. destruct (p_d (st_pool s)) as [|d rest]; [done|].
  destruct (_ && _); [done|].
  assert (size_t (2 * (if nalloc <=? 1 then 1 else nalloc)) = size_t (nalloc * 2))
    as ->.
  { destruct (Z.leb_spec nalloc 1); f_equal; lia. }
  assert (size_t (size_t (nalloc * 2) * size) = size_t (2 * size_t (size * nalloc)))
    as ->.
  { unfold size_t. rewrite Z.mul_mod_idemp_l, Z.mul_mod_idemp_r by lia.
    f_equal. lia. }
  by rewrite (Z.mul_comm nalloc size).
Qed.

(** X19. [ngx_array_push] on an empty array of capacity 0 whose buffer does
    not end at the cursor of the pool: the buffer it takes from the pool
    has 0 bytes, the capacity stays 0 while the count becomes 1, and the
    slot returned is the start of that buffer. The pool is left as a
    request of 0 bytes leaves it: no byte is reserved for the element. *)
Theorem array_push_zero_capacity `{!PlatformOk} (fuel : nat) (a a' : ngx_array_t)
    (s s' : state) (d : ngx_pool_data_t) (rest : list ngx_pool_data_t) (p : Z) :
  a_nalloc a = 0 → a_nelts a = 0 →
  p_d (st_pool s) = d :: rest →
  a_elts a ≠ d_last d →
  ngx_array_push fuel a s = Some (p, a', s') →
  p ≠ 0 →
  a' = mk_array p 1 (a_size a) 0
  ∧ ∃ s0, ngx_palloc fuel 0 s = Some (p, s0)
          ∧ st_pool s' = st_pool s0 ∧ st_heap s' = st_heap s0
          ∧ st_trace s' = st_trace s0.
Proof.
  intros Hcap Hne Hd Hnot. destruct a as [elts nelts size nalloc]. simpl in *.
  subst nelts nalloc. unfold ngx_array_push, array_take_slot. simpl.
  rewrite !Z.mul_0_r.
  assert (size_t 0 = 0) as E0 by done.
  assert (size_t (0 + 1) = 1) as E1 by (apply size_t_small; lia).
  rewrite !E0. msimpl. rewrite Hd, Z.add_0_r.
  destruct (Z.eqb_spec elts (d_last d)) as [|_]; [done|]. simpl.
  destruct (ngx_palloc fuel 0 s) as [[new s0]|]; [|done].
  destruct (Z.eqb_spec new 0) as [->|Hnew]; msimpl; [by intros [= <- <- <-]|].
  unfold ngx_memcpy. msimpl. rewrite E1, Z.add_0_r.
  change (size_t (0 * 2)) with (size_t 0). rewrite E0.
  intros [= <- <- <-] _. split; [done|]. by eexists.
Qed.

(** X20. [ngx_array_destroy] gives back the buffer of the array made last:
    when [ngx_array_init] took the buffer from the first block of a pool
    and nothing was allocated since, the first test of [ngx_array_destroy]
    moves the cursor of that block back to where the buffer began. The
    second test then moves it on to the array header at [a] when the header
    ends exactly where the buffer began (as when the header was allocated
    just before the buffer), and leaves it at the start of the buffer
    otherwise. Nothing else in the pool has changed. *)
Theorem array_init_then_destroy (fuel : nat) (n size a : Z) (s : state)
    (d : ngx_pool_data_t) (rest : list ngx_pool_data_t) :
  p_d (st_pool s) = d :: rest →
  p_current (st_pool s) = 0%nat →
  size_t (n * size) <= p_max (st_pool s) →
  has_room true (size_t (n * size)) d →
  ngx_align_ptr (d_last d) NGX_ALIGNMENT ≠ 0 →
  ∃ arr s1 s2,
    ngx_array_init fuel n size s = Some (0, arr, s1)
    ∧ a_elts arr = ngx_align_ptr (d_last d) NGX_ALIGNMENT
    ∧ p_d (st_pool s1)
      = set_last (ngx_align_ptr (d_last d) NGX_ALIGNMENT + size_t (n * size)) d
          :: rest
    ∧ ngx_array_destroy a arr s1 = Some ((), s2)
    ∧ st_pool s2
      = set_d (set_last
                 (if decide (a + sizeof_ngx_array_t
                             = ngx_align_ptr (d_last d) NGX_ALIGNMENT)
                  then a else ngx_align_ptr (d_last d) NGX_ALIGNMENT) d :: rest)
          (st_pool s)
    ∧ st_heap s2 = st_heap s ∧ st_mem s2 = st_mem s ∧ st_trace s2 = st_trace s.
Proof.
  intros Hd Hcur Hmax Hroom Hnz. unfold has_room in Hroom.
  assert (ngx_palloc fuel (size_t (n * size)) s
          = Some (ngx_align_ptr (d_last d) NGX_ALIGNMENT,
                  mk_state
                    (set_d (set_last (ngx_align_ptr (d_last d) NGX_ALIGNMENT
                                      + size_t (n * size)) d :: rest) (st_pool s))
                    (st_heap s) (st_mem s) (st_trace s))) as Hp.
  { rewrite ngx_palloc_small by done. unfold pool_small. msimpl.
    rewrite Hcur, Hd. simpl.
    by destruct (Z.leb_spec (size_t (n * size))
                   (size_t (d_end d - ngx_align_ptr (d_last d) NGX_ALIGNMENT)));
      [|lia]. }
  assert (ngx_array_init fuel n size s
          = Some (0, mk_array (ngx_align_ptr (d_last d) NGX_ALIGNMENT) 0 size n,
                  mk_state
                    (set_d (set_last (ngx_align_ptr (d_last d) NGX_ALIGNMENT
                                      + size_t (n * size)) d :: rest) (st_pool s))
                    (st_heap s) (st_mem s) (st_trace s))) as Hi.
  { unfold ngx_array_init. unfold mbind, M_bind. rewrite Hp.
    destruct (Z.eqb_spec (ngx_align_ptr (d_last d) NGX_ALIGNMENT) 0); [done|].
    reflexivity. }
  destruct (decide (a + sizeof_ngx_array_t
                    = ngx_align_ptr (d_last d) NGX_ALIGNMENT)) as [Ha|Ha];
    eexists _, _, _; (split; [exact Hi|]); simpl;
    (split; [done|]); (split; [done|]);
    unfold ngx_array_destroy; msimpl;
    rewrite (Z.mul_comm size n), Z.eqb_refl; simpl;
    replace (ngx_align_ptr (d_last d) NGX_ALIGNMENT + size_t (n * size)
             - size_t (n * size))
      with (ngx_align_ptr (d_last d) NGX_ALIGNMENT) by lia;
    (destruct (Z.eqb_spec (a + sizeof_ngx_array_t)
                (ngx_align_ptr (d_last d) NGX_ALIGNMENT)); try done);
    (split; [reflexivity|]); simpl; by destruct (st_pool s), d.
Qed.
(** ** Lists: what a push adds *)

Lemma sum_app (xs ys : list Z) :
  foldr Z.add 0 (xs ++ ys) = foldr Z.add 0 xs + foldr Z.add 0 ys.
Proof. induction xs as [|x xs IH]; simpl; lia. Qed.

(** X21. A push that succeeds adds one element to a list: the total count
    grows by one, every part stays within the capacity, and the slot
    returned is the last taken slot of the part [l->last]. *)
Theorem list_push_adds_one (fuel : nat) (l l' : ngx_list_t) (s s' : state) (e : Z) :
  list_wf l →
  1 <= l_nalloc l < 2 ^ word_bits →
  0 <= l_size l →
  l_size l * l_nalloc l < 2 ^ word_bits →
  Forall (λ p, 0 <= part_nelts p <= l_nalloc l) (l_parts l) →
  ngx_list_push fuel l s = Some (e, l', s') →
  e ≠ 0 →
  list_total l' = list_total l + 1
  ∧ l_nalloc l' = l_nalloc l ∧ l_size l' = l_size l
  ∧ Forall (λ p, 0 <= part_nelts p <= l_nalloc l) (l_parts l')
  ∧ ∃ last, l_parts l' !! l_last l' = Some last
            ∧ 1 <= part_nelts last
            ∧ e = part_elts last + l_size l * (part_nelts last - 1).
Proof.
  intros [Hlast Hfull] Hcap Hsz Hbytes Hcounts. unfold ngx_list_push.
  destruct (l_parts l !! l_last l) as [last|] eqn:Elast; [|by intros [= <- <- <-]].
  pose proof (proj1 (Forall_lookup _ _) Hcounts _ _ Elast) as Hn. simpl in Hn.
  assert (size_t (0 + 1) = 1) as E1 by (apply size_t_id; lia).
  destruct (Z.eqb_spec (part_nelts last) (l_nalloc l)) as [Heq|Hne].
  - unfold mbind at 1, M_bind at 1.
    destruct (ngx_palloc fuel _ s) as [[part s0]|]; [|done].
    destruct (part =? 0); [by intros [= <- <- <-]|].
    unfold mbind at 1, M_bind at 1.
    destruct (ngx_palloc fuel _ s0) as [[elts s1]|]; [|done].
    destruct (elts =? 0); [by intros [= <- <- <-]|].
    intros [= <- <- <-] _. rewrite E1, Hlast, firstn_all.
    unfold list_total, list_counts. simpl. rewrite fmap_app, sum_app. simpl.
    split; [lia|]. split; [done|]. split; [done|]. split.
    + apply Forall_app. split; [done|]. apply Forall_singleton. simpl. lia.
    + exists (mk_part elts 1). rewrite ?Hlast.
      rewrite lookup_app_r, Nat.sub_diag by lia. simpl.
      rewrite Z.mul_0_r. change (size_t 0) with 0.
      split; [done|]. split; lia.
  - intros [= <- <- <-] _.
    rewrite (size_t_id (part_nelts last + 1)) by lia.
    rewrite (size_t_id (l_size l * part_nelts last)) by nia.
    pose proof (lookup_lt_Some _ _ _ Elast) as Hlt.
    unfold list_total, list_counts. simpl. split.
    + rewrite <- (take_drop_middle _ _ _ Elast) at 2.
      rewrite insert_take_drop by done.
      rewrite !fmap_app, !fmap_cons, !sum_app. simpl. lia.
    + split; [done|]. split; [done|]. split.
      * apply Forall_insert; [done|]. simpl. lia.
      * eexists. rewrite list_lookup_insert_eq by done. split; [done|].
        simpl. split; [lia|]. f_equal. f_equal. lia.
Qed.

(** ** Pools that are too small *)

(** X22. [ngx_create_pool] does not check its size. With a size below
    [sizeof(ngx_pool_t)] the subtraction for [max] wraps around: [max] is
    [NGX_MAX_ALLOC_FROM_POOL], the cursor of the block lies behind its end,
    and every request up to [max] is served at the cursor, beyond the end
    of the chunk the pool was given. *)
Theorem create_pool_below_header_size `{!PlatformOk} `{!RawAllocatorOk}
    (fuel : nat) (size : Z) (h : heap) (m : memory) (s : state) (n : Z) :
  0 <= size < sizeof_ngx_pool_t →
  sizeof_ngx_pool_t + NGX_MAX_ALLOC_FROM_POOL <= 2 ^ word_bits →
  ngx_create_pool size h m = Some s →
  0 <= n <= NGX_MAX_ALLOC_FROM_POOL →
  ∃ b s',
    p_d (st_pool s) = [b]
    ∧ d_end b = d_self b + size
    ∧ p_max (st_pool s) = NGX_MAX_ALLOC_FROM_POOL
    ∧ ngx_palloc fuel n s = Some (d_self b + sizeof_ngx_pool_t, s')
    ∧ d_end b < d_self b + sizeof_ngx_pool_t.
Proof.
  intros Hsize Hw. unfold ngx_create_pool.
  destruct (posix_memalign _ _ _) as [p h1] eqn:Ep.
  destruct (Z.eqb_spec p 0) as [|Hp]; [done|]. intros [= <-] Hn.
  apply posix_memalign_fresh in Ep as (_ & _ & Hal); [|done].
  pose proof alignment_pos. pose proof max_alloc_range.
  assert (size_t (size - sizeof_ngx_pool_t)
          = 2 ^ word_bits + size - sizeof_ngx_pool_t) as Ewrap.
  { unfold size_t.
    replace (size - sizeof_ngx_pool_t)
      with (2 ^ word_bits + size - sizeof_ngx_pool_t + (-1) * 2 ^ word_bits) by lia.
    rewrite Z.mod_add by lia. apply Z.mod_small. lia. }
  assert (ngx_align_ptr (p + sizeof_ngx_pool_t) NGX_ALIGNMENT
          = p + sizeof_ngx_pool_t) as Eal.
  { apply ngx_align_ptr_aligned; [done|]. apply Z.divide_add_r.
    - etrans; [apply alignment_pool|done].
    - apply sizeof_pool_aligned. }
  eexists _, _. simpl. split; [reflexivity|]. simpl. split; [done|].
  rewrite Ewrap.
  destruct (Z.ltb_spec (2 ^ word_bits + size - sizeof_ngx_pool_t)
              NGX_MAX_ALLOC_FROM_POOL); [lia|].
  split; [done|]. split; [|lia].
  rewrite ngx_palloc_small by (simpl; lia).
  unfold pool_small. msimpl. rewrite Eal.
  replace (p + size - (p + sizeof_ngx_pool_t)) with (size - sizeof_ngx_pool_t) by lia.
  rewrite Ewrap.
  destruct (Z.leb_spec n (2 ^ word_bits + size - sizeof_ngx_pool_t)); [|lia].
  reflexivity.
Qed.

(** X23. A pool whose [max] is below [sizeof(ngx_pool_large_t)] cannot
    register a large allocation unless an empty slot is at hand: the
    record is itself a large request, so [ngx_palloc] calls itself until
    [malloc] fails. Every request above [max] then returns NULL, and the
    pool is as it was. *)
Theorem tiny_pool_large_request_fails (fuel : nat) (req : request)
    (s s' : state) (p : Z) :
  p_max (st_pool s) < sizeof_ngx_pool_large_t →
  p_max (st_pool s) < request_size req →
  first_empty (take 5 (p_large (st_pool s))) = None →
  serve fuel req s = Some (p, s') →
  p = 0 ∧ st_pool s' = st_pool s.
Proof.
  intros Htiny Hsize Hnone.
  pose proof ngx_palloc_tiny_null as Hpalloc.
  destruct req as [size|size]; simpl in *; [by apply Hpalloc|].
  unfold ngx_pnalloc. destruct (Z.leb_spec size (p_max (st_pool s))); [lia|].
  destruct fuel as [|fuel]; [done|].
  destruct (malloc size (st_heap s)) as [q h'] eqn:Eq.
  destruct (decide (q = 0)) as [->|Hq].
  { rewrite (ngx_palloc_large_null _ _ _ _ Eq). by intros [= <- <-]. }
  rewrite (ngx_palloc_large_run _ _ _ _ _ Eq Hq). simpl. rewrite Hnone.
  destruct (ngx_palloc fuel _ _) as [[r s1]|] eqn:Er; [|done].
  apply Hpalloc in Er as [-> Hpool]; [|done..]. simpl in Hpool.
  by intros [= <- <-].
Qed.

(** ** Freeing twice *)

(** X24. Freeing a large buffer twice is caught: when the live buffers of
    the chain are distinct, a second [ngx_pfree] of a pointer that was just
    freed returns [NGX_DECLINED] and does not call [free] again. This does
    not hold for NULL. *)
Theorem pfree_twice_declined (s s1 : state) (p : Z) :
  p ≠ 0 →
  NoDup (live_allocs (p_large (st_pool s))) →
  ngx_pfree p s = Some (NGX_OK, s1) →
  ngx_pfree p s1 = Some (NGX_DECLINED, s1).
Proof.
  intros Hp Hnd. unfold ngx_pfree at 1. msimpl.
  destruct (pfree_scan p (p_large (st_pool s))) as [ls1|] eqn:Es; msimpl;
    [|done]. intros [= <-].
  assert (∃ i l, p_large (st_pool s) !! i = Some l ∧ l_alloc l = p
                 ∧ ls1 = <[i := set_alloc 0 l]> (p_large (st_pool s)))
    as (i & l & Hl & Hpl & ->).
  { clear -Es. revert ls1 Es.
    induction (p_large (st_pool s)) as [|l0 rest IH]; intros ls; simpl; [done|].
    destruct (Z.eqb_spec p (l_alloc l0)) as [E|E].
    - intros [= <-]. by exists 0%nat, l0.
    - destruct (pfree_scan p rest) as [ls1|]; [|done]. intros [= <-].
      destruct (IH _ eq_refl) as (i & l & Hl & Hp & ->). by exists (S i), l. }
  unfold ngx_pfree. msimpl. rewrite pfree_scan_none; [done|].
  destruct (live_allocs_insert _ i l (set_alloc 0 l) Hl) as [_ Hlive].
  rewrite Hlive, live_allocs_one, decide_True in Hnd by congruence.
  rewrite Hpl in Hnd.
  apply NoDup_app in Hnd as (_ & Hfront & Hnd). simpl in Hnd.
  apply NoDup_cons in Hnd as [Hback _].
  assert (∀ ls, p ∉ live_allocs ls → Forall (λ l', l_alloc l' ≠ p) ls) as Hall.
  { clear -Hp. intros ls Hnot. apply Forall_forall. intros l' Hl' Heq.
    apply Hnot. unfold live_allocs. apply list_elem_of_filter. split; [done|].
    apply list_elem_of_fmap. by exists l'. }
  rewrite insert_take_drop by (by eapply lookup_lt_Some).
  apply Forall_app. split.
  - apply Hall. intros Hin. by apply (Hfront p Hin), list_elem_of_here.
  - apply Forall_cons. split; [simpl; congruence|]. by apply Hall.
Qed.

(** ** The invariant over the life of a pool *)





















(** ** Cleanup records in a pool that was not reset *)

(** Regions of positive size that do not overlap start at distinct
    addresses. *)
Lemma pairwise_disjoint_NoDup (rs : list region) :
  Forall (λ r, 0 < r.2) rs → pairwise_disjoint rs → NoDup (fst <$> rs).
Proof.
  induction rs as [|r rs IH]; simpl; [constructor|].
  intros Hpos [Hr Hrs]. apply Forall_cons in Hpos as [Hr0 Hpos].
  apply NoDup_cons. split; [|by apply IH].
  intros Hin. apply list_elem_of_fmap in Hin as (r' & Heq & Hr').
  rewrite Forall_forall in Hr, Hpos.
  specialize (Hr r' Hr'). specialize (Hpos r' Hr').
  unfold region_disjoint in Hr. lia.
Qed.

(** A registration takes the record from the blocks like any small
    request. *)
Lemma register_lay `{!PlatformOk} `{!RawAllocatorOk} fuel r s c s' :
  pool_layout s →
  sizeof_ngx_pool_cleanup_t <= p_max (st_pool s) →
  register fuel r s = Some (c, s') →
  c ≠ 0 →
  step_lay s s' (c, sizeof_ngx_pool_cleanup_t) true.
Proof.
  intros Hlay Hmax. pose proof sizeof_cleanup_pos.
  unfold register, ngx_pool_cleanup_add.
  unfold mbind at 1, M_bind at 1. unfold mbind at 1, M_bind at 1.
  destruct (ngx_palloc fuel sizeof_ngx_pool_cleanup_t s) as [[c0 s0]|] eqn:E0;
    [|done].
  destruct (Z.eqb_spec c0 0) as [->|N0]; msimpl; [by intros [= <- <-]|].
  destruct (Z.eqb_spec c0 0) as [|_]; [done|].
  unfold cleanup_set. msimpl. intros [= <- <-] _.
  assert (0 <= request_size (Palloc sizeof_ngx_pool_cleanup_t)) as Hpos
    by (simpl; lia).
  pose proof (serve_lay fuel (Palloc sizeof_ngx_pool_cleanup_t) s c0 s0 Hlay
                Hpos E0 N0) as Hstep.
  simpl in Hstep. rewrite bool_decide_eq_true_2 in Hstep by done.
  eapply step_lay_frame; [exact Hstep|].
  apply same_layout_frame; [apply Hstep|done..].
Qed.

(** The records of a run of registrations. *)
Lemma register_all_lay `{!PlatformOk} `{!RawAllocatorOk} fuel regs s cs s' :
  pool_layout s →
  sizeof_ngx_pool_cleanup_t <= p_max (st_pool s) →
  register_all fuel regs s = Some (cs, s') →
  Forall (λ c, c ≠ 0) cs →
  let records := (λ c, (c, sizeof_ngx_pool_cleanup_t)) <$> cs in
  frame_lay s s'
  ∧ pairwise_disjoint records
  ∧ (∀ r0, below_cursor s r0 ∨ in_raw s r0 → Forall (region_disjoint r0) records).
Proof.
  revert s cs s'. induction regs as [|r regs IH]; intros s cs s' Hlay Hmax; simpl.
  - intros [= <- <-] _. split_and!; try done.
  - unfold mbind at 1, M_bind at 1.
    destruct (register fuel r s) as [[c s1]|] eqn:E1; [|done].
    unfold mbind at 1, M_bind at 1.
    destruct (register_all fuel regs s1) as [[cs1 s2]|] eqn:E2; [|done].
    intros [= <- <-] Hcs. apply Forall_cons in Hcs as [Hc Hcs].
    apply register_lay in E1 as (Hf1 & Hr1 & Hdb & Hdr); [|done..].
    pose proof Hf1 as (Hlay1 & Hmax1 & Hb1 & Hraw1).
    destruct (IH _ _ _ Hlay1 ltac:(by rewrite Hmax1) E2 Hcs)
      as (Hf2 & Hpd & Hold).
    simpl. split_and!.
    + by eapply frame_lay_trans.
    + apply Forall_impl with (P := region_disjoint (c, sizeof_ngx_pool_cleanup_t));
        [|done].
      apply Hold. by left.
    + done.
    + intros r0 Hr0. apply Forall_cons. split.
      * destruct Hr0; auto.
      * apply Hold. destruct Hr0; auto.
Qed.

Lemma serve_all_cleanup fuel reqs s ps s' :
  serve_all fuel reqs s = Some (ps, s') →
  p_cleanup (st_pool s') = p_cleanup (st_pool s)
  ∧ p_max (st_pool s') = p_max (st_pool s).
Proof.
  revert s ps s'. induction reqs as [|req reqs IH]; intros s ps s'; simpl.
  - by intros [= <- <-].
  - unfold mbind at 1, M_bind at 1.
    destruct (serve fuel req s) as [[p s1]|] eqn:E1; [|done].
    unfold mbind at 1, M_bind at 1.
    destruct (serve_all fuel reqs s1) as [[ps1 s2]|] eqn:E2; [|done].
    intros [= <- <-]. apply IH in E2 as [-> ->].
    destruct req; simpl in E1;
      [apply ngx_palloc_frame in E1|apply ngx_pnalloc_frame in E1];
      by destruct E1 as (-> & -> & _).
Qed.

(** X27. In a pool that was never reset, [ngx_destroy_pool] runs every
    registered cleanup exactly once, last registered first, before it
    frees anything. The pool is made by [ngx_create_pool] with a size that
    is a multiple of [NGX_ALIGNMENT], holds the pool header and leaves a
    [max] that covers a cleanup record; a run of [ngx_palloc] and
    [ngx_pnalloc] calls and then a run of registrations
    ([ngx_pool_cleanup_add(p, 0)] followed by the stores of a non-NULL
    handler and its data) follow, none returning NULL. Then the cleanup
    records lie at distinct addresses and overlap neither one another nor
    a region returned to the caller, the cleanup chain holds them last
    registered first, and the trace of [ngx_destroy_pool] is the handler
    calls in that order followed by frees only. *)
Theorem fresh_pool_cleanups_lifo `{!PlatformOk} `{!RawAllocatorOk}
    (fuel : nat) (size : Z) (h : heap) (m : memory) (s0 : state)
    (reqs : list request) (ps : list Z) (s : state)
    (regs : list (Z * Z)) (cs : list Z) (s1 : state) :
  (NGX_ALIGNMENT | size) →
  sizeof_ngx_pool_t <= size < 2 ^ word_bits →
  ngx_create_pool size h m = Some s0 →
  sizeof_ngx_pool_cleanup_t <= p_max (st_pool s0) →
  Forall (λ r, 0 <= request_size r) reqs →
  serve_all fuel reqs s0 = Some (ps, s) →
  Forall (λ p, p ≠ 0) ps →
  register_all fuel regs s = Some (cs, s1) →
  Forall (λ c, c ≠ 0) cs →
  Forall (λ r : Z * Z, r.1 ≠ 0) regs →
  NoDup cs
  ∧ pairwise_disjoint (zip ps (request_size <$> reqs)
                       ++ ((λ c, (c, sizeof_ngx_pool_cleanup_t)) <$> cs))
  ∧ p_cleanup (st_pool s1)
    = reverse (zip_with (λ c r, mk_cleanup c r.1 r.2) cs regs)
  ∧ ∃ s2,
      ngx_destroy_pool s1 = Some ((), s2)
      ∧ st_trace s2 =
          st_trace s1
            ++ ((λ r, EvHandler r.1 r.2) <$> reverse regs)
            ++ (EvFree <$> (live_allocs (p_large (st_pool s1))
                            ++ (d_self <$> p_d (st_pool s1)))).
Proof.
  intros Hal Hsize Hcreate Hmax Hsz Hserve Hps Hreg Hcs Hregs.
  pose proof (ngx_create_pool_layout _ _ _ _ Hal Hsize Hcreate) as Hlay0.
  assert (p_cleanup (st_pool s0) = []) as Hc0.
  { revert Hcreate. unfold ngx_create_pool.
    destruct (posix_memalign _ _ _) as [p h1]. destruct (p =? 0); [done|].
    by intros [= <-]. }
  destruct (serve_all_lay _ _ _ _ _ Hlay0 Hsz Hserve Hps)
    as ((Hlay & _) & Hpd & Hkinds & _).
  destruct (serve_all_cleanup _ _ _ _ _ Hserve) as [Hcl Hmax'].
  rewrite Hc0 in Hcl.
  destruct (register_all_lay _ _ _ _ _ Hlay ltac:(by rewrite Hmax') Hreg Hcs)
    as (_ & Hrec & Hold).
  pose proof (register_all_chain _ _ _ _ _ Hreg Hcs) as [_ Hchain].
  rewrite Hcl, app_nil_r in Hchain.
  destruct (register_all_destroy_trace _ _ _ _ _ Hreg Hcs Hregs)
    as (s2 & Hd & Htr).
  rewrite Hcl in Htr. simpl in Htr.
  split_and!.
  - pose proof sizeof_cleanup_pos.
    apply pairwise_disjoint_NoDup in Hrec.
    + by rewrite <- list_fmap_compose, list_fmap_id in Hrec.
    + apply Forall_fmap, Forall_forall. by intros c _.
  - apply pairwise_disjoint_app. split_and!; [done|done|].
    intros x y Hx Hy. rewrite Forall_forall in Hkinds.
    specialize (Hkinds x Hx).
    assert (Forall (region_disjoint x)
              ((λ c, (c, sizeof_ngx_pool_cleanup_t)) <$> cs)) as Hall.
    { apply Hold. destruct (bool_decide _); [by left|by right]. }
    rewrite Forall_forall in Hall. by apply Hall.
  - done.
  - by exists s2.
Qed.

End Properties.

(** * The concrete runs: instances, witnesses and counterexamples *)

Section RunsProperties.
#[local] Existing Instance lp64.
#[local] Existing Instance sbrk.

Lemma lp64_ok : PlatformOk.
Proof.
  constructor; simpl; try lia.
  - by exists 2.
  - by exists 4.
  - by exists 10.
Qed.

Lemma sb_top_ge cs c : c ∈ cs → c.1 + c.2 <= sb_top cs.
Proof.
  induction 1 as [c cs|c c' cs _ IH]; simpl; lia.
Qed.

Lemma sb_top_min cs : 16 <= sb_top cs.
Proof. induction cs as [|c cs IH]; simpl; lia. Qed.

Lemma sbrk_alloc_fresh a n h p h' :
  sbrk_alloc a n h = (p, h') → p ≠ 0 →
  sb_chunks h' = (p, n) :: sb_chunks h
  ∧ Forall (region_disjoint (p, n)) (sb_chunks h)
  ∧ (a | p).
Proof.
  unfold sbrk_alloc.
  destruct (Z.ltb_spec 0 a) as [Ha|]; simpl; [|by intros [= <- <-]].
  destruct (_ && _); [|by intros [= <- <-]].
  intros [= <- <-] _. simpl. split_and!; [done| |].
  - apply Forall_forall. intros c Hc. right. simpl.
    pose proof (sb_top_ge _ _ Hc).
    pose proof (ngx_align_ptr_bounds (sb_top (sb_chunks h)) a Ha) as [Hb _].
    unfold ngx_align_ptr in Hb. lia.
  - by eexists.
Qed.

Lemma sbrk_alloc_null a n h h' :
  sbrk_alloc a n h = (0, h') → sb_chunks h' = sb_chunks h.
Proof.
  unfold sbrk_alloc.
  destruct (Z.ltb_spec 0 a) as [Ha|]; simpl; [|by intros [= <-]].
  destruct (_ && _); [|by intros [= <-]].
  intros [= Hp _]. pose proof (sb_top_min (sb_chunks h)).
  pose proof (ngx_align_ptr_bounds (sb_top (sb_chunks h)) a Ha) as [Hb _].
  unfold ngx_align_ptr in Hb. lia.
Qed.

Lemma sbrk_ok : RawAllocatorOk.
Proof.
  constructor; simpl.
  - intros n h p h' E Hp.
    destruct (sbrk_alloc_fresh _ _ _ _ _ E Hp) as (? & ? & _). done.
  - intros n h h'. apply sbrk_alloc_null.
  - intros a n h p h'. apply sbrk_alloc_fresh.
  - intros a n h h'. apply sbrk_alloc_null.
Qed.

Lemma sbrk_free_ok : RawFreeOk.
Proof.
  constructor; simpl.
  - intros p h c Hc Hne. unfold sbrk_free. simpl.
    apply list_elem_of_filter. by split.
  - intros a n h p h'. unfold sbrk_alloc.
    destruct (Z.ltb_spec 0 a) as [Ha|]; simpl; [|intros [= <- _]; lia].
    destruct (_ && _); [|intros [= <- _]; lia].
    intros [= <- _]. pose proof (sb_top_min (sb_chunks h)).
    pose proof (ngx_align_ptr_bounds (sb_top (sb_chunks h)) a Ha) as [Hb _].
    unfold ngx_align_ptr in Hb. lia.
Qed.

#[local] Existing Instance lp64_ok.
#[local] Existing Instance sbrk_ok.
#[local] Existing Instance sbrk_free_ok.

Lemma ex_pool_created :
  ngx_create_pool 1024 ex_heap ex_mem = Some (ex_pool 1024).
Proof. reflexivity. Qed.

Lemma ex_pool_inv : pool_inv (ex_pool 1024).
Proof.
  eapply ngx_create_pool_inv; [| |exact ex_pool_created].
  - by exists 128.
  - simpl. lia.
Qed.

Lemma ex_pool_layout : pool_layout (ex_pool 1024).
Proof.
  eapply ngx_create_pool_layout; [| |exact ex_pool_created].
  - by exists 128.
  - simpl. lia.
Qed.

Lemma ex_tiny_layout : pool_layout ex_tiny.
Proof.
  apply (@ngx_create_pool_layout lp64 sbrk _ _ 88 (mk_sbrk 1200 []) ex_mem);
    [by exists 11|simpl; lia|reflexivity].
Qed.

(** *** C1 *)

(** Counterexample to C1 as stated: a request above [max] returns a region
    from the raw allocator, which lies in no block of the chain. *)
Lemma palloc_large_not_in_block :
  ∃ ps s',
    serve_all 1 [Palloc 5000] (ex_pool 1024) = Some (ps, s')
    ∧ Forall (λ p, p ≠ 0) ps
    ∧ ¬ Forall (in_block s') (zip ps [5000]).
Proof.
  eexists _, _. split; [vm_compute; reflexivity|].
  split; [by repeat constructor|].
  intros Hall. apply Forall_cons in Hall as [(b & Hb & Hw) _].
  simpl in Hb. apply list_elem_of_singleton in Hb as ->.
  revert Hw. unfold region_within, block_region. simpl. lia.
Qed.

(** Two runs. In a pool of 1024 bytes, two small requests and a large one
    return 96, 196 and 1040: the first two regions lie in the block at 16,
    the third is the chunk [malloc] gave. In a pool of 88 bytes, whose
    [max] of 8 is less than a record of the large chain, two requests of 8
    bytes return 96, in the first block, and 144, in a second block. *)
Lemma palloc_regions_disjoint_witness :
  (pool_layout (ex_pool 1024)
   ∧ Forall (λ r, 0 <= request_size r) ex_requests
   ∧ (1 ≤ 1)%nat ∧ sizeof_ngx_pool_large_t <= p_max (st_pool (ex_pool 1024))
   ∧ is_Some (serve_all 1 ex_requests (ex_pool 1024))
   ∧ serve_all 1 ex_requests (ex_pool 1024) = Some ([96; 196; 1040], ex_served)
   ∧ Forall (λ p, p ≠ 0) [96; 196; 1040]
   ∧ pairwise_disjoint [(96, 100); (196, 30); (1040, 5000)]
   ∧ in_block ex_served (96, 100)
   ∧ in_block ex_served (196, 30)
   ∧ in_raw ex_served (1040, 5000))
  ∧ (pool_layout ex_tiny
     ∧ p_max (st_pool ex_tiny) = 8
     ∧ Forall (λ r, 0 <= request_size r) [Palloc 8; Pnalloc 8]
     ∧ Forall (λ r, request_size r <= p_max (st_pool ex_tiny)) [Palloc 8; Pnalloc 8]
     ∧ is_Some (serve_all 0 [Palloc 8; Pnalloc 8] ex_tiny)
     ∧ serve_all 0 [Palloc 8; Pnalloc 8] ex_tiny = Some ([96; 144], ex_tiny_served)
     ∧ Forall (λ p, p ≠ 0) [96; 144]
     ∧ pairwise_disjoint [(96, 8); (144, 8)]
     ∧ in_block ex_tiny_served (96, 8)
     ∧ in_block ex_tiny_served (144, 8)).
Proof.
  split.
  - assert (Forall (λ r, 0 <= request_size r) ex_requests) as Hsz
      by (repeat constructor; simpl; lia).
    assert (sizeof_ngx_pool_large_t <= p_max (st_pool (ex_pool 1024))) as Hmax
      by (by vm_compute).
    assert (serve_all 1 ex_requests (ex_pool 1024)
            = Some ([96; 196; 1040], ex_served)) as Hrun
      by (vm_compute; reflexivity).
    assert (Forall (λ p, p ≠ 0) [96; 196; 1040]) as Hps
      by (repeat constructor; done).
    destruct (palloc_regions_disjoint 1 ex_requests (ex_pool 1024)
                ex_pool_layout Hsz) as [Htotal Hregions].
    destruct (Hregions _ _ Hrun Hps) as [Hdis Hkinds].
    apply Forall_cons in Hkinds as [H1 Hkinds].
    apply Forall_cons in Hkinds as [H2 Hkinds].
    apply Forall_cons in Hkinds as [H3 _].
    split; [exact ex_pool_layout|]. split; [exact Hsz|]. split; [lia|].
    split; [exact Hmax|].
    split; [exact (Htotal (or_intror (conj (le_n 1) Hmax)))|].
    split; [exact Hrun|]. split; [exact Hps|]. split; [exact Hdis|].
    split; [exact H1|]. split; [exact H2|exact H3].
  - assert (Forall (λ r, 0 <= request_size r) [Palloc 8; Pnalloc 8]) as Hsz
      by (repeat constructor; simpl; lia).
    assert (Forall (λ r, request_size r <= p_max (st_pool ex_tiny))
              [Palloc 8; Pnalloc 8]) as Hsmall
      by (repeat constructor; by vm_compute).
    assert (serve_all 0 [Palloc 8; Pnalloc 8] ex_tiny
            = Some ([96; 144], ex_tiny_served)) as Hrun
      by (vm_compute; reflexivity).
    assert (Forall (λ p, p ≠ 0) [96; 144]) as Hps by (repeat constructor; done).
    destruct (palloc_regions_disjoint 0 [Palloc 8; Pnalloc 8] ex_tiny
                ex_tiny_layout Hsz) as [Htotal Hregions].
    destruct (Hregions _ _ Hrun Hps) as [Hdis Hkinds].
    apply Forall_cons in Hkinds as [H1 Hkinds].
    apply Forall_cons in Hkinds as [H2 _].
    split; [exact ex_tiny_layout|]. split; [vm_compute; reflexivity|].
    split; [exact Hsz|]. split; [exact Hsmall|].
    split; [exact (Htotal (or_introl Hsmall))|].
    split; [exact Hrun|]. split; [exact Hps|]. split; [exact Hdis|].
    split; [exact H1|exact H2].
Defined.

(** *** C2 *)

(** C2, on the code. A cleanup is registered in a new pool: its record is
    at 96, the first address of the pool's data. [ngx_reset_pool] moves the
    cursor of the block back to 96 and forgets the large chain, whose
    records lie in the memory it hands out again, but it leaves
    [pool->cleanup] pointing to the record at 96. The next
    [ngx_pool_cleanup_add] gets its record from [ngx_palloc] at 96 again:
    the chain now has two entries at one address. In memory that is one
    record, whose [next], set from [pool->cleanup], points to the record
    itself, and the loop of [ngx_destroy_pool] over the chain does not
    end. *)
Theorem cleanup_record_reused_after_reset :
  register 1 (7, 100) (ex_pool 1024) = Some (96, ex_one_registered)
  ∧ ngx_reset_pool ex_one_registered = Some ((), ex_registered_reset)
  ∧ p_d (st_pool ex_registered_reset) = [mk_data 16 96 1040 0]
  ∧ p_large (st_pool ex_registered_reset) = []
  ∧ p_cleanup (st_pool ex_registered_reset) = [mk_cleanup 96 7 100]
  ∧ ∃ s3,
      ngx_pool_cleanup_add 1 0 ex_registered_reset = Some (96, s3)
      ∧ c_self <$> p_cleanup (st_pool s3) = [96; 96]
      ∧ ¬ NoDup (c_self <$> p_cleanup (st_pool s3)).
Proof.
  split; [vm_compute; reflexivity|]. split; [vm_compute; reflexivity|].
  split; [vm_compute; reflexivity|]. split; [vm_compute; reflexivity|].
  split; [vm_compute; reflexivity|].
  eexists. split; [vm_compute; reflexivity|]. split; [reflexivity|].
  simpl. intros Hnd. apply NoDup_cons in Hnd as [Hnd _]. apply Hnd.
  apply list_elem_of_here.
Qed.

(** *** C3 *)

(** Counterexample to C3 as stated: a pool of 88 bytes has [max] 8, which
    is less than a record of the large chain. [malloc] has a buffer for a
    request of [max + 1] bytes, but the record for it is asked of
    [ngx_palloc] again and again until [malloc] fails: the request is never
    served, and with the heap exhausted the call returns NULL, the large
    chain still empty. *)
Lemma tiny_pool_threshold_not_served :
  ngx_create_pool 88 (mk_sbrk 1200 []) ex_mem = Some ex_tiny
  ∧ p_max (st_pool ex_tiny) = 8
  ∧ (malloc (8 + 1) (st_heap ex_tiny)).1 = 112
  ∧ (∀ fuel p s', ngx_palloc fuel (8 + 1) ex_tiny = Some (p, s') → p = 0)
  ∧ ∃ s', ngx_palloc 100 (8 + 1) ex_tiny = Some (0, s')
          ∧ p_large (st_pool s') = [].
Proof.
  split; [vm_compute; reflexivity|]. split; [vm_compute; reflexivity|].
  split; [vm_compute; reflexivity|]. split.
  - intros fuel p s' Hrun.
    apply (ngx_palloc_tiny_null fuel (8 + 1) ex_tiny p s'); [| |reflexivity|exact Hrun];
      by vm_compute.
  - eexists. split; [vm_compute; reflexivity|]. reflexivity.
Qed.

Lemma palloc_threshold_witness :
  ngx_create_pool 1024 ex_heap ex_mem = Some (ex_pool 1024)
  ∧ sizeof_ngx_pool_t <= 1024 < 2 ^ word_bits
  ∧ sizeof_ngx_pool_large_t <= p_max (st_pool (ex_pool 1024))
  ∧ malloc (944 + 1) (st_heap (ex_pool 1024))
    = (1040, (sbrk_alloc 16 945 (st_heap (ex_pool 1024))).2)
  ∧ p_max (st_pool ex_full) = p_max (st_pool (ex_pool 1024))
  ∧ p_max (st_pool (ex_pool 1024)) = 944
  ∧ region_within (96, 944) (16, 1024)
  ∧ ngx_palloc 1 944 (ex_pool 1024)
    = Some (96, mk_state (set_d [mk_data 16 1040 1040 0] (st_pool (ex_pool 1024)))
                  (st_heap (ex_pool 1024)) (st_mem (ex_pool 1024))
                  (st_trace (ex_pool 1024)))
  ∧ ngx_palloc 1 945 (ex_pool 1024)
    = Some (1040,
            mk_state
              (set_large [mk_large 96 1040]
                 (set_d [mk_data 16 112 1040 0] (st_pool (ex_pool 1024))))
              (sbrk_alloc 16 945 (st_heap (ex_pool 1024))).2
              (st_mem (ex_pool 1024))
              (st_trace (ex_pool 1024) ++ [EvMalloc 945 1040]))
  ∧ (∃ r s2,
       ngx_palloc 1 944 ex_full = Some (r, s2)
       ∧ p_large (st_pool s2) = p_large (st_pool ex_full)
       ∧ (∃ evs, st_trace s2 = st_trace ex_full ++ evs
                 ∧ Forall (λ e, ¬ is_malloc_event e) evs)
       ∧ (r ≠ 0 → ∃ b, b ∈ p_d (st_pool s2) ∧ d_last b = r + 944))
  ∧ ∃ r s2 q evs,
      ngx_palloc 1 945 ex_full = Some (r, s2)
      ∧ st_trace s2 = st_trace ex_full ++ EvMalloc 945 q :: evs
      ∧ (r = 0 ∨ r = q)
      ∧ (r ≠ 0 → ∃ l, l ∈ p_large (st_pool s2) ∧ l_alloc l = r).
Proof.
  assert (sizeof_ngx_pool_t <= 1024 < 2 ^ word_bits) as Hsize by (simpl; lia).
  assert (sizeof_ngx_pool_large_t <= p_max (st_pool (ex_pool 1024))) as Hrec
    by (by vm_compute).
  assert (malloc (944 + 1) (st_heap (ex_pool 1024))
          = (1040, (sbrk_alloc 16 945 (st_heap (ex_pool 1024))).2)) as Hq
    by (vm_compute; reflexivity).
  assert (p_max (st_pool ex_full) = p_max (st_pool (ex_pool 1024))) as Hsame
    by (vm_compute; reflexivity).
  split; [exact ex_pool_created|]. split; [exact Hsize|]. split; [exact Hrec|].
  split; [exact Hq|]. split; [exact Hsame|].
  destruct (@palloc_threshold lp64 sbrk lp64_ok sbrk_ok sbrk_free_ok 1024 ex_heap
              ex_mem (ex_pool 1024) ex_pool_created)
    as (p & _ & Hd & Hmax & Hin & Hsmall & Hlarge & Hlater).
  assert (p = 16) as -> by (vm_compute in Hd; by injection Hd as <-).
  destruct (Hin Hsize) as [_ Hwithin].
  split; [vm_compute; reflexivity|]. split; [exact Hwithin|].
  split; [exact (Hsmall 1%nat)|].
  split; [exact (Hlarge Hrec 0%nat 1040 _ Hq)|].
  destruct (Hlater 0%nat ex_full Hsame) as [H1 H2].
  split; [exact H1|]. exact (H2 Hrec).
Defined.

(** *** C4 *)

(** C4, on the code. The second block of [ex_two_blocks] starts its data at
    1072, where the request that created it was served. [ngx_reset_pool] puts its cursor at
    1120, [sizeof(ngx_pool_t)] behind its start, like the first block's:
    the 48 bytes from 1072 are out of reach. After the reset the second
    block takes 944 bytes and no more, though its data region has 992. *)
Theorem reset_skips_block_data :
  ngx_palloc 1 8 ex_full = Some (1072, ex_two_blocks)
  ∧ ngx_reset_pool ex_two_blocks = Some ((), ex_reset)
  ∧ p_d (st_pool ex_reset)
    = [mk_data 16 (16 + sizeof_ngx_pool_t) 1040 0;
       mk_data 1040 (1040 + sizeof_ngx_pool_t) 2064 0]
  ∧ 1040 + sizeof_ngx_pool_t ≠ 1072
  ∧ (∃ ps s', serve_all 1 [Pnalloc 944; Pnalloc 496; Pnalloc 496] ex_reset
              = Some (ps, s')
              ∧ ps = [96; 1120; 2096] ∧ length (p_d (st_pool s')) = 3%nat).
Proof.
  split; [vm_compute; reflexivity|]. split; [vm_compute; reflexivity|].
  split; [vm_compute; reflexivity|]. split; [simpl; lia|].
  eexists _, _. split; [vm_compute; reflexivity|]. split; reflexivity.
Qed.

(** *** C6 *)

(** C6, on the code. After five large allocations and [ngx_pfree] of the
    oldest buffer, the fifth record of the large chain is empty and the
    first four are not. The comment in [ngx_palloc_large] speaks of the
    first three records and the claim of at most four; the test
    [n++ > 3] ends the loop only after the fifth, so the new buffer goes
    into the fifth record and no record is added at the head. *)
Theorem large_fifth_slot_reused :
  ∃ q s',
    ngx_palloc 1 5000 ex_fifth_empty = Some (q, s')
    ∧ q ≠ 0
    ∧ first_empty (take 4 (p_large (st_pool ex_fifth_empty))) = None
    ∧ p_large (st_pool s')
      = <[4%nat := mk_large 96 q]> (p_large (st_pool ex_fifth_empty))
    ∧ ∀ r, p_large (st_pool s')
           ≠ spec_large_register q r (p_large (st_pool ex_fifth_empty)).
Proof.
  eexists _, _. split; [vm_compute; reflexivity|].
  split; [lia|]. split; [vm_compute; reflexivity|].
  split; [vm_compute; reflexivity|].
  intros r Heq. apply (f_equal length) in Heq. vm_compute in Heq. lia.
Qed.

(** *** C7 *)

(** Counterexample to C7 as stated: the walk sets no candidate (the chain
    has one block, which is its tail), and [pool->current] stays at the
    first block instead of moving to the new one. *)
Lemma growth_keeps_current :
  ∃ p s',
    ngx_palloc_block 8 ex_full = Some (p, s')
    ∧ p ≠ 0
    ∧ (failed_walk (p_current (st_pool ex_full))
         (drop (p_current (st_pool ex_full)) (p_d (st_pool ex_full))) None).2
      = None
    ∧ p_current (st_pool s') = 0%nat
    ∧ spec_current_after_growth (st_pool ex_full) = 1%nat
    ∧ p_current (st_pool s') ≠ spec_current_after_growth (st_pool ex_full).
Proof.
  eexists _, _. split; [vm_compute; reflexivity|].
  split; [lia|]. split; [reflexivity|]. split; [reflexivity|].
  split; [reflexivity|]. vm_compute. lia.
Qed.

(** The rule at work: after eight requests of 944 bytes the chain has eight
    blocks with failure counters 6, 5, 4, 3, 2, 1, 0, 0 and [pool->current]
    is the second block. The ninth request grows the chain: the walk counts
    a failure against the second to the seventh block, the second block's
    counter was above 4, so [pool->current] moves to the third block. *)
Lemma palloc_block_moves_current_witness :
  let s := ex_eight_blocks in
  let bs := p_d (st_pool s) in
  let cur := p_current (st_pool s) in
  d_failed <$> bs = [6; 5; 4; 3; 2; 1; 0; 0]
  ∧ cur = 1%nat
  ∧ posix_memalign NGX_POOL_ALIGNMENT (pool_psize (st_pool s)) (st_heap s)
    = (8208, (sbrk_alloc 16 1024 (st_heap s)).2)
  ∧ 8208 ≠ 0
  ∧ (cur < length bs)%nat
  ∧ ∃ p s' new,
      ngx_palloc_block 944 s = Some (p, s')
      ∧ p = 8240
      ∧ d_failed <$> p_d (st_pool s') = [6; 6; 5; 4; 3; 2; 1; 0; 0]
      ∧ p_current (st_pool s') = 2%nat
      ∧ d_self new = 8208 ∧ d_failed new = 0
      ∧ length (p_d (st_pool s')) = S (length bs)
      ∧ p_d (st_pool s') !! length bs = Some new
      ∧ (∀ j b, bs !! j = Some b →
           p_d (st_pool s') !! j =
             Some (if decide (cur ≤ j ∧ S j < length bs)%nat
                   then count_failure b else b))
      ∧ ((∃ j b, (cur ≤ j)%nat ∧ (S j < length bs)%nat ∧ bs !! j = Some b
                 ∧ 4 < d_failed b
                 ∧ p_current (st_pool s') = S j
                 ∧ ∀ j' b', (j < j')%nat → (S j' < length bs)%nat →
                            bs !! j' = Some b' → d_failed b' <= 4)
         ∨ ((∀ j b, (cur ≤ j)%nat → (S j < length bs)%nat → bs !! j = Some b →
                    d_failed b <= 4)
            ∧ p_current (st_pool s') = cur))
      ∧ (p_current (st_pool s') < length bs)%nat.
Proof.
  intros s bs cur.
  assert (posix_memalign NGX_POOL_ALIGNMENT (pool_psize (st_pool s)) (st_heap s)
          = (8208, (sbrk_alloc 16 1024 (st_heap s)).2)) as Hm
    by (vm_compute; reflexivity).
  assert (8208 ≠ 0) as Hm0 by done.
  assert (cur < length bs)%nat as Hcur by (vm_compute; lia).
  split; [vm_compute; reflexivity|]. split; [vm_compute; reflexivity|].
  split; [exact Hm|]. split; [exact Hm0|]. split; [exact Hcur|].
  destruct (palloc_block_moves_current 944 s 8208 _ Hm Hm0 Hcur)
    as (p & s' & new & Hrun & Hrest).
  exists p, s', new. split; [exact Hrun|].
  assert (ngx_palloc_block 944 s
          = Some (8240, ex_state (ngx_palloc_block 944 s))) as Hval
    by (vm_compute; reflexivity).
  assert (d_failed <$> p_d (st_pool (ex_state (ngx_palloc_block 944 s)))
          = [6; 6; 5; 4; 3; 2; 1; 0; 0]) as Hf by (vm_compute; reflexivity).
  assert (p_current (st_pool (ex_state (ngx_palloc_block 944 s))) = 2%nat)
    as Hc by (vm_compute; reflexivity).
  revert Hval Hf Hc. generalize (ex_state (ngx_palloc_block 944 s)).
  intros s2 Hval Hf Hc. rewrite Hval in Hrun.
  apply (inj Some) in Hrun. apply pair_eq in Hrun as [<- <-].
  split; [reflexivity|]. split; [exact Hf|]. split; [exact Hc|]. exact Hrest.
Defined.

(** *** C8 *)

Lemma pfree_unknown_declined_witness :
  (∀ l, l ∈ p_large (st_pool ex_five_large) → l_alloc l ≠ 7)
  ∧ ngx_pfree 7 ex_five_large = Some (NGX_DECLINED, ex_five_large).
Proof.
  assert (∀ l, l ∈ p_large (st_pool ex_five_large) → l_alloc l ≠ 7) as Hp.
  { intros l Hl. vm_compute in Hl.
    repeat (apply elem_of_cons in Hl as [->|Hl]; [simpl; lia|]).
    by apply elem_of_nil in Hl. }
  split; [exact Hp|]. exact (pfree_unknown_declined ex_five_large 7 Hp).
Defined.
(** *** C9 *)


(** *** C10 *)

Lemma list_parts_full_but_last_witness :
  ngx_list_create 1 2 8 (ex_pool 1024) = Some (Some ex_list, ex_list_state)
  ∧ list_pushes 1 5 ex_list ex_list_state
    = Some ([152; 160; 192; 200; 232],
            mk_list [mk_part 152 2; mk_part 192 2; mk_part 232 1] 2%nat 8 2,
            ex_state ex_list_pushed)
  ∧ list_counts (mk_list [mk_part 152 2; mk_part 192 2; mk_part 232 1] 2%nat 8 2)
    = [2; 2; 1].
Proof.
  assert (ngx_list_create 1 2 8 (ex_pool 1024) = Some (Some ex_list, ex_list_state))
    as Hcreate by (vm_compute; reflexivity).
  assert (list_pushes 1 5 ex_list ex_list_state
          = Some ([152; 160; 192; 200; 232],
                  mk_list [mk_part 152 2; mk_part 192 2; mk_part 232 1] 2%nat 8 2,
                  ex_state ex_list_pushed)) as Hpush
    by (vm_compute; reflexivity).
  split; [exact Hcreate|]. split; [exact Hpush|].
  refine (proj1 (proj2 (list_parts_full_but_last 1 2 8 5 (ex_pool 1024)
                          ex_list_state _ ex_list _ _ Hcreate Hpush)
                   eq_refl eq_refl _)).
  repeat constructor; lia.
Defined.

(** *** A pool whose size is not a multiple of the alignment

    With 1001 bytes the block ends at 1017. Once the cursor is there,
    [ngx_align_ptr] moves it to 1024, past the end; the cast
    [(size_t) (p->d.end - m)] wraps and [ngx_palloc] serves the request
    beyond the block, where the raw allocator places its next chunk. The
    invariant [pool_inv] excludes such pools. *)
Lemma unaligned_pool_size_overrun :
  ∃ ps s',
    serve_all 1 [Pnalloc 921; Palloc 4; Palloc 5000] (ex_pool 1001) = Some (ps, s')
    ∧ ps = [96; 1024; 1024]
    ∧ ¬ in_block s' (1024, 4)
    ∧ ¬ region_disjoint (1024, 4) (1024, 5000).
Proof.
  eexists _, _. split; [vm_compute; reflexivity|]. split; [reflexivity|]. split.
  - intros (b & Hb & Hw). simpl in Hb. apply list_elem_of_singleton in Hb as ->.
    revert Hw. unfold region_within, block_region. simpl. lia.
  - unfold region_disjoint. simpl. lia.
Qed.

(** ** Runs of the further properties *)

Lemma palloc_small_aligned_witness :
  10 <= p_max (st_pool ex_odd)
  ∧ ngx_palloc 1 10 ex_odd = Some (104, ex_state (ngx_palloc 1 10 ex_odd))
  ∧ (NGX_ALIGNMENT | 104).
Proof.
  assert (10 <= p_max (st_pool ex_odd)) as Hle by (vm_compute; done).
  assert (ngx_palloc 1 10 ex_odd = Some (104, ex_state (ngx_palloc 1 10 ex_odd)))
    as Hrun by (vm_compute; reflexivity).
  split; [exact Hle|]. split; [exact Hrun|].
  exact (palloc_small_aligned 1 10 ex_odd _ 104 Hle Hrun).
Defined.

Lemma small_requests_in_a_row_witness :
  p_d (st_pool (ex_pool 1024)) !! p_current (st_pool (ex_pool 1024))
  = Some (mk_data 16 96 1040 0)
  ∧ 0 <= 3 <= p_max (st_pool (ex_pool 1024))
  ∧ 0 <= 5 <= p_max (st_pool (ex_pool 1024))
  ∧ 1040 - 96 < 2 ^ word_bits
  ∧ 3 + 5 <= 1040 - 96
  ∧ ∃ s1 s2,
      ngx_pnalloc 1 3 (ex_pool 1024) = Some (96, s1)
      ∧ ngx_pnalloc 1 5 s1 = Some (99, s2).
Proof.
  assert (0 <= 3 <= p_max (st_pool (ex_pool 1024))) as H3 by (by vm_compute).
  assert (0 <= 5 <= p_max (st_pool (ex_pool 1024))) as H5 by (by vm_compute).
  assert (1040 - 96 < 2 ^ word_bits) as Hw by (by vm_compute).
  assert (3 + 5 <= 1040 - 96) as Hfit by lia.
  split; [reflexivity|]. split; [exact H3|]. split; [exact H5|].
  split; [exact Hw|]. split; [exact Hfit|].
  exact (proj1 (small_requests_in_a_row 1 3 5 (ex_pool 1024)
                  (mk_data 16 96 1040 0) eq_refl H3 H5 Hw) Hfit).
Defined.

Lemma alloc_keeps_blocks_witness :
  0 <= request_size (Palloc 8)
  ∧ (p_current (st_pool ex_full) < length (p_d (st_pool ex_full)))%nat
  ∧ serve 1 (Palloc 8) ex_full = Some (1072, ex_two_blocks)
  ∧ ∃ front extra,
      p_d (st_pool ex_two_blocks) = front ++ extra ∧ (length extra ≤ 1)%nat
      ∧ Forall2 block_kept (p_d (st_pool ex_full)) front.
Proof.
  assert (0 <= request_size (Palloc 8)) as Hsz by (by vm_compute).
  assert (p_current (st_pool ex_full) < length (p_d (st_pool ex_full)))%nat
    as Hcur by (vm_compute; lia).
  assert (serve 1 (Palloc 8) ex_full = Some (1072, ex_two_blocks)) as Hrun
    by (vm_compute; reflexivity).
  split; [exact Hsz|]. split; [exact Hcur|]. split; [exact Hrun|].
  exact (alloc_keeps_blocks 1 (Palloc 8) ex_full ex_two_blocks 1072 Hsz Hcur Hrun).
Defined.

Lemma alloc_current_forward_witness :
  0 <= request_size (Pnalloc 30)
  ∧ (p_current (st_pool ex_two_blocks) < length (p_d (st_pool ex_two_blocks)))%nat
  ∧ serve 1 (Pnalloc 30) ex_two_blocks
    = Some (1080, ex_state (serve 1 (Pnalloc 30) ex_two_blocks))
  ∧ (p_current (st_pool ex_two_blocks)
     ≤ p_current (st_pool (ex_state (serve 1 (Pnalloc 30) ex_two_blocks)))
     < length (p_d (st_pool (ex_state (serve 1 (Pnalloc 30) ex_two_blocks)))))%nat.
Proof.
  assert (0 <= request_size (Pnalloc 30)) as Hsz by (by vm_compute).
  assert (p_current (st_pool ex_two_blocks)
          < length (p_d (st_pool ex_two_blocks)))%nat
    as Hcur by (vm_compute; lia).
  assert (serve 1 (Pnalloc 30) ex_two_blocks
          = Some (1080, ex_state (serve 1 (Pnalloc 30) ex_two_blocks))) as Hrun
    by (vm_compute; reflexivity).
  split; [exact Hsz|]. split; [exact Hcur|]. split; [exact Hrun|].
  exact (proj1 (alloc_current_forward 1 (Pnalloc 30) ex_two_blocks _ 1080
                  Hsz Hcur Hrun)).
Defined.

Lemma small_request_failure_witness :
  request_size (Palloc 8) <= p_max (st_pool (ex_tight 1500))
  ∧ Forall (λ b, ¬ has_room true 8 b)
      (drop (p_current (st_pool (ex_tight 1500))) (p_d (st_pool (ex_tight 1500))))
  ∧ posix_memalign NGX_POOL_ALIGNMENT (pool_psize (st_pool (ex_tight 1500)))
      (st_heap (ex_tight 1500)) = (0, st_heap (ex_tight 1500))
  ∧ ∃ s', serve 1 (Palloc 8) (ex_tight 1500) = Some (0, s')
          ∧ st_pool s' = st_pool (ex_tight 1500).
Proof.
  assert (request_size (Palloc 8) <= p_max (st_pool (ex_tight 1500))) as Hle
    by (vm_compute; done).
  assert (Forall (λ b, ¬ has_room true 8 b)
            (drop (p_current (st_pool (ex_tight 1500)))
               (p_d (st_pool (ex_tight 1500))))) as Hroom.
  { repeat constructor. vm_compute. intros Hc. by apply Hc. }
  assert (posix_memalign NGX_POOL_ALIGNMENT (pool_psize (st_pool (ex_tight 1500)))
            (st_heap (ex_tight 1500)) = (0, st_heap (ex_tight 1500))) as Hm
    by (vm_compute; reflexivity).
  split; [exact Hle|]. split; [exact Hroom|]. split; [exact Hm|].
  eexists. split;
    [exact (small_request_failure 1 (Palloc 8) (ex_tight 1500) _ Hle Hroom Hm)|].
  reflexivity.
Defined.

Lemma large_request_failure_frees_witness :
  p_max (st_pool (ex_tight 6500)) < 5000
  ∧ sizeof_ngx_pool_large_t <= p_max (st_pool (ex_tight 6500))
  ∧ malloc 5000 (st_heap (ex_tight 6500))
    = (1040, mk_sbrk 6500 [(1040, 5000); (16, 1024)])
  ∧ posix_memalign NGX_POOL_ALIGNMENT (pool_psize (st_pool (ex_tight 6500)))
      (mk_sbrk 6500 [(1040, 5000); (16, 1024)])
    = (0, mk_sbrk 6500 [(1040, 5000); (16, 1024)])
  ∧ ∃ s', ngx_palloc 1 5000 (ex_tight 6500) = Some (0, s')
          ∧ st_pool s' = st_pool (ex_tight 6500)
          ∧ st_heap s' = st_heap (ex_tight 6500).
Proof.
  assert (p_max (st_pool (ex_tight 6500)) < 5000) as Hsize by (vm_compute; done).
  assert (sizeof_ngx_pool_large_t <= p_max (st_pool (ex_tight 6500))) as Hlarge
    by (vm_compute; done).
  assert (malloc 5000 (st_heap (ex_tight 6500))
          = (1040, mk_sbrk 6500 [(1040, 5000); (16, 1024)])) as Hq
    by (vm_compute; reflexivity).
  assert ((1040 : Z) ≠ 0) as Hq0 by done.
  assert (∀ j l, (j < 5)%nat → p_large (st_pool (ex_tight 6500)) !! j = Some l →
                 l_alloc l ≠ 0) as Hnone.
  { intros j l _ Hl.
    change (p_large (st_pool (ex_tight 6500))) with (@nil ngx_pool_large_t) in Hl.
    by rewrite lookup_nil in Hl. }
  assert (Forall (λ b, ¬ has_room true sizeof_ngx_pool_large_t b)
            (drop (p_current (st_pool (ex_tight 6500)))
               (p_d (st_pool (ex_tight 6500))))) as Hroom.
  { repeat constructor. vm_compute. intros Hc. by apply Hc. }
  assert (posix_memalign NGX_POOL_ALIGNMENT (pool_psize (st_pool (ex_tight 6500)))
            (mk_sbrk 6500 [(1040, 5000); (16, 1024)])
          = (0, mk_sbrk 6500 [(1040, 5000); (16, 1024)])) as Hm
    by (vm_compute; reflexivity).
  split; [exact Hsize|]. split; [exact Hlarge|]. split; [exact Hq|].
  split; [exact Hm|].
  eexists. split;
    [exact (large_request_failure_frees 0 5000 (ex_tight 6500) 1040 _ _
              Hsize Hlarge Hq Hq0 Hnone Hroom Hm)|].
  split; [reflexivity|vm_compute; reflexivity].
Defined.

Lemma pfree_frees_first_match_witness :
  p_large (st_pool ex_one_large) !! 0%nat = Some (mk_large 96 1040)
  ∧ ∃ s', ngx_pfree 1040 ex_one_large = Some (NGX_OK, s')
          ∧ p_large (st_pool s') = [mk_large 96 0]
          ∧ st_trace s' = st_trace ex_one_large ++ [EvFree 1040].
Proof.
  assert (p_large (st_pool ex_one_large) !! 0%nat = Some (mk_large 96 1040))
    as Hl by reflexivity.
  assert (∀ j l', (j < 0)%nat → p_large (st_pool ex_one_large) !! j = Some l' →
                  l_alloc l' ≠ 1040) as Hbefore by (intros j l' Hj; lia).
  split; [exact Hl|].
  eexists. split;
    [exact (pfree_frees_first_match ex_one_large 1040 0 (mk_large 96 1040)
              Hl eq_refl Hbefore)|].
  split; reflexivity.
Defined.

Lemma large_alloc_then_pfree_witness :
  p_max (st_pool (ex_pool 1024)) < 5000
  ∧ sizeof_ngx_pool_large_t <= p_max (st_pool (ex_pool 1024))
  ∧ ngx_palloc 1 5000 (ex_pool 1024) = Some (1040, ex_one_large)
  ∧ ∃ s2,
      ngx_pfree 1040 ex_one_large = Some (NGX_OK, s2)
      ∧ st_trace s2 = st_trace ex_one_large ++ [EvFree 1040]
      ∧ p_d (st_pool s2) = p_d (st_pool ex_one_large)
      ∧ length (live_allocs (p_large (st_pool s2)))
        = length (live_allocs (p_large (st_pool (ex_pool 1024)))).
Proof.
  assert (p_max (st_pool (ex_pool 1024)) < 5000) as Hsize by (by vm_compute).
  assert (sizeof_ngx_pool_large_t <= p_max (st_pool (ex_pool 1024))) as Hlarge
    by (by vm_compute).
  assert (ngx_palloc 1 5000 (ex_pool 1024) = Some (1040, ex_one_large)) as Hrun
    by (vm_compute; reflexivity).
  assert ((1040 : Z) ≠ 0) as Hp by done.
  split; [exact Hsize|]. split; [exact Hlarge|]. split; [exact Hrun|].
  exact (large_alloc_then_pfree 1 5000 (ex_pool 1024) ex_one_large 1040
           Hsize Hlarge Hrun Hp).
Defined.

Lemma pfree_null_matches_empty_slot_witness :
  mk_large 96 0 ∈ p_large (st_pool ex_one_freed)
  ∧ ∃ s', ngx_pfree 0 ex_one_freed = Some (NGX_OK, s')
          ∧ st_pool s' = st_pool ex_one_freed
          ∧ st_trace s' = st_trace ex_one_freed ++ [EvFree 0].
Proof.
  assert (mk_large 96 0 ∈ p_large (st_pool ex_one_freed)) as Hin
    by (vm_compute; apply list_elem_of_here).
  split; [exact Hin|].
  eexists. split;
    [exact (pfree_null_matches_empty_slot ex_one_freed
              (ex_intro _ (mk_large 96 0) (conj Hin eq_refl)))|].
  split; reflexivity.
Defined.

Lemma pool_lifecycle_account_witness :
  (NGX_ALIGNMENT | 1024)
  ∧ sizeof_ngx_pool_t + sizeof_ngx_pool_large_t <= 1024 < 2 ^ word_bits
  ∧ ngx_create_pool 1024 ex_heap ex_mem = Some (ex_pool 1024)
  ∧ sizeof_ngx_pool_cleanup_t <= p_max (st_pool (ex_pool 1024))
  ∧ Forall op_ok (ex_ops_pre ++ ex_ops_post)
  ∧ Forall (λ o, ∀ n, o ≠ OpCleanupAdd n) ex_ops_pre
  ∧ Forall (λ o, o ≠ OpReset) ex_ops_post
  ∧ run_ops 1 (ex_ops_pre ++ ex_ops_post) (ex_pool 1024) = Some ((), ex_accounted)
  ∧ obtained (st_trace ex_accounted)
    ≡ₚ released (st_trace ex_accounted) ++ held (st_pool ex_accounted)
  ∧ ∃ s2,
      ngx_destroy_pool ex_accounted = Some ((), s2)
      ∧ obtained (st_trace s2) ≡ₚ released (st_trace s2).
Proof.
  assert ((NGX_ALIGNMENT | 1024)) as Hal by (by exists 128).
  assert (sizeof_ngx_pool_t + sizeof_ngx_pool_large_t <= 1024 < 2 ^ word_bits)
    as Hsize by (by vm_compute).
  assert (sizeof_ngx_pool_cleanup_t <= p_max (st_pool (ex_pool 1024))) as Hmax
    by (by vm_compute).
  assert (Forall op_ok (ex_ops_pre ++ ex_ops_post)) as Hok
    by (repeat constructor; by vm_compute).
  assert (Forall (λ o, ∀ n, o ≠ OpCleanupAdd n) ex_ops_pre) as Hpre
    by (repeat constructor; done).
  assert (Forall (λ o, o ≠ OpReset) ex_ops_post) as Hpost
    by (repeat constructor; done).
  assert (run_ops 1 (ex_ops_pre ++ ex_ops_post) (ex_pool 1024)
          = Some ((), ex_accounted)) as Hops
    by (vm_compute; reflexivity).
  split; [exact Hal|]. split; [exact Hsize|]. split; [exact ex_pool_created|].
  split; [exact Hmax|]. split; [exact Hok|]. split; [exact Hpre|].
  split; [exact Hpost|]. split; [exact Hops|].
  exact (@pool_lifecycle_account lp64 sbrk 1 1024 ex_heap ex_mem ex_ops_pre
           ex_ops_post (ex_pool 1024) ex_accounted Hal Hsize ex_pool_created
           Hmax Hok Hpre Hpost Hops).
Defined.

Lemma pmemalign_registers_witness :
  sizeof_ngx_pool_large_t <= p_max (st_pool (ex_pool 1024))
  ∧ ngx_pmemalign 1 300 64 (ex_pool 1024)
    = Some (1088, ex_state (ngx_pmemalign 1 300 64 (ex_pool 1024)))
  ∧ ∃ r, p_large (st_pool (ex_state (ngx_pmemalign 1 300 64 (ex_pool 1024))))
         = mk_large r 1088 :: p_large (st_pool (ex_pool 1024)).
Proof.
  assert (sizeof_ngx_pool_large_t <= p_max (st_pool (ex_pool 1024))) as Hlarge
    by (by vm_compute).
  assert (ngx_pmemalign 1 300 64 (ex_pool 1024)
          = Some (1088, ex_state (ngx_pmemalign 1 300 64 (ex_pool 1024)))) as Hrun
    by (vm_compute; reflexivity).
  assert ((1088 : Z) ≠ 0) as Hp by done.
  split; [exact Hlarge|]. split; [exact Hrun|].
  destruct (pmemalign_registers 1 300 64 (ex_pool 1024) _ 1088 Hlarge Hrun Hp)
    as (_ & r & _ & Hl & _).
  by exists r.
Defined.

Lemma pfree_then_large_reuses_slot_witness :
  p_large (st_pool ex_one_large) !! 0%nat = Some (mk_large 96 1040)
  ∧ p_max (st_pool ex_one_large) < 5000
  ∧ malloc 5000 (free 1040 (st_heap ex_one_large))
    = (1040, mk_sbrk 1048576 [(1040, 5000); (16, 1024)])
  ∧ ∃ s1 s2,
      ngx_pfree 1040 ex_one_large = Some (NGX_OK, s1)
      ∧ ngx_palloc 1 5000 s1 = Some (1040, s2)
      ∧ p_d (st_pool s2) = p_d (st_pool ex_one_large)
      ∧ length (p_large (st_pool s2)) = length (p_large (st_pool ex_one_large)).
Proof.
  assert (p_large (st_pool ex_one_large) !! 0%nat = Some (mk_large 96 1040))
    as Hl by reflexivity.
  assert (p_max (st_pool ex_one_large) < 5000) as Hsize by (by vm_compute).
  assert (malloc 5000 (free 1040 (st_heap ex_one_large))
          = (1040, mk_sbrk 1048576 [(1040, 5000); (16, 1024)])) as Hq
    by (vm_compute; reflexivity).
  assert ((1040 : Z) ≠ 0) as Hq0 by done.
  split; [exact Hl|]. split; [exact Hsize|]. split; [exact Hq|].
  destruct (pfree_then_large_reuses_slot 0 5000 ex_one_large 1040 0
              (mk_large 96 1040) 1040 _ Hl eq_refl ltac:(lia) Hsize Hq Hq0)
    as (s1 & s2 & H1 & H2 & H3 & H4 & _).
  by exists s1, s2.
Defined.

Lemma pcalloc_zeroes_its_region_only_witness :
  (NGX_ALIGNMENT | 1024)
  ∧ sizeof_ngx_pool_t <= 1024 < 2 ^ word_bits
  ∧ ngx_create_pool 1024 ex_heap ex_dirty = Some ex_dirty_pool
  ∧ Forall (λ r, 0 <= request_size r) ex_requests
  ∧ serve_all 1 ex_requests ex_dirty_pool = Some ([96; 196; 1040], ex_dirty_served)
  ∧ Forall (λ q, q ≠ 0) [96; 196; 1040]
  ∧ ngx_pcalloc 1 64 ex_dirty_served
    = Some (248, ex_state (ngx_pcalloc 1 64 ex_dirty_served))
  ∧ (∀ x, 248 <= x < 248 + 64 →
          st_mem (ex_state (ngx_pcalloc 1 64 ex_dirty_served)) x = Byte.x00)
  ∧ (∀ x, 96 <= x < 96 + 100 →
          st_mem (ex_state (ngx_pcalloc 1 64 ex_dirty_served)) x = Byte.xff)
  ∧ (∀ x, 1040 <= x < 1040 + 5000 →
          st_mem (ex_state (ngx_pcalloc 1 64 ex_dirty_served)) x = Byte.xff).
Proof.
  assert ((NGX_ALIGNMENT | 1024)) as Hal by (by exists 128).
  assert (sizeof_ngx_pool_t <= 1024 < 2 ^ word_bits) as Hpsize by (simpl; lia).
  assert (ngx_create_pool 1024 ex_heap ex_dirty = Some ex_dirty_pool) as Hcreate
    by reflexivity.
  assert (Forall (λ r, 0 <= request_size r) ex_requests) as Hsz
    by (repeat constructor; simpl; lia).
  assert (serve_all 1 ex_requests ex_dirty_pool
          = Some ([96; 196; 1040], ex_dirty_served)) as Hrun
    by (vm_compute; reflexivity).
  assert (Forall (λ q, q ≠ 0) [96; 196; 1040]) as Hps
    by (repeat constructor; done).
  assert (0 <= 64) as Hsize by lia.
  assert (ngx_pcalloc 1 64 ex_dirty_served
          = Some (248, ex_state (ngx_pcalloc 1 64 ex_dirty_served))) as Hcall
    by (vm_compute; reflexivity).
  assert ((248 : Z) ≠ 0) as Hp by done.
  destruct (@pcalloc_zeroes_its_region_only lp64 sbrk lp64_ok sbrk_ok
              1 1024 ex_heap ex_dirty ex_dirty_pool ex_requests
              [96; 196; 1040] ex_dirty_served 64 _ 248
              Hal Hpsize Hcreate Hsz Hrun Hps Hsize Hcall Hp) as [Hzero Hkept].
  split; [exact Hal|]. split; [exact Hpsize|]. split; [exact Hcreate|].
  split; [exact Hsz|]. split; [exact Hrun|]. split; [exact Hps|].
  split; [exact Hcall|]. split; [exact Hzero|].
  split.
  - intros x Hx.
    destruct (Hkept (96, 100)) as [_ Hsame];
      [apply list_elem_of_here|].
    rewrite (Hsame x Hx). reflexivity.
  - intros x Hx.
    destruct (Hkept (1040, 5000)) as [_ Hsame];
      [do 2 apply list_elem_of_further; apply list_elem_of_here|].
    rewrite (Hsame x Hx). reflexivity.
Defined.

Lemma run_cleanup_file_runs_once_witness :
  p_cleanup (st_pool ex_registered)
  = [mk_cleanup 120 9 200] ++ mk_cleanup 96 7 100 :: []
  ∧ Forall (λ c', ¬ (c_handler c' = 7 ∧ ex_fd (st_mem ex_registered) (c_data c') = 100))
      [mk_cleanup 120 9 200]
  ∧ ∃ s1 s2,
      ngx_pool_run_cleanup_file 7 ex_fd 100 ex_registered = Some ((), s1)
      ∧ st_trace s1 = st_trace ex_registered ++ [EvHandler 7 100]
      ∧ ngx_destroy_pool s1 = Some ((), s2)
      ∧ st_trace s2
        = st_trace s1 ++ handler_events ([mk_cleanup 120 9 200] ++ [])
            ++ (EvFree <$> (live_allocs (p_large (st_pool ex_registered))
                            ++ (d_self <$> p_d (st_pool ex_registered)))).
Proof.
  assert (p_cleanup (st_pool ex_registered)
          = [mk_cleanup 120 9 200] ++ mk_cleanup 96 7 100 :: []) as Hcs
    by (vm_compute; reflexivity).
  assert (Forall (λ c', ¬ (c_handler c' = 7
                           ∧ ex_fd (st_mem ex_registered) (c_data c') = 100))
            [mk_cleanup 120 9 200]) as Hpre.
  { repeat constructor. simpl. intros [Hh _]. discriminate Hh. }
  split; [exact Hcs|]. split; [exact Hpre|].
  exact (run_cleanup_file_runs_once 7 ex_fd 100 ex_registered
           [mk_cleanup 120 9 200] [] (mk_cleanup 96 7 100)
           Hcs eq_refl eq_refl Hpre).
Defined.

Lemma run_cleanup_file_no_match_witness :
  Forall (λ c, ¬ (c_handler c = 7 ∧ ex_fd (st_mem ex_registered) (c_data c) = 200))
    (p_cleanup (st_pool ex_registered))
  ∧ ngx_pool_run_cleanup_file 7 ex_fd 200 ex_registered = Some ((), ex_registered).
Proof.
  assert (Forall (λ c, ¬ (c_handler c = 7
                          ∧ ex_fd (st_mem ex_registered) (c_data c) = 200))
            (p_cleanup (st_pool ex_registered))) as Hnone.
  { change (p_cleanup (st_pool ex_registered))
      with [mk_cleanup 120 9 200; mk_cleanup 96 7 100].
    repeat constructor; simpl; intros [Hh Hd]; discriminate. }
  split; [exact Hnone|].
  exact (run_cleanup_file_no_match 7 ex_fd 200 ex_registered Hnone).
Defined.

Lemma array_push_n_slots_witness :
  0 <= 3
  ∧ 0 <= a_nelts ex_array <= a_nalloc ex_array
  ∧ 0 <= a_size ex_array
  ∧ 2 * Z.max 3 (a_nalloc ex_array) < 2 ^ word_bits
  ∧ 2 * Z.max 3 (a_nalloc ex_array) * a_size ex_array < 2 ^ word_bits
  ∧ ngx_array_push_n 1 ex_array 3 ex_array_state
    = Some (136, mk_array 136 3 4 5,
            ex_state (ngx_array_push_n 1 ex_array 3 ex_array_state))
  ∧ ((136 = 0 ∧ mk_array 136 3 4 5 = ex_array)
     ∨ (a_size (mk_array 136 3 4 5) = a_size ex_array
        ∧ a_nelts (mk_array 136 3 4 5) = a_nelts ex_array + 3
        ∧ a_nelts (mk_array 136 3 4 5) <= a_nalloc (mk_array 136 3 4 5)
        ∧ 136 = a_elts (mk_array 136 3 4 5) + a_size ex_array * a_nelts ex_array
        ∧ 136 + 3 * a_size ex_array
          <= a_elts (mk_array 136 3 4 5)
             + a_nalloc (mk_array 136 3 4 5) * a_size ex_array)).
Proof.
  assert (0 <= 3) as Hn by lia.
  assert (0 <= a_nelts ex_array <= a_nalloc ex_array) as Hne by (simpl; lia).
  assert (0 <= a_size ex_array) as Hsz by (simpl; lia).
  assert (2 * Z.max 3 (a_nalloc ex_array) < 2 ^ word_bits) as Hcap
    by (by vm_compute).
  assert (2 * Z.max 3 (a_nalloc ex_array) * a_size ex_array < 2 ^ word_bits)
    as Hbytes by (by vm_compute).
  assert (ngx_array_push_n 1 ex_array 3 ex_array_state
          = Some (136, mk_array 136 3 4 5,
                  ex_state (ngx_array_push_n 1 ex_array 3 ex_array_state)))
    as Hrun by (vm_compute; reflexivity).
  split; [exact Hn|]. split; [exact Hne|]. split; [exact Hsz|].
  split; [exact Hcap|]. split; [exact Hbytes|]. split; [exact Hrun|].
  exact (array_push_n_slots 1 ex_array _ 3 ex_array_state _ 136
           Hn Hne Hsz Hcap Hbytes Hrun).
Defined.

Lemma array_push_n_keeps_elements_witness :
  0 <= a_nelts (mk_array 136 2 4 2) * a_size (mk_array 136 2 4 2) < 2 ^ word_bits
  ∧ ∃ a' s',
      ngx_array_push_n 1 (mk_array 136 2 4 2) 3 (ex_pool 1024) = Some (104, a', s')
      ∧ a_elts a' = 96
      ∧ ∀ i, 0 <= i < a_nelts (mk_array 136 2 4 2) * a_size (mk_array 136 2 4 2) →
             st_mem s' (a_elts a' + i) = st_mem (ex_pool 1024) (136 + i).
Proof.
  assert (0 <= a_nelts (mk_array 136 2 4 2) * a_size (mk_array 136 2 4 2)
          < 2 ^ word_bits) as Hbytes by (by vm_compute).
  assert (∃ a' s',
            ngx_array_push_n 1 (mk_array 136 2 4 2) 3 (ex_pool 1024)
            = Some (104, a', s') ∧ a_elts a' = 96) as (a' & s' & Hrun & Helts).
  { eexists _, _. split; [vm_compute; reflexivity|reflexivity]. }
  split; [exact Hbytes|]. exists a', s'. split; [exact Hrun|].
  split; [exact Helts|].
  exact (array_push_n_keeps_elements 1 (mk_array 136 2 4 2) a' 3 (ex_pool 1024)
           s' 104 Hbytes Hrun).
Defined.

Lemma array_push_n_one_is_push_witness :
  1 <= a_nalloc ex_array
  ∧ 0 <= a_nelts ex_array <= a_nalloc ex_array
  ∧ a_nalloc ex_array + 1 < 2 ^ word_bits
  ∧ 0 <= a_size ex_array < 2 ^ word_bits
  ∧ ngx_array_push_n 1 ex_array 1 ex_array_state
    = ngx_array_push 1 ex_array ex_array_state.
Proof.
  assert (1 <= a_nalloc ex_array) as Hcap by (simpl; lia).
  assert (0 <= a_nelts ex_array <= a_nalloc ex_array) as Hne by (simpl; lia).
  assert (a_nalloc ex_array + 1 < 2 ^ word_bits) as Hw by (by vm_compute).
  assert (0 <= a_size ex_array < 2 ^ word_bits) as Hsz by (by vm_compute).
  split; [exact Hcap|]. split; [exact Hne|]. split; [exact Hw|].
  split; [exact Hsz|].
  exact (array_push_n_one_is_push 1 ex_array ex_array_state Hcap Hne Hw Hsz).
Defined.

Lemma array_push_zero_capacity_witness :
  p_d (st_pool ex_odd) = mk_data 16 99 1040 0 :: []
  ∧ a_elts ex_array0 ≠ d_last (mk_data 16 99 1040 0)
  ∧ ngx_array_push 1 ex_array0 ex_odd
    = Some (104, mk_array 104 1 4 0, ex_state (ngx_array_push 1 ex_array0 ex_odd))
  ∧ ∃ s0, ngx_palloc 1 0 ex_odd = Some (104, s0).
Proof.
  assert (p_d (st_pool ex_odd) = mk_data 16 99 1040 0 :: []) as Hd
    by (vm_compute; reflexivity).
  assert (a_elts ex_array0 ≠ d_last (mk_data 16 99 1040 0)) as Hnot by done.
  assert (ngx_array_push 1 ex_array0 ex_odd
          = Some (104, mk_array 104 1 4 0,
                  ex_state (ngx_array_push 1 ex_array0 ex_odd))) as Hrun
    by (vm_compute; reflexivity).
  assert ((104 : Z) ≠ 0) as Hp by done.
  split; [exact Hd|]. split; [exact Hnot|]. split; [exact Hrun|].
  destruct (array_push_zero_capacity 1 ex_array0 _ ex_odd _ _ [] 104
              eq_refl eq_refl Hd Hnot Hrun Hp) as (_ & s0 & Hs0 & _).
  by exists s0.
Defined.

Lemma array_init_then_destroy_witness :
  ngx_palloc 1 sizeof_ngx_array_t (ex_pool 1024) = Some (96, ex_header)
  ∧ p_d (st_pool ex_header) = mk_data 16 136 1040 0 :: []
  ∧ p_current (st_pool ex_header) = 0%nat
  ∧ size_t (2 * 4) <= p_max (st_pool ex_header)
  ∧ has_room true (size_t (2 * 4)) (mk_data 16 136 1040 0)
  ∧ ngx_align_ptr (d_last (mk_data 16 136 1040 0)) NGX_ALIGNMENT ≠ 0
  ∧ ∃ arr s1 s2,
      ngx_array_init 1 2 4 ex_header = Some (0, arr, s1)
      ∧ a_elts arr = 136
      ∧ p_d (st_pool s1) = mk_data 16 144 1040 0 :: []
      ∧ ngx_array_destroy 96 arr s1 = Some ((), s2)
      ∧ p_d (st_pool s2) = mk_data 16 96 1040 0 :: []
      ∧ st_pool s2 = st_pool (ex_pool 1024).
Proof.
  assert (p_d (st_pool ex_header) = mk_data 16 136 1040 0 :: []) as Hd
    by (vm_compute; reflexivity).
  assert (p_current (st_pool ex_header) = 0%nat) as Hcur
    by (vm_compute; reflexivity).
  assert (size_t (2 * 4) <= p_max (st_pool ex_header)) as Hmax
    by (by vm_compute).
  assert (has_room true (size_t (2 * 4)) (mk_data 16 136 1040 0)) as Hroom
    by (by vm_compute).
  assert (ngx_align_ptr (d_last (mk_data 16 136 1040 0)) NGX_ALIGNMENT ≠ 0) as Hnz
    by (by vm_compute).
  split; [vm_compute; reflexivity|].
  split; [exact Hd|]. split; [exact Hcur|]. split; [exact Hmax|].
  split; [exact Hroom|]. split; [exact Hnz|].
  destruct (array_init_then_destroy 1 2 4 96 ex_header _ [] Hd Hcur Hmax
              Hroom Hnz) as (arr & s1 & s2 & H1 & H2 & H3 & H4 & H5 & _).
  exists arr, s1, s2. split; [exact H1|]. split; [rewrite H2; by vm_compute|].
  split; [rewrite H3; by vm_compute|]. split; [exact H4|].
  rewrite H5. split; by vm_compute.
Defined.

Lemma list_push_adds_one_witness :
  list_wf ex_list
  ∧ 1 <= l_nalloc ex_list < 2 ^ word_bits
  ∧ l_size ex_list * l_nalloc ex_list < 2 ^ word_bits
  ∧ ngx_list_push 1 ex_list ex_list_state
    = Some (152, mk_list [mk_part 152 1] 0%nat 8 2, ex_list_state)
  ∧ list_total (mk_list [mk_part 152 1] 0%nat 8 2) = list_total ex_list + 1.
Proof.
  assert (list_wf ex_list) as Hwf by (split; [reflexivity|constructor]).
  assert (1 <= l_nalloc ex_list < 2 ^ word_bits) as Hcap by (by vm_compute).
  assert (0 <= l_size ex_list) as Hsz by (by vm_compute).
  assert (l_size ex_list * l_nalloc ex_list < 2 ^ word_bits) as Hbytes
    by (by vm_compute).
  assert (Forall (λ p, 0 <= part_nelts p <= l_nalloc ex_list) (l_parts ex_list))
    as Hcounts by (repeat constructor; by vm_compute).
  assert (ngx_list_push 1 ex_list ex_list_state
          = Some (152, mk_list [mk_part 152 1] 0%nat 8 2, ex_list_state)) as Hrun
    by (vm_compute; reflexivity).
  assert ((152 : Z) ≠ 0) as He by done.
  split; [exact Hwf|]. split; [exact Hcap|]. split; [exact Hbytes|].
  split; [exact Hrun|].
  exact (proj1 (list_push_adds_one 1 ex_list _ ex_list_state _ 152
                  Hwf Hcap Hsz Hbytes Hcounts Hrun He)).
Defined.

Lemma create_pool_below_header_size_witness :
  0 <= 40 < sizeof_ngx_pool_t
  ∧ sizeof_ngx_pool_t + NGX_MAX_ALLOC_FROM_POOL <= 2 ^ word_bits
  ∧ ngx_create_pool 40 ex_heap ex_mem = Some ex_below_header
  ∧ 0 <= 100 <= NGX_MAX_ALLOC_FROM_POOL
  ∧ ∃ b s',
      p_d (st_pool ex_below_header) = [b]
      ∧ d_end b = d_self b + 40
      ∧ p_max (st_pool ex_below_header) = NGX_MAX_ALLOC_FROM_POOL
      ∧ ngx_palloc 1 100 ex_below_header = Some (d_self b + sizeof_ngx_pool_t, s')
      ∧ d_end b < d_self b + sizeof_ngx_pool_t.
Proof.
  assert (0 <= 40 < sizeof_ngx_pool_t) as Hsize by (by vm_compute).
  assert (sizeof_ngx_pool_t + NGX_MAX_ALLOC_FROM_POOL <= 2 ^ word_bits) as Hw
    by (by vm_compute).
  assert (ngx_create_pool 40 ex_heap ex_mem = Some ex_below_header) as Hc
    by reflexivity.
  assert (0 <= 100 <= NGX_MAX_ALLOC_FROM_POOL) as Hn by (by vm_compute).
  split; [exact Hsize|]. split; [exact Hw|]. split; [exact Hc|].
  split; [exact Hn|].
  exact (create_pool_below_header_size 1 40 ex_heap ex_mem ex_below_header 100
           Hsize Hw Hc Hn).
Defined.

Lemma tiny_pool_large_request_fails_witness :
  p_max (st_pool ex_tiny) < sizeof_ngx_pool_large_t
  ∧ p_max (st_pool ex_tiny) < request_size (Palloc 1000)
  ∧ first_empty (take 5 (p_large (st_pool ex_tiny))) = None
  ∧ serve 10 (Palloc 1000) ex_tiny
    = Some (0, ex_state (serve 10 (Palloc 1000) ex_tiny))
  ∧ st_pool (ex_state (serve 10 (Palloc 1000) ex_tiny)) = st_pool ex_tiny.
Proof.
  assert (p_max (st_pool ex_tiny) < sizeof_ngx_pool_large_t) as Htiny
    by (by vm_compute).
  assert (p_max (st_pool ex_tiny) < request_size (Palloc 1000)) as Hsize
    by (by vm_compute).
  assert (first_empty (take 5 (p_large (st_pool ex_tiny))) = None) as Hnone
    by reflexivity.
  assert (serve 10 (Palloc 1000) ex_tiny
          = Some (0, ex_state (serve 10 (Palloc 1000) ex_tiny))) as Hrun
    by (vm_compute; reflexivity).
  split; [exact Htiny|]. split; [exact Hsize|]. split; [exact Hnone|].
  split; [exact Hrun|].
  exact (proj2 (tiny_pool_large_request_fails 10 (Palloc 1000) ex_tiny _ 0
                  Htiny Hsize Hnone Hrun)).
Defined.

Lemma pfree_twice_declined_witness :
  NoDup (live_allocs (p_large (st_pool ex_one_large)))
  ∧ ngx_pfree 1040 ex_one_large = Some (NGX_OK, ex_one_freed)
  ∧ ngx_pfree 1040 ex_one_freed = Some (NGX_DECLINED, ex_one_freed).
Proof.
  assert ((1040 : Z) ≠ 0) as Hp by done.
  assert (NoDup (live_allocs (p_large (st_pool ex_one_large)))) as Hnd.
  { change (live_allocs (p_large (st_pool ex_one_large))) with [1040].
    apply NoDup_singleton. }
  assert (ngx_pfree 1040 ex_one_large = Some (NGX_OK, ex_one_freed)) as Hrun
    by (vm_compute; reflexivity).
  split; [exact Hnd|]. split; [exact Hrun|].
  exact (pfree_twice_declined ex_one_large ex_one_freed 1040 Hp Hnd Hrun).
Defined.


Lemma palloc_large_registers_witness :
  (malloc 5000 (st_heap ex_fifth_empty)
   = (26080, (sbrk_alloc 16 5000 (st_heap ex_fifth_empty)).2)
   ∧ 26080 ≠ 0
   ∧ sizeof_ngx_pool_large_t <= p_max (st_pool ex_fifth_empty)
   ∧ ngx_palloc_large (ngx_palloc 0) 5000 ex_fifth_empty
     = Some (26080,
             mk_state
               (set_large (<[4%nat := mk_large 96 26080]>
                             (p_large (st_pool ex_fifth_empty)))
                  (st_pool ex_fifth_empty))
               (sbrk_alloc 16 5000 (st_heap ex_fifth_empty)).2
               (st_mem ex_fifth_empty)
               (st_trace ex_fifth_empty ++ [EvMalloc 5000 26080])))
  ∧ (malloc 5000 (st_heap ex_five_large)
     = (26080, (sbrk_alloc 16 5000 (st_heap ex_five_large)).2)
     ∧ sizeof_ngx_pool_large_t <= p_max (st_pool ex_five_large)
     ∧ (∀ j l, (j < 5)%nat → p_large (st_pool ex_five_large) !! j = Some l →
               l_alloc l ≠ 0)
     ∧ ∃ s', ngx_palloc_large (ngx_palloc 0) 5000 ex_five_large = Some (26080, s')
             ∧ p_large (st_pool s')
               = mk_large 176 26080 :: p_large (st_pool ex_five_large)
             ∧ st_trace s' = st_trace ex_five_large ++ [EvMalloc 5000 26080]).
Proof.
  assert (26080 ≠ 0) as Hq0 by done.
  split.
  - assert (malloc 5000 (st_heap ex_fifth_empty)
            = (26080, (sbrk_alloc 16 5000 (st_heap ex_fifth_empty)).2)) as Hq
      by (vm_compute; reflexivity).
    assert (sizeof_ngx_pool_large_t <= p_max (st_pool ex_fifth_empty)) as Hmax
      by (vm_compute; discriminate).
    split; [exact Hq|]. split; [exact Hq0|]. split; [exact Hmax|].
    refine (proj1 (palloc_large_registers 0 5000 ex_fifth_empty 26080 _ Hq Hq0 Hmax)
              4%nat (mk_large 96 0) _ _ _ _).
    + lia.
    + vm_compute; reflexivity.
    + reflexivity.
    + intros j l' Hj Hl.
      destruct j as [|[|[|[|j]]]]; [| | | |lia];
        vm_compute in Hl; injection Hl as <-; simpl; lia.
  - assert (malloc 5000 (st_heap ex_five_large)
            = (26080, (sbrk_alloc 16 5000 (st_heap ex_five_large)).2)) as Hq
      by (vm_compute; reflexivity).
    assert (sizeof_ngx_pool_large_t <= p_max (st_pool ex_five_large)) as Hmax
      by (vm_compute; discriminate).
    assert (∀ j l, (j < 5)%nat → p_large (st_pool ex_five_large) !! j = Some l →
                   l_alloc l ≠ 0) as Hfull.
    { intros j l Hj Hl.
      destruct j as [|[|[|[|[|j]]]]]; [| | | | |lia];
        vm_compute in Hl; injection Hl as <-; simpl; lia. }
    split; [exact Hq|]. split; [exact Hmax|]. split; [exact Hfull|].
    destruct (proj2 (palloc_large_registers 0 5000 ex_five_large 26080 _ Hq Hq0 Hmax)
                Hfull) as (r & s1 & Er & Hl & Hrun & _).
    assert (pool_small true sizeof_ngx_pool_large_t
              (mk_state (st_pool ex_five_large)
                 (sbrk_alloc 16 5000 (st_heap ex_five_large)).2
                 (st_mem ex_five_large)
                 (st_trace ex_five_large ++ [EvMalloc 5000 26080]))
            = Some (176,
                    mk_state
                      (set_d [mk_data 16 192 1040 0] (st_pool ex_five_large))
                      (sbrk_alloc 16 5000 (st_heap ex_five_large)).2
                      (st_mem ex_five_large)
                      (st_trace ex_five_large ++ [EvMalloc 5000 26080]))) as Hval
      by (vm_compute; reflexivity).
    rewrite Hval in Er. apply (inj Some) in Er. apply pair_eq in Er as [<- <-].
    rewrite (Hrun ltac:(done)). eexists. split; [reflexivity|].
    split; reflexivity.
Defined.

Lemma fresh_pool_cleanups_lifo_witness :
  (NGX_ALIGNMENT | 1024)
  ∧ sizeof_ngx_pool_t <= 1024 < 2 ^ word_bits
  ∧ ngx_create_pool 1024 ex_heap ex_mem = Some (ex_pool 1024)
  ∧ sizeof_ngx_pool_cleanup_t <= p_max (st_pool (ex_pool 1024))
  ∧ Forall (λ r, 0 <= request_size r) ex_requests
  ∧ serve_all 1 ex_requests (ex_pool 1024) = Some ([96; 196; 1040], ex_served)
  ∧ Forall (λ p, p ≠ 0) [96; 196; 1040]
  ∧ register_all 1 ex_regs ex_served = Some ([248; 272], ex_served_registered)
  ∧ Forall (λ c, c ≠ 0) [248; 272]
  ∧ Forall (λ r : Z * Z, r.1 ≠ 0) ex_regs
  ∧ NoDup [248; 272]
  ∧ p_cleanup (st_pool ex_served_registered)
    = [mk_cleanup 272 9 200; mk_cleanup 248 7 100]
  ∧ ∃ s2,
      ngx_destroy_pool ex_served_registered = Some ((), s2)
      ∧ st_trace s2
        = st_trace ex_served_registered
            ++ [EvHandler 9 200; EvHandler 7 100] ++ [EvFree 1040; EvFree 16].
Proof.
  assert ((NGX_ALIGNMENT | 1024)) as Hal by (by exists 128).
  assert (sizeof_ngx_pool_t <= 1024 < 2 ^ word_bits) as Hsize by (simpl; lia).
  assert (sizeof_ngx_pool_cleanup_t <= p_max (st_pool (ex_pool 1024))) as Hmax
    by (by vm_compute).
  assert (Forall (λ r, 0 <= request_size r) ex_requests) as Hsz
    by (repeat constructor; simpl; lia).
  assert (serve_all 1 ex_requests (ex_pool 1024)
          = Some ([96; 196; 1040], ex_served)) as Hserve
    by (vm_compute; reflexivity).
  assert (Forall (λ p, p ≠ 0) [96; 196; 1040]) as Hps
    by (repeat constructor; done).
  assert (register_all 1 ex_regs ex_served
          = Some ([248; 272], ex_served_registered)) as Hreg
    by (vm_compute; reflexivity).
  assert (Forall (λ c, c ≠ 0) [248; 272]) as Hcs by (repeat constructor; done).
  assert (Forall (λ r : Z * Z, r.1 ≠ 0) ex_regs) as Hregs
    by (repeat constructor; done).
  destruct (@fresh_pool_cleanups_lifo lp64 sbrk lp64_ok sbrk_ok 1 1024 ex_heap
              ex_mem (ex_pool 1024) ex_requests [96; 196; 1040] ex_served
              ex_regs [248; 272] ex_served_registered
              Hal Hsize ex_pool_created Hmax Hsz Hserve Hps Hreg Hcs Hregs)
    as (Hnd & _ & Hchain & s2 & Hd & Htr).
  split; [exact Hal|]. split; [exact Hsize|]. split; [exact ex_pool_created|].
  split; [exact Hmax|]. split; [exact Hsz|]. split; [exact Hserve|].
  split; [exact Hps|]. split; [exact Hreg|]. split; [exact Hcs|].
  split; [exact Hregs|]. split; [exact Hnd|]. split; [exact Hchain|].
  exists s2. split; [exact Hd|]. rewrite Htr. reflexivity.
Defined.

End RunsProperties.
